(** * tsx: module resolution and const-enum inlining

    A shallow embedding of
    - [src/utils/tsconfig.ts]                         (module [Tsconfig]),
    - [src/cjs/api/module-resolve-filename/index.ts]  (module [ResolveFilename]),
    - [src/utils/transform/const-enum-transformer.ts] (module [ConstEnum]),
    together with the parts of Node's [node:path] (module [Path]) and of the
    [magic-string] package (module [MagicString]) these files call.  What
    the files take from [node:fs], get-tsconfig, oxc-parser and the
    JavaScript engine is a parameter (classes [FileSystem], [GetTsconfig],
    [OxcParser], [JSRuntime]); the helpers of [index.ts] that are not among
    the sources are a parameter too ([ResolverParts]), with one
    implementation written from the specification (module [SpecModel]).
    The first part of the file holds the definitions, the second part the
    properties, proved for every implementation of the parameters and
    exercised on the example worlds of module [Scenario].

    JavaScript strings are modelled as [string] (sequences of 8-bit
    characters), numbers as binary64 floats ([float]), [Map] objects and
    plain objects used as maps as [gmap].  A JavaScript exception is a
    [Throw] result; [try]/[catch] is [try_catch].  Calls of the logger
    ([logCjs]) have no effect on what is computed and are left out. *)

From Stdlib Require Import Ascii Floats.
From Stdlib Require DecimalString.
From stdpp Require Import base option list gmap strings.

(** ** Exceptions *)

Inductive JSError :=
  | ErrorObj (message : string)      (* [new Error(message)] *)
  | TypeErrorObj (message : string)  (* [new TypeError(message)] *)
  | HostError (origin : string).     (* thrown by a library or by the runtime *)

Inductive Exc (A : Type) :=
  | Ok (a : A)
  | Throw (e : JSError).
Arguments Ok {A} a.
Arguments Throw {A} e.

Definition isOk {A} (r : Exc A) : bool :=
  match r with Ok _ => true | Throw _ => false end.

#[global] Instance exc_ret : MRet Exc := λ A a, Ok a.
#[global] Instance exc_bind : MBind Exc := λ A B f m,
  match m with Ok a => f a | Throw e => Throw e end.

(** ** Strings *)

Module Str.

Definition isSlash (c : ascii) : bool := Ascii.eqb c "/"%char.

(** [s.startsWith(p)] *)
Definition startsWith (s p : string) : bool := String.prefix p s.

(** [s.slice(from)] for [0 <= from] *)
Fixpoint drop (n : nat) (s : string) : string :=
  match n, s with
  | O, _ => s
  | S n', String _ s' => drop n' s'
  | S _, EmptyString => EmptyString
  end.

(** [s.slice(from, to)] for [0 <= from], [0 <= to] *)
Definition slice (s : string) (from to : nat) : string :=
  String.substring from (to - from) s.

(** [s.endsWith(p)] *)
Definition endsWith (s p : string) : bool :=
  (String.length p <=? String.length s)%nat
  && String.eqb (drop (String.length s - String.length p) s) p.

(** [s.includes(p)] *)
Fixpoint includes (s p : string) : bool :=
  String.prefix p s ||
  match s with
  | EmptyString => false
  | String _ s' => includes s' p
  end.

(** [s.split(sep)] for a one-character separator *)
Fixpoint splitOn (sep : ascii) (s : string) : list string :=
  match s with
  | EmptyString => [EmptyString]
  | String c s' =>
      if Ascii.eqb c sep then EmptyString :: splitOn sep s'
      else match splitOn sep s' with
           | seg :: segs => String c seg :: segs
           | [] => [String c EmptyString]
           end
  end.

(** [parts.join(sep)] *)
Fixpoint joinWith (sep : string) (parts : list string) : string :=
  match parts with
  | [] => EmptyString
  | [p] => p
  | p :: rest => p +:+ sep +:+ joinWith sep rest
  end.

Definition isEmpty (s : string) : bool :=
  match s with EmptyString => true | _ => false end.

(** Line terminators, which [.] of a regular expression does not match
    (the two of them that fit in one 8-bit character). *)
Definition isLineTerminator (c : ascii) : bool :=
  Ascii.eqb c "010"%char || Ascii.eqb c "013"%char.

Fixpoint noLineTerminator (s : string) : bool :=
  match s with
  | EmptyString => true
  | String c s' => negb (isLineTerminator c) && noLineTerminator s'
  end.

(** [\w] of a regular expression without the [u] flag *)
Definition isWordChar (c : ascii) : bool :=
  let n := nat_of_ascii c in
  ((48 <=? n) && (n <=? 57) || (65 <=? n) && (n <=? 90)
   || (97 <=? n) && (n <=? 122) || (n =? 95))%nat.

(** A name without [/] *)
Fixpoint slashFree (s : string) : bool :=
  match s with
  | EmptyString => true
  | String c s' => negb (isSlash c) && slashFree s'
  end.

(** A name without backslash *)
Fixpoint backslashFree (s : string) : bool :=
  match s with
  | EmptyString => true
  | String c s' => negb (Ascii.eqb c "092"%char) && backslashFree s'
  end.

(** A name made of word characters *)
Fixpoint wordOnly (s : string) : bool :=
  match s with
  | EmptyString => true
  | String c s' => isWordChar c && wordOnly s'
  end.

End Str.


(** ** [node:path], POSIX flavour

    The functions of Node's [path] module that the sources call, following
    Node's [lib/path.js]. *)

Module Path.

Definition chars (s : string) : list ascii := String.list_ascii_of_string s.

(** The backwards loop of [dirname]: [rev_chars] holds the characters at
    indices [i], [i - 1], ..., [0]; index [0] is not inspected. *)
Fixpoint dirnameScan (rev_chars : list ascii) (i : nat) (matchedSlash : bool)
  : option nat :=
  match rev_chars, i with
  | c :: rest, S i' =>
      if Str.isSlash c then
        if matchedSlash then dirnameScan rest i' true else Some i
      else dirnameScan rest i' false
  | _, _ => None
  end.

(** [path.dirname(p)] *)
Definition dirname (p : string) : string :=
  if Str.isEmpty p then "."
  else
    let hasRoot := Str.startsWith p "/" in
    match dirnameScan (rev (chars p)) (String.length p - 1) true with
    | None => if hasRoot then "/" else "."
    | Some e => if hasRoot && (e =? 1)%nat then "//" else Str.slice p 0 e
    end.

(** One path segment of [normalizeString]; [stack] holds the segments kept so
    far, the last one first. *)
Definition normalizeStep (allowAboveRoot : bool) (stack : list string)
    (seg : string) : list string :=
  if Str.isEmpty seg || String.eqb seg "." then stack
  else if String.eqb seg ".." then
    match stack with
    | top :: below =>
        if String.eqb top ".." then
          (if allowAboveRoot then ".." :: stack else stack)
        else below
    | [] => if allowAboveRoot then [".."] else []
    end
  else seg :: stack.

Definition normalizeString (p : string) (allowAboveRoot : bool) : string :=
  Str.joinWith "/"
    (rev (foldl (normalizeStep allowAboveRoot) [] (Str.splitOn "/"%char p))).

(** [path.normalize(p)] *)
Definition normalize (p : string) : string :=
  if Str.isEmpty p then "."
  else
    let isAbsolute := Str.startsWith p "/" in
    let trailingSeparator := Str.endsWith p "/" in
    let q := normalizeString p (negb isAbsolute) in
    if Str.isEmpty q then
      (if isAbsolute then "/" else if trailingSeparator then "./" else ".")
    else
      let q := if trailingSeparator then q +:+ "/" else q in
      if isAbsolute then "/" +:+ q else q.

(** [path.join(a, b)] *)
Definition join (a b : string) : string :=
  let joined :=
    match Str.isEmpty a, Str.isEmpty b with
    | true, true => None
    | true, false => Some b
    | false, true => Some a
    | false, false => Some (a +:+ "/" +:+ b)
    end in
  match joined with
  | None => "."
  | Some j => normalize j
  end.

(** [path.resolve(a, b)] in a process whose working directory is [cwd]
    (an absolute path): the arguments are taken from the right until an
    absolute one is met. *)
Definition resolve (cwd a b : string) : string :=
  let step (acc : string * bool) (p : string) : string * bool :=
    if snd acc || Str.isEmpty p then acc
    else (p +:+ "/" +:+ fst acc, Str.startsWith p "/") in
  let '(resolvedPath, resolvedAbsolute) := foldl step ("", false) [b; a; cwd] in
  let q := normalizeString resolvedPath (negb resolvedAbsolute) in
  if resolvedAbsolute then "/" +:+ q
  else if Str.isEmpty q then "." else q.

(** The backwards loop of [basename]: [start] and [end] so far. *)
Fixpoint basenameScan (rev_chars : list ascii) (matchedSlash : bool)
    (end_ : option nat) : nat * option nat :=
  match rev_chars with
  | [] => (0, end_)
  | c :: rest =>
      let i := length rest in
      if Str.isSlash c then
        if matchedSlash then basenameScan rest matchedSlash end_
        else (i + 1, end_)
      else
        match end_ with
        | None => basenameScan rest false (Some (i + 1))
        | Some _ => basenameScan rest matchedSlash end_
        end
  end.

(** [path.basename(p)] *)
Definition basename (p : string) : string :=
  match basenameScan (rev (chars p)) true None with
  | (_, None) => ""
  | (start, Some e) => Str.slice p start e
  end.

Record ExtState := {
  startDot : option nat;
  startPart : nat;
  extEnd : option nat;
  matchedSlash : bool;
  preDotState : Z;
}.

(** The backwards loop of [extname]. *)
Fixpoint extnameScan (rev_chars : list ascii) (st : ExtState) : ExtState :=
  match rev_chars with
  | [] => st
  | c :: rest =>
      let i := length rest in
      if Str.isSlash c then
        if matchedSlash st then extnameScan rest st
        else {| startDot := startDot st; startPart := i + 1;
                extEnd := extEnd st; matchedSlash := matchedSlash st;
                preDotState := preDotState st |}
      else
        let st1 :=
          match extEnd st with
          | None => {| startDot := startDot st; startPart := startPart st;
                       extEnd := Some (i + 1); matchedSlash := false;
                       preDotState := preDotState st |}
          | Some _ => st
          end in
        let st2 :=
          if Ascii.eqb c "."%char then
            match startDot st1 with
            | None => {| startDot := Some i; startPart := startPart st1;
                         extEnd := extEnd st1; matchedSlash := matchedSlash st1;
                         preDotState := preDotState st1 |}
            | Some _ => {| startDot := startDot st1; startPart := startPart st1;
                           extEnd := extEnd st1; matchedSlash := matchedSlash st1;
                           preDotState := 1 |}
            end
          else
            match startDot st1 with
            | Some _ => {| startDot := startDot st1; startPart := startPart st1;
                           extEnd := extEnd st1; matchedSlash := matchedSlash st1;
                           preDotState := -1 |}
            | None => st1
            end in
        extnameScan rest st2
  end.

(** [path.extname(p)] *)
Definition extname (p : string) : string :=
  let st := extnameScan (rev (chars p))
              {| startDot := None; startPart := 0; extEnd := None;
                 matchedSlash := true; preDotState := 0 |} in
  match startDot st, extEnd st with
  | Some sd, Some e =>
      if (preDotState st =? 0)%Z
         || ((preDotState st =? 1)%Z && (sd =? e - 1)%nat
             && (sd =? startPart st + 1)%nat)
      then "" else Str.slice p sd e
  | _, _ => ""
  end.

(** *** Notions the properties are stated with *)

(** A path segment that [normalizeString] keeps as it is: not empty,
    neither [.] nor [..], without [/]. *)
Definition cleanSegment (seg : string) : bool :=
  negb (Str.isEmpty seg) && negb (String.eqb seg ".")
  && negb (String.eqb seg "..") && Str.slashFree seg.

(** The non-empty prefixes of a list, the shortest first. *)
Fixpoint prefixes {A : Type} (l : list A) : list (list A) :=
  match l with
  | [] => []
  | x :: l' => [x] :: ((x ::.) <$> prefixes l')
  end.

End Path.


(** ** Stateful code

    A computation over a mutable store [S] that may throw: the store as it
    is when the exception is thrown is kept, as a [Map] mutated before a
    [throw] stays mutated. *)

Definition Eff (S A : Type) : Type := S → Exc A * S.

#[global] Instance eff_ret {S} : MRet (Eff S) := λ A a s, (Ok a, s).
#[global] Instance eff_bind {S} : MBind (Eff S) := λ A B f m s,
  match m s with
  | (Ok a, s') => f a s'
  | (Throw e, s') => (Throw e, s')
  end.

Definition lift {S A} (r : Exc A) : Eff S A := λ s, (r, s).
Definition getStore {S} : Eff S S := λ s, (Ok s, s).
Definition modifyStore {S} (f : S → S) : Eff S unit := λ s, (Ok tt, f s).

(** [try { m } catch (e) { h e }] *)
Definition try_catch {S A} (m : Eff S A) (h : JSError → Eff S A) : Eff S A :=
  λ s, match m s with
       | (Ok a, s') => (Ok a, s')
       | (Throw e, s') => h e s'
       end.

(** ** The world outside the repository

    What the sources import from Node and from npm packages, as interfaces:
    a theorem holds for every implementation of them. *)

(** [node:fs] *)
Class FileSystem := {
  (** [fs.accessSync(path)]: returns, or throws when the path is not
      accessible *)
  accessSync : string → Exc unit;
  (** [fs.existsSync(path)] *)
  existsSync : string → bool;
  (** [fs.readFileSync(path, 'utf8')] *)
  readFileSync : string → Exc string;
  (** [process.cwd()], an absolute path *)
  cwd : string;
}.

(** A non-null result of get-tsconfig's [createPathsMatcher]: a function
    that gives an array of candidate paths for every specifier. *)
Definition PathsMatcher : Type := string → list string.

(** The get-tsconfig package. *)
Class GetTsconfig := {
  (** the parsed content of a configuration file *)
  TsConfigJson : Type;
  (** [config.compilerOptions?.allowJs] *)
  compilerOptionsAllowJs : TsConfigJson → option bool;
  (** [parseTsconfig(path)] *)
  parseTsconfig : string → Exc TsConfigJson;
  (** [createPathsMatcher({ path, config })]: [null] when the configuration
      has neither [paths] nor [baseUrl] *)
  createPathsMatcher : string → TsConfigJson → Exc (option PathsMatcher);
}.

(** ** [src/utils/tsconfig.ts] *)

Module Tsconfig.

(** A non-null value of [tsconfigCache]. *)
Record CacheEntry := { paths : PathsMatcher; allowJs : bool }.

(** The module's mutable bindings: [tsconfigCache], where a directory is
    absent, mapped to [null] ([Some None]) or mapped to an entry, and the
    exported [tsconfigPathsMatcher], [None] while it is [undefined] or
    [null]. *)
Record State := {
  tsconfigCache : gmap string (option CacheEntry);
  tsconfigPathsMatcher : option PathsMatcher;
}.

Definition tsconfigCacheSet (dir : string) (v : option CacheEntry)
  : Eff State unit :=
  modifyStore (λ st,
    {| tsconfigCache := <[dir := v]> (tsconfigCache st);
       tsconfigPathsMatcher := tsconfigPathsMatcher st |}).

Section DynamicPathsMatcher.
Context `{FileSystem} `{GetTsconfig}.

(** The [while] loop of lines 57-69: [Some tsconfigPath] when a probe
    succeeds, [None] when [currentDir] meets its own parent. *)
Fixpoint searchUp (fuel : nat) (currentDir : string) : option string :=
  match fuel with
  | O => None
  | S fuel' =>
      if String.eqb currentDir (Path.dirname currentDir) then None
      else
        let potentialConfig := Path.join currentDir "tsconfig.json" in
        if isOk (accessSync potentialConfig) then Some potentialConfig
        else searchUp fuel' (Path.dirname currentDir)
  end.

(** The loop, with enough iterations for it to stop by its own test
    whatever the directory ([TsconfigFacts.searchUp_fuel]). *)
Definition findTsconfig (searchDir : string) : option string :=
  searchUp (String.length searchDir + 2) searchDir.

(** The function returned by [createDynamicPathsMatcher]. *)
Definition dynamicPathsMatcher (specifier : string) (fromFile : option string)
  : Eff State (list string) :=
  match fromFile with
  | None | Some EmptyString =>
      st ← getStore;
      mret (match tsconfigPathsMatcher st with
            | Some matcher => matcher specifier
            | None => []
            end)
  | Some fromFile =>
      let searchDir := Path.dirname fromFile in
      st ← getStore;
      match tsconfigCache st !! searchDir with
      | Some (Some cached) => mret (paths cached specifier)
      | Some None => mret []
      | None =>
          match findTsconfig searchDir with
          | None => tsconfigCacheSet searchDir None;; mret []
          | Some tsconfigPath =>
              try_catch
                (parsed ← lift (parseTsconfig tsconfigPath);
                 pathsMatcher ← lift (createPathsMatcher tsconfigPath parsed);
                 let configAllowJs :=
                   default false (compilerOptionsAllowJs parsed) in
                 match pathsMatcher with
                 | Some matcher =>
                     tsconfigCacheSet searchDir
                       (Some {| paths := matcher; allowJs := configAllowJs |});;
                     mret (matcher specifier)
                 | None => tsconfigCacheSet searchDir None;; mret []
                 end)
                (λ _, tsconfigCacheSet searchDir None;; mret [])
          end
      end
  end.

(** *** Notions the properties are stated with *)

(** The directories whose [tsconfig.json] the loop can probe, in order:
    [currentDir] and its ancestors, as long as a directory differs from its
    own parent. *)
Fixpoint ancestorsFrom (fuel : nat) (currentDir : string) : list string :=
  match fuel with
  | O => []
  | S fuel' =>
      if String.eqb currentDir (Path.dirname currentDir) then []
      else currentDir :: ancestorsFrom fuel' (Path.dirname currentDir)
  end.

Definition probedDirs (searchDir : string) : list string :=
  ancestorsFrom (String.length searchDir + 2) searchDir.

(** A probe: [accessSync] of the directory's [tsconfig.json] returns. *)
Definition hasConfig (dir : string) : bool :=
  isOk (accessSync (Path.join dir "tsconfig.json")).

(** The configuration files of the directory [/s1/.../sn] and of its
    ancestors below the root, the nearest first:
    [/s1/.../sn/tsconfig.json], ..., [/s1/tsconfig.json]. *)
Definition configPathsOf (segs : list string) : list string :=
  (λ pre, "/" +:+ Str.joinWith "/" pre +:+ "/tsconfig.json")
    <$> reverse (Path.prefixes segs).

(** What a cache miss stores for a directory whose nearest configuration
    file is [tsconfigPath]. *)
Definition entryOf (tsconfigPath : string) : option CacheEntry :=
  match parseTsconfig tsconfigPath with
  | Ok parsed =>
      match createPathsMatcher tsconfigPath parsed with
      | Ok (Some matcher) =>
          Some {| paths := matcher;
                  allowJs := default false (compilerOptionsAllowJs parsed) |}
      | _ => None
      end
  | Throw _ => None
  end.

(** The cache holds only what the resolver itself stores on a miss, the
    file system being what it is now: true of the empty cache, and kept by
    every call ([TsconfigFacts.dynamicPathsMatcher_consistent]). *)
Definition consistent (st : State) : Prop :=
  ∀ dir v, tsconfigCache st !! dir = Some v →
    v = findTsconfig dir ≫= entryOf.


(** The store after a sequence of calls, each a [(specifier, fromFile)]. *)
Definition afterCalls (calls : list (string * option string)) (st : State)
  : State :=
  foldl (λ st call, (dynamicPathsMatcher call.1 call.2 st).2) st calls.

End DynamicPathsMatcher.

End Tsconfig.

(** What [loadTsconfig] takes from get-tsconfig besides. *)
Class GetTsconfigLoader `{GetTsconfig} := {
  (** a result of [createFilesMatcher] *)
  FileMatcher : Type;
  (** [getTsconfig()]: the path and the content of the configuration file
      found from the working directory, [null] when there is none *)
  getTsconfig : Exc (option (string * TsConfigJson));
  (** [createFilesMatcher({ path, config })] *)
  createFilesMatcher : string → TsConfigJson → Exc FileMatcher;
}.

(** [loadTsconfig] of [src/utils/tsconfig.ts], and the exported bindings it
    assigns. *)
Module TsconfigLoad.

Section LoadTsconfig.
Context `{FileSystem} `{GetTsconfigLoader}.

(** The module's exported bindings: [fileMatcher] and [allowJs], and the
    matcher and the cache of [Tsconfig.State]. *)
Record Bindings := {
  fileMatcher : option FileMatcher;
  allowJs : bool;
  resolver : Tsconfig.State;
}.

(** [fileMatcher = m] *)
Definition setFileMatcher (m : FileMatcher) : Eff Bindings unit :=
  modifyStore (λ b,
    {| fileMatcher := Some m; allowJs := allowJs b; resolver := resolver b |}).

(** [tsconfigPathsMatcher = m] *)
Definition setTsconfigPathsMatcher (m : option PathsMatcher)
  : Eff Bindings unit :=
  modifyStore (λ b,
    {| fileMatcher := fileMatcher b; allowJs := allowJs b;
       resolver :=
         {| Tsconfig.tsconfigCache := Tsconfig.tsconfigCache (resolver b);
            Tsconfig.tsconfigPathsMatcher := m |} |}).

(** [allowJs = v] *)
Definition setAllowJs (v : bool) : Eff Bindings unit :=
  modifyStore (λ b,
    {| fileMatcher := fileMatcher b; allowJs := v; resolver := resolver b |}).

(** [loadTsconfig(configPath)], lines 116-151; [path.resolve(configPath)]
    has one argument. *)
Definition loadTsconfig (configPath : option string) : Eff Bindings unit :=
  tsconfig ←
    match configPath with
    | Some (String c p) =>
        let resolvedConfigPath := Path.resolve cwd "" (String c p) in
        config ← lift (parseTsconfig resolvedConfigPath);
        mret (Some (resolvedConfigPath, config))
    | _ => try_catch (lift getTsconfig) (λ _, mret None)
    end;
  match tsconfig with
  | None => mret tt
  | Some (path, config) =>
      files ← lift (createFilesMatcher path config);
      setFileMatcher files;;
      pathsMatcher ← lift (createPathsMatcher path config);
      setTsconfigPathsMatcher pathsMatcher;;
      setAllowJs (default false (compilerOptionsAllowJs config))
  end.

(** *** Notions the properties are stated with *)

(** The configuration [loadTsconfig] goes on with: the file at
    [configPath], or the one [getTsconfig] finds, if any. *)
Definition configFor (configPath : option string)
  : Exc (option (string * TsConfigJson)) :=
  match configPath with
  | Some (String c p) =>
      let resolvedConfigPath := Path.resolve cwd "" (String c p) in
      config ← parseTsconfig resolvedConfigPath;
      Ok (Some (resolvedConfigPath, config))
  | _ =>
      match getTsconfig with
      | Ok found => Ok found
      | Throw _ => Ok None
      end
  end.

End LoadTsconfig.

End TsconfigLoad.


(** ** [src/cjs/api/module-resolve-filename/index.ts] *)

(** [Module.Parent | undefined] is [option Parent]; [filename] is [None]
    when the property is [undefined] or [null]. *)
Record Parent := { filename : option string }.

(** [(request: string) => string], which throws when nothing is found. *)
Definition SimpleResolve : Type := string → Exc string.

(** What [index.ts] imports from modules of the repository that are not
    among the sources ([utils/path-utils], [./preserve-query],
    [./interop-cjs-exports], [./resolve-ts-extensions],
    [./resolve-implicit-extensions]) and from [node:url]. *)
Class ResolverParts := {
  (** [isFilePath(request)] *)
  isFilePath : string → bool;
  (** the constants [fileUrlPrefix] and [nodeModulesPath] *)
  fileUrlPrefix : string;
  nodeModulesPath : string;
  (** [tsExtensionsPattern.test(filename)] *)
  tsExtensionsPattern : string → bool;
  (** [fileURLToPath(request)] *)
  fileURLToPath : string → Exc string;
  (** [interopCjsExports(request)] *)
  interopCjsExports : string → string;
  (** [preserveQuery(request, parent)], a triple
      [[cleanRequest, searchParams, appendQuery]] *)
  URLSearchParams : Type;
  searchParamsGet : URLSearchParams → string → option string;
  preserveQuery :
    string → option Parent → string * URLSearchParams * (string → nat → string);
  (** [createTsExtensionResolver(nextResolve, isTsParent)] *)
  createTsExtensionResolver : SimpleResolve → bool → SimpleResolve;
  (** [createImplicitResolver(nextResolve)] *)
  createImplicitResolver : SimpleResolve → SimpleResolve;
}.

Module ResolveFilename.

Section Resolve.
Context `{FileSystem} `{GetTsconfig} `{ResolverParts}.

(** [parent?.filename] *)
Definition parentFilename (parent : option Parent) : option string :=
  parent ≫= filename.

(** Lines 22-25: "Support file protocol". *)
Definition supportFileProtocol (request : string) : Exc string :=
  if Str.startsWith request fileUrlPrefix then fileURLToPath request
  else Ok request.

(** Lines 28-34, the condition of the [if]: a bare specifier whose parent is
    not inside a dependency directory. *)
Definition aliasApplies (request : string) (parent : option Parent) : bool :=
  negb (isFilePath request)
  && negb (match parentFilename parent with
           | Some f => Str.includes f nodeModulesPath
           | None => false
           end).

(** Lines 35-74: [possiblePaths] as it is when the [for] loop starts. *)
Definition possiblePathsFor (request : string) (parent : option Parent)
  : Eff Tsconfig.State (list string) :=
  possiblePaths ←
    match parentFilename parent with
    | Some (String c f) =>
        try_catch
          (Tsconfig.dynamicPathsMatcher request (Some (String c f)))
          (λ _, mret [])
    | _ => mret []
    end;
  st ← getStore;
  match possiblePaths, Tsconfig.tsconfigPathsMatcher st with
  | [], Some matcher => mret (matcher request)
  | _, _ => mret possiblePaths
  end.

(** Lines 76-85: the first [possiblePath] that [nextResolve] resolves. *)
Fixpoint firstResolved (nextResolve : SimpleResolve)
    (possiblePaths : list string) : option string :=
  match possiblePaths with
  | [] => None
  | possiblePath :: rest =>
      match nextResolve possiblePath with
      | Ok resolved => Some resolved
      | Throw _ => firstResolved nextResolve rest
      end
  end.

Definition resolveTsPaths (request : string) (parent : option Parent)
    (nextResolve : SimpleResolve) : Eff Tsconfig.State string :=
  request ← lift (supportFileProtocol request);
  if aliasApplies request parent then
    possiblePaths ← possiblePathsFor request parent;
    match firstResolved nextResolve possiblePaths with
    | Some resolved => mret resolved
    | None => lift (nextResolve request)
    end
  else lift (nextResolve request).

(** The host's resolver and the arguments passed through to it. *)
Context {HostArg : Type}.
Definition HostResolve : Type :=
  string → option Parent → list HostArg → Exc string.

(** [Boolean(namespace || (parent?.filename
    && tsExtensionsPattern.test(parent.filename)))] *)
Definition isTsParent (namespace : option string) (parent : option Parent)
  : bool :=
  match namespace with
  | Some (String _ _) => true
  | _ =>
      match parentFilename parent with
      | Some (String c f) => tsExtensionsPattern (String c f)
      | _ => false
      end
  end.

(** The layered chain of lines 123-140. *)
Definition layeredResolve (nextResolve : HostResolve)
    (namespace : option string) (parent : option Parent)
    (restOfArgs : list HostArg) : SimpleResolve :=
  let nextResolveSimple : SimpleResolve :=
    λ request_, nextResolve request_ parent restOfArgs in
  let nextResolveSimple :=
    createTsExtensionResolver nextResolveSimple (isTsParent namespace parent) in
  createImplicitResolver nextResolveSimple.

(** [createResolveFilename(state, nextResolve, namespace)], applied to
    [(request, parent, ...restOfArgs)]; [enabled] is [state.enabled]. *)
Definition createResolveFilename (enabled : bool) (nextResolve : HostResolve)
    (namespace : option string) (request : string) (parent : option Parent)
    (restOfArgs : list HostArg) : Eff Tsconfig.State string :=
  if negb enabled then lift (nextResolve request parent restOfArgs)
  else
    let request := interopCjsExports request in
    let '(cleanRequest, searchParams, appendQuery) :=
      preserveQuery request parent in
    if negb (bool_decide (searchParamsGet searchParams "namespace" = namespace))
    then lift (nextResolve request parent restOfArgs)
    else
      resolved ← resolveTsPaths cleanRequest parent
                   (layeredResolve nextResolve namespace parent restOfArgs);
      mret (appendQuery resolved (length restOfArgs)).

End Resolve.

End ResolveFilename.


(** ** The resolver's helpers, from the specification

    [index.ts] imports its helpers from modules that are not among the
    sources; the definitions below follow the specification's sections 4.3
    and 4.4 and its glossary. *)

Module SpecModel.

(** Modelled from the spec: [preserveQuery] of [./preserve-query] is
    missing; "split [specifier] into [(cleanSpecifier, queryString)]", the
    query string being what starts at the first [?]. *)
Fixpoint splitQuery (request : string) : string * string :=
  match request with
  | EmptyString => (EmptyString, EmptyString)
  | String c rest =>
      if Ascii.eqb c "?"%char then (EmptyString, request)
      else let '(clean, query) := splitQuery rest in (String c clean, query)
  end.

(** Modelled from the spec: the lookup of a tag in the held query string
    ([URLSearchParams.get]) is missing; the query is read as [?k=v&k=v]. *)
Definition queryParam (query key : string) : option string :=
  let pairs := Str.splitOn "&"%char (Str.drop 1 query) in
  let value (pair : string) : option string :=
    match Str.splitOn "="%char pair with
    | k :: vs => if String.eqb k key then Some (Str.joinWith "=" vs) else None
    | [] => None
    end in
  list_find (λ v, is_Some v) (value <$> pairs) ≫= snd.

(** Modelled from the spec: [preserveQuery] is missing; "resolve
    [cleanSpecifier]; reattach [queryString] to the result". *)
Definition preserveQuery (request : string) (parent : option Parent)
  : string * string * (string → nat → string) :=
  let '(clean, query) := splitQuery request in
  (clean, query, λ resolved _, resolved +:+ query).

(** Modelled from the spec: the rewriting of [createTsExtensionResolver]
    ([./resolve-ts-extensions]) is missing; "a request ending in [.js]/[.jsx]"
    and "the corresponding [.ts]/[.tsx] sibling". *)
Definition tsSibling (request : string) : option string :=
  if Str.endsWith request ".js" then
    Some (Str.slice request 0 (String.length request - 3) +:+ ".ts")
  else if Str.endsWith request ".jsx" then
    Some (Str.slice request 0 (String.length request - 4) +:+ ".tsx")
  else None.

(** Modelled from the spec: [createTsExtensionResolver] is missing; when
    active it "rewrites a request ending in [.js]/[.jsx] to first try the
    corresponding [.ts]/[.tsx] sibling before falling back to the literal
    request". *)
Definition createTsExtensionResolver (nextResolve : SimpleResolve)
    (isTsParent : bool) : SimpleResolve :=
  λ request,
    if isTsParent then
      match tsSibling request with
      | Some sibling =>
          match nextResolve sibling with
          | Ok resolved => Ok resolved
          | Throw _ => nextResolve request
          end
      | None => nextResolve request
      end
    else nextResolve request.

(** Modelled from the spec: the probes of [createImplicitResolver]
    ([./resolve-implicit-extensions]) are missing; "[.ts], [.tsx],
    [.mts]/[.cts] depending on module-system context, then [index.*] within
    a directory of the same name", here for the synchronous module
    system. *)
Definition implicitProbes (request : string) : list string :=
  [request +:+ ".ts"; request +:+ ".tsx"; request +:+ ".cts";
   request +:+ "/index.ts"; request +:+ "/index.tsx"; request +:+ "/index.cts"].

(** Modelled from the spec: [createImplicitResolver] is missing; it
    "catches a not-found failure from its inner resolver and only then tries
    its own candidates, re-throwing the original failure if none succeed". *)
Definition createImplicitResolver (nextResolve : SimpleResolve) : SimpleResolve :=
  λ request,
    match nextResolve request with
    | Ok resolved => Ok resolved
    | Throw e =>
        match list_find (λ r, isOk r = true) (nextResolve <$> implicitProbes request) with
        | Some (_, Ok resolved) => Ok resolved
        | _ => Throw e
        end
    end.

End SpecModel.

(** Modelled from the spec: [utils/path-utils] is missing; a bare specifier
    "is neither relative ([./], [../]) nor absolute nor a URL", a
    dependency-installation directory is [node_modules], a statically-typed
    extension one of [.ts], [.tsx], [.mts], [.cts].  [fileURLToPath] is
    Node's, for a URL without host and without escapes;
    [interopCjsExports], of which the specification says no more than
    "normalize interop edge cases", leaves a request as it is. *)
Definition specParts : ResolverParts :=
  {| isFilePath request :=
       Str.startsWith request "./" || Str.startsWith request "../"
       || Str.startsWith request "/";
     fileUrlPrefix := "file://";
     nodeModulesPath := "/node_modules/";
     tsExtensionsPattern filename :=
       existsb (Str.endsWith filename) [".ts"; ".tsx"; ".mts"; ".cts"];
     fileURLToPath request := Ok (Str.drop 7 request);
     interopCjsExports request := request;
     URLSearchParams := string;
     searchParamsGet := SpecModel.queryParam;
     preserveQuery := SpecModel.preserveQuery;
     createTsExtensionResolver := SpecModel.createTsExtensionResolver;
     createImplicitResolver := SpecModel.createImplicitResolver |}.


(** ** [magic-string]

    The part of the package the transformer uses: [new MagicString(code)],
    [update], [toString] and the fields [file], [sources] and
    [sourcesContent] of [generateMap]'s result.  A string under edition is a
    sequence of chunks that covers the original text; nothing here sets a
    chunk's [intro] or [outro], so they are left out. *)

Module MagicString.

Record Chunk := {
  chunkStart : nat;
  chunkEnd : nat;
  content : string;
  edited : bool;
}.

Record t := {
  original : string;
  chunks : list Chunk;
}.

(** [new MagicString(code)] *)
Definition create (code : string) : t :=
  {| original := code;
     chunks := [{| chunkStart := 0; chunkEnd := String.length code;
                   content := code; edited := false |}] |}.

(** [chunk.split(index)] *)
Definition splitChunk (orig : string) (c : Chunk) (index : nat) : list Chunk :=
  if edited c then
    [{| chunkStart := chunkStart c; chunkEnd := index;
        content := ""; edited := true |};
     {| chunkStart := index; chunkEnd := chunkEnd c;
        content := ""; edited := true |}]
  else
    [{| chunkStart := chunkStart c; chunkEnd := index;
        content := Str.slice orig (chunkStart c) index; edited := false |};
     {| chunkStart := index; chunkEnd := chunkEnd c;
        content := Str.slice orig index (chunkEnd c); edited := false |}].

(** [_split(index)]: nothing to do at a chunk boundary; a chunk that has
    been edited to a non-empty content cannot be split. *)
Fixpoint split (orig : string) (index : nat) (cs : list Chunk)
  : Exc (list Chunk) :=
  match cs with
  | [] => Ok []
  | c :: rest =>
      if (chunkStart c <? index)%nat && (index <? chunkEnd c)%nat then
        if edited c && negb (Str.isEmpty (content c)) then
          Throw (ErrorObj "Cannot split a chunk that has already been edited")
        else Ok (splitChunk orig c index ++ rest)
      else rest' ← split orig index rest; Ok (c :: rest')
  end.

(** The chunks from [byStart[start]] to [byEnd[end]]: the first one takes
    the new content, the following ones are emptied. *)
Fixpoint editRange (start end_ : nat) (new : string) (cs : list Chunk)
  : list Chunk :=
  match cs with
  | [] => []
  | c :: rest =>
      (if (chunkStart c =? start)%nat then
         {| chunkStart := chunkStart c; chunkEnd := chunkEnd c;
            content := new; edited := true |}
       else if (start <? chunkStart c)%nat && (chunkEnd c <=? end_)%nat then
         {| chunkStart := chunkStart c; chunkEnd := chunkEnd c;
            content := ""; edited := true |}
       else c) :: editRange start end_ new rest
  end.

(** [s.update(start, end, content)] for [start <= end], as the transformer
    calls it (the end of a match follows its start). *)
Definition update (s : t) (start end_ : nat) (new : string) : Exc t :=
  if (String.length (original s) <? end_)%nat then
    Throw (ErrorObj "end is out of bounds")
  else if (start =? end_)%nat then
    Throw (ErrorObj "Cannot overwrite a zero-length range")
  else
    cs ← split (original s) start (chunks s);
    cs ← split (original s) end_ cs;
    Ok {| original := original s; chunks := editRange start end_ new cs |}.

(** [s.toString()] *)
Definition toString (s : t) : string :=
  foldr (λ c acc, content c +:+ acc) "" (chunks s).

(** [s.split(/[/\\]/)] *)
Definition isSeparator (c : ascii) : bool :=
  Ascii.eqb c "/"%char || Ascii.eqb c "092"%char.

Fixpoint splitPath (s : string) : list string :=
  match s with
  | EmptyString => [EmptyString]
  | String c s' =>
      if isSeparator c then EmptyString :: splitPath s'
      else match splitPath s' with
           | part :: parts => String c part :: parts
           | [] => [String c EmptyString]
           end
  end.

(** The loop [while (fromParts[0] === toParts[0])] of [getRelativePath],
    which shifts both arrays: what is left of them when it ends.  It does
    not end when both arrays run out together, both [fromParts[0]] and
    [toParts[0]] being [undefined] from then on: [None]. *)
Fixpoint dropCommon (fromParts toParts : list string)
  : option (list string * list string) :=
  match fromParts, toParts with
  | f :: fromParts', t :: toParts' =>
      if String.eqb f t then dropCommon fromParts' toParts'
      else Some (fromParts, toParts)
  | [], [] => None
  | _, _ => Some (fromParts, toParts)
  end.

(** [getRelativePath(from, to)]; [None] when it does not return. *)
Definition getRelativePath (from to : string) : option string :=
  '(fromParts, toParts) ← dropCommon (removelast (splitPath from)) (splitPath to);
  Some (Str.joinWith "/" (((λ _, "..") <$> fromParts) ++ toParts)).

(** [s.generateMap({ source, file, includeContent: true })], without its
    [names] and [mappings]; [file] is [None] when it is [undefined].  The
    result is [None] when [getRelativePath] does not return. *)
Record SourceMap := {
  file : option string;
  sources : list string;
  sourcesContent : list string;
}.

Definition generateMap (s : t) (source file : string) : option SourceMap :=
  relative ← (if Str.isEmpty source then Some file
              else getRelativePath file source);
  Some {| file := if Str.isEmpty file then None else last (splitPath file);
          sources := [relative];
          sourcesContent := [original s] |}.

(** *** Notions the properties are stated with *)

(** A replacement: the range from [editStart] to [editEnd] of the original
    text, and the text put in its place. *)
Record Edit := { editStart : nat; editEnd : nat; editText : string }.

(** The chunk of the original text between [a] and [b], if any. *)
Definition piece (orig : string) (a b : nat) : list Chunk :=
  if (a <? b)%nat then
    [{| chunkStart := a; chunkEnd := b; content := Str.slice orig a b;
        edited := false |}]
  else [].

Definition editedChunk (e : Edit) : Chunk :=
  {| chunkStart := editStart e; chunkEnd := editEnd e; content := editText e;
     edited := true |}.

(** The chunks of a text in which the replacements [edits], taken in the
    order of their positions, have been made, from position [from] on. *)
Fixpoint chunksOf (orig : string) (from : nat) (edits : list Edit) : list Chunk :=
  match edits with
  | [] => piece orig from (String.length orig)
  | e :: rest =>
      piece orig from (editStart e)
      ++ editedChunk e :: chunksOf orig (editEnd e) rest
  end.

(** The text in which the replacements [edits], taken in the order of their
    positions, are made and everything else is as in [orig], from position
    [from] on. *)
Fixpoint rendered (orig : string) (from : nat) (edits : list Edit) : string :=
  match edits with
  | [] => Str.drop from orig
  | e :: rest =>
      Str.slice orig from (editStart e) +:+ editText e
      +:+ rendered orig (editEnd e) rest
  end.

(** Two ranges that do not overlap, and a list of ranges no two of which
    overlap. *)
Definition apart (e1 e2 : Edit) : bool :=
  (editEnd e1 <=? editStart e2)%nat || (editEnd e2 <=? editStart e1)%nat.

Fixpoint disjointRanges (es : list Edit) : bool :=
  match es with
  | [] => true
  | e :: rest => forallb (apart e) rest && disjointRanges rest
  end.

(** Replacements put in the order of their positions. *)
Fixpoint insertEdit (e : Edit) (edits : list Edit) : list Edit :=
  match edits with
  | [] => [e]
  | e' :: rest =>
      if (editEnd e <=? editStart e')%nat then e :: edits
      else e' :: insertEdit e rest
  end.

Definition sortEdits (es : list Edit) : list Edit :=
  foldl (λ sorted e, insertEdit e sorted) [] es.

(** Replacements in the order of their positions from [from] to the end of
    a text of length [len], none of them empty. *)
Fixpoint ordered (from len : nat) (edits : list Edit) : Prop :=
  match edits with
  | [] => from ≤ len
  | e :: rest =>
      from ≤ editStart e ∧ editStart e < editEnd e
      ∧ ordered (editEnd e) len rest
  end.

(** Replacements that [update] can make in any order: no two overlap, none
    is empty, none reaches beyond the text. *)
Definition applicable (code : string) (es : list Edit) : Prop :=
  disjointRanges es = true
  ∧ Forall (λ e, editStart e < editEnd e ∧ editEnd e ≤ String.length code) es.

(** The three steps of [update] on the chunks. *)
Definition applyEdit (orig : string) (e : Edit) (cs : list Chunk)
  : Exc (list Chunk) :=
  cs ← split orig (editStart e) cs;
  cs ← split orig (editEnd e) cs;
  Ok (editRange (editStart e) (editEnd e) (editText e) cs).

End MagicString.


(** ** [src/utils/transform/const-enum-transformer.ts] *)

(** The value of a [Literal] node: a number, a string, a boolean or [null]
    (the values of BigInt and regular-expression literals are not
    represented).  What an expression evaluates to, and so the value of an
    enum member, is an [option JSValue], [None] being [undefined] (objects,
    functions, symbols and BigInt values are not represented). *)
Inductive JSValue :=
  | VNum (n : float)
  | VStr (s : string)
  | VBool (b : bool)
  | VNull.

(** The JavaScript engine. *)
Class JSRuntime := {
  (** [new Function(`return ${exp}`)()] *)
  evaluate : string → Exc (option JSValue);
  (** [Number.prototype.toString] on a finite number *)
  numberToString : float → string;
  (** [JSON.parse(text)] *)
  jsonParse : string → Exc JSValue;
  (** [pattern = new RegExp(source, 'g')], which may throw, and the results
      [(match.index, match[0])] of the successive [pattern.exec(code)], up
      to the first [null] or to the first empty match, after which [exec]
      finds the same match again. *)
  regExpExecAll : string → string → Exc (list (nat * string));
}.

(** The syntax tree of oxc-parser, as far as the transformer reads it. *)
Inductive Expression :=
  | Literal (value : JSValue)
  | BinaryExpression (left : Expression) (operator : string) (right : Expression)
  | UnaryExpression (operator : string) (argument : Expression)
  | MemberExpression (start end_ : nat)
  | OtherExpression (type : string).

(** [e.id] of an enum member *)
Inductive MemberName :=
  | NameIdentifier (name : string)
  | NameLiteral (value : JSValue)
  | NameOther.

Record TSEnumMember := {
  memberId : MemberName;
  initializer : option Expression;
}.

Record TSEnumDeclaration := {
  isConst : bool;
  enumName : string;
  enumMembers : list TSEnumMember;
}.

Inductive Declaration :=
  | TSEnumDecl (decl : TSEnumDeclaration)
  | OtherDeclaration.

(** [specifier.imported] *)
Inductive ModuleExportName :=
  | ExportIdentifier (name : string)
  | ExportStringLiteral (value : string).

Inductive ImportSpecifierNode :=
  | ImportNamespaceSpecifier (local : string)
  | ImportSpecifier (imported : ModuleExportName) (local : string)
  | ImportDefaultSpecifier (local : string).

(** An element of [program.body] *)
Inductive Statement :=
  | ImportDeclaration (source : string) (specifiers : list ImportSpecifierNode)
  | ExportNamedDeclaration (declaration : option Declaration)
  | OtherStatement.

(** The oxc-parser package: [parseSync(filePath, code, { lang, astType })]
    gives [program.body], or throws. *)
Class OxcParser := {
  parseSync : string → string → string → string → Exc (list Statement);
}.

(** A monadic left fold: a [for ... of] loop whose body may throw. *)
Fixpoint foldM {M : Type → Type} `{!MBind M, !MRet M} {A B : Type}
    (f : A → B → M A) (a : A) (l : list B) : M A :=
  match l with
  | [] => mret a
  | b :: l' => a' ← f a b; foldM f a' l'
  end.

Module ConstEnum.

(** [interface EnumMember], [EnumDeclaration] and [EnumData].  A value is
    what [saveValue] is given, [undefined] included; a define is what
    [JSON.stringify] returns, which is [undefined] ([None]) for
    [undefined]. *)
Record EnumMember := { name : string; value : option JSValue }.

Record EnumDeclaration := { id : string; members : list EnumMember }.

Abbreviation Defines := (gmap string (option string)).

Record EnumData := {
  declarations : list EnumDeclaration;
  defines : Defines;
}.

(** [constEnumCache] *)
Abbreviation Cache := (gmap string EnumData).

Definition constEnumCacheSet (filePath : string) (data : EnumData) : Eff Cache unit :=
  modifyStore (λ c : Cache, <[filePath := data]> c).

(** [REGEX_DTS.test(filename)]: the name holds [.d.ts], [.d.cts] or [.d.mts]
    at its end or before a [?] that no line break follows; [dtsTail] reads
    what comes after [.d.]. *)
Definition dtsTail (s : string) : bool :=
  let s :=
    match s with
    | String c s' =>
        if Ascii.eqb c "c"%char || Ascii.eqb c "m"%char then s' else s
    | EmptyString => s
    end in
  String.prefix "ts" s
  && match Str.drop 2 s with
     | EmptyString => true
     | String c q => Ascii.eqb c "?"%char && Str.noLineTerminator q
     end.

Fixpoint isDts (filename : string) : bool :=
  (String.prefix ".d." filename && dtsTail (Str.drop 3 filename))
  || match filename with
     | String _ rest => isDts rest
     | EmptyString => false
     end.

(** [s.replace(/^\./, '')] *)
Definition stripLeadingDot (s : string) : string :=
  match s with
  | String c s' => if Ascii.eqb c "."%char then s' else s
  | EmptyString => s
  end.

(** [s.replace(/\?.*$/, '')] *)
Fixpoint stripQuery (s : string) : string :=
  match s with
  | EmptyString => EmptyString
  | String c s' =>
      if Ascii.eqb c "?"%char && Str.noLineTerminator s' then EmptyString
      else String c (stripQuery s')
  end.

Definition getLang (filename : string) : string :=
  if isDts filename then "dts"
  else stripQuery (stripLeadingDot (Path.extname filename)).

(** [isTs(lang)]; [REGEX_LANG_TS] is [/^[cm]?tsx?$/]. *)
Definition isTs (lang : string) : bool :=
  negb (Str.isEmpty lang)
  && (String.eqb lang "dts"
      || bool_decide (lang ∈ ["ts"; "tsx"; "cts"; "ctsx"; "mts"; "mtsx"])).

(** [/\.[cm]?[jt]sx?$/.test(filePath)] *)
Definition isSourcePath (filePath : string) : bool :=
  existsb (Str.endsWith filePath)
    [".js"; ".jsx"; ".ts"; ".tsx"; ".cjs"; ".cjsx"; ".cts"; ".ctsx";
     ".mjs"; ".mjsx"; ".mts"; ".mtsx"].

Definition dquote : string := String "034"%char EmptyString.
Definition backslash : string := String "092"%char EmptyString.

Definition hexDigit (n : nat) : string :=
  String.substring n 1 "0123456789abcdef".

(** One character of a string under [JSON.stringify]. *)
Definition quoteChar (c : ascii) : string :=
  let n := nat_of_ascii c in
  if (n =? 34)%nat then backslash +:+ dquote
  else if (n =? 92)%nat then backslash +:+ backslash
  else if (n =? 8)%nat then backslash +:+ "b"
  else if (n =? 12)%nat then backslash +:+ "f"
  else if (n =? 10)%nat then backslash +:+ "n"
  else if (n =? 13)%nat then backslash +:+ "r"
  else if (n =? 9)%nat then backslash +:+ "t"
  else if (n <? 32)%nat then
    backslash +:+ "u00" +:+ hexDigit (n / 16) +:+ hexDigit (n mod 16)
  else String c EmptyString.

Fixpoint quoteChars (s : string) : string :=
  match s with
  | EmptyString => EmptyString
  | String c s' => quoteChar c +:+ quoteChars s'
  end.

Section Runtime.
Context `{JSRuntime}.

(** [JSON.stringify(value)] *)
Definition jsonStringify (v : option JSValue) : option string :=
  match v with
  | Some (VNum n) =>
      Some (if PrimFloat.is_finite n then numberToString n else "null")
  | Some (VStr s) => Some (dquote +:+ quoteChars s +:+ dquote)
  | Some (VBool true) => Some "true"
  | Some (VBool false) => Some "false"
  | Some VNull => Some "null"
  | None => None
  end.

(** [String(x)] for [x] a string or [undefined]: what a template literal
    and [JSON.parse] make of it. *)
Definition stringOrUndefined (x : option string) : string :=
  default "undefined" x.

(** [String(value)], the conversion of a template literal *)
Definition toStr (v : JSValue) : string :=
  match v with
  | VNum n =>
      if PrimFloat.is_nan n then "NaN"
      else if PrimFloat.is_infinity n then
        (if PrimFloat.ltb n 0 then "-Infinity" else "Infinity")
      else numberToString n
  | VStr s => s
  | VBool true => "true"
  | VBool false => "false"
  | VNull => "null"
  end.

End Runtime.

(** [node.type] *)
Definition nodeType (e : Expression) : string :=
  match e with
  | Literal _ => "Literal"
  | BinaryExpression _ _ _ => "BinaryExpression"
  | UnaryExpression _ _ => "UnaryExpression"
  | MemberExpression _ _ => "MemberExpression"
  | OtherExpression type => type
  end.

Section Extraction.
Context `{FileSystem} `{JSRuntime} `{OxcParser}.

(** The state of the loop over [decl.body.members]: [lastInitialized]
    ([None] for [undefined]), [members], and the file's [defines]. *)
Record MemberLoop := {
  lastInitialized : option JSValue;
  membersAcc : list EnumMember;
  definesAcc : Defines;
}.

(** [resolveValue(node)], lines 149-161 *)
Definition resolveValue (content : string) (defs : Defines)
    (node : Expression) : Exc JSValue :=
  match node with
  | Literal literal => Ok literal
  | MemberExpression start end_ =>
      let exp := Str.slice content start end_ in
      match defs !! exp with
      | None => Throw (ErrorObj ("Unresolved enum reference: " +:+ exp))
      | Some json => jsonParse (stringOrUndefined json)
      end
  | _ => Throw (ErrorObj ("Unsupported operand type: " +:+ nodeType node))
  end.

(** The [switch (init.type)] of lines 141-184 *)
Definition initializerValue (content : string) (defs : Defines)
    (init : Expression) : Exc (option JSValue) :=
  match init with
  | Literal literal => Ok (Some literal)
  | BinaryExpression initLeft operator initRight =>
      leftValue ← resolveValue content defs initLeft;
      rightValue ← resolveValue content defs initRight;
      evaluate (toStr leftValue +:+ operator +:+ toStr rightValue)
  | UnaryExpression operator argument =>
      match argument with
      | Literal literal => evaluate (operator +:+ toStr literal)
      | _ => Throw (ErrorObj ("Unsupported unary argument type: "
                              +:+ nodeType argument))
      end
  | _ => Throw (ErrorObj ("Unsupported initializer type: " +:+ nodeType init))
  end.

(** [key], lines 125-126 *)
Definition memberKey (e : TSEnumMember) : string :=
  match memberId e with
  | NameIdentifier n => n
  | NameLiteral v => toStr v
  | NameOther => ""
  end.

(** [saveValue(value)] after [lastInitialized] has been assigned *)
Definition saveValue (fullKey key : string) (st : MemberLoop)
    (v : option JSValue) : MemberLoop :=
  {| lastInitialized := v;
     membersAcc := membersAcc st ++ [{| name := key; value := v |}];
     definesAcc := <[fullKey := jsonStringify v]> (definesAcc st) |}.

(** The body of the loop over the members, lines 124-199 *)
Definition memberStep (content id : string) (st : MemberLoop)
    (e : TSEnumMember) : Exc MemberLoop :=
  let key := memberKey e in
  let fullKey := id +:+ "." +:+ key in
  match initializer e with
  | Some init =>
      v ← initializerValue content (definesAcc st) init;
      Ok (saveValue fullKey key st v)
  | None =>
      match lastInitialized st with
      | None => Ok (saveValue fullKey key st (Some (VNum 0)))
      | Some (VNum n) => Ok (saveValue fullKey key st (Some (VNum (n + 1))))
      | Some other =>
          Throw (TypeErrorObj ("Cannot auto-increment non-numeric enum value: "
                               +:+ toStr other))
      end
  end.

(** The members of one declaration, from the file's [defines] so far *)
Definition enumMembersOf (content : string) (defs : Defines)
    (decl : TSEnumDeclaration) : Exc MemberLoop :=
  foldM (memberStep content (enumName decl))
    {| lastInitialized := None; membersAcc := []; definesAcc := defs |}
    (enumMembers decl).

(** The body of the loop over [ast.body], lines 110-206 *)
Definition statementStep (content : string)
    (acc : list EnumDeclaration * Defines) (node : Statement)
  : Exc (list EnumDeclaration * Defines) :=
  match node with
  | ExportNamedDeclaration (Some (TSEnumDecl decl)) =>
      if isConst decl then
        r ← enumMembersOf content acc.2 decl;
        Ok (acc.1 ++ [{| id := enumName decl; members := membersAcc r |}],
            definesAcc r)
      else Ok acc
  | _ => Ok acc
  end.

Definition emptyEnumData : EnumData := {| declarations := []; defines := ∅ |}.

(** Lines 84-213, the block under [try] *)
Definition parseBody (filePath : string) : Eff Cache EnumData :=
  if negb (existsSync filePath) then
    constEnumCacheSet filePath emptyEnumData;; mret emptyEnumData
  else
    content ← lift (readFileSync filePath);
    let lang := getLang filePath in
    if negb (isTs lang) then
      constEnumCacheSet filePath emptyEnumData;; mret emptyEnumData
    else
      body ← lift (parseSync filePath content
                     (if String.eqb lang "dts" then "ts" else lang)
                     (if isTs lang then "ts" else "js"));
      r ← lift (foldM (statementStep content) ([], ∅) body);
      let enumData := {| declarations := r.1; defines := r.2 |} in
      constEnumCacheSet filePath enumData;; mret enumData.

Definition parseConstEnumsFromAST (filePath : string) : Eff Cache EnumData :=
  cache ← getStore;
  match (cache : Cache) !! filePath with
  | Some cached => mret cached
  | None =>
      try_catch (parseBody filePath)
        (λ _, constEnumCacheSet filePath emptyEnumData;; mret emptyEnumData)
  end.

(** *** Notions the properties are stated with *)

(** The entry a cache miss computes for a file. *)
Definition extractEntry (filePath : string) : EnumData :=
  match (parseConstEnumsFromAST filePath ∅).1 with
  | Ok data => data
  | Throw _ => emptyEnumData
  end.

(** The cache holds only what the extraction itself stores, the files being
    what they are now. *)
Definition cacheConsistent (cache : Cache) : Prop :=
  ∀ filePath data, cache !! filePath = Some data → data = extractEntry filePath.

(** An initializer the [switch] has no case for. *)
Definition unsupportedShape (init : Expression) : Prop :=
  match init with
  | Literal _ | BinaryExpression _ _ _ | UnaryExpression _ _ => False
  | MemberExpression _ _ | OtherExpression _ => True
  end.



(** The state in which the loop over the members of a declaration starts,
    the file's [defines] so far being [defs]. *)
Definition membersStart (defs : Defines) : MemberLoop :=
  {| lastInitialized := None; membersAcc := []; definesAcc := defs |}.

(** The members of a declaration at which the extraction stops when it
    gets there, [defs] being the file's [defines] before the declaration:
    a member with an initializer of unsupported shape, or a member without
    initializer that comes after a member whose value is neither a number
    nor [undefined]. *)
Inductive AbortsExtraction (content id : string) (defs : Defines)
    (ms : list TSEnumMember) : Prop :=
  | AbortsUnsupported before e after init :
      ms = before ++ e :: after →
      initializer e = Some init → unsupportedShape init →
      AbortsExtraction content id defs ms
  | AbortsNonNumeric before e after :
      ms = before ++ e :: after →
      initializer e = None →
      (∀ st, foldM (memberStep content id) (membersStart defs) before = Ok st →
         ∃ v, value <$> last (membersAcc st) = Some (Some v)
              ∧ ∀ n, v ≠ VNum n) →
      AbortsExtraction content id defs ms.

(** [lastInitialized] is the value of the last member saved. *)
Definition tracksLast (st : MemberLoop) : Prop :=
  lastInitialized st = last (membersAcc st) ≫= value.

(** The rule of auto-increment at position [k] of the extracted members:
    [0] at the first position; at a later one the previous member's number
    plus one, or [0] when the previous member's value is [undefined]. *)
Definition incrementedAt (ms : list EnumMember) (k : nat) : Prop :=
  match k with
  | O => value <$> ms !! 0 = Some (Some (VNum 0))
  | S j => (∃ n, value <$> ms !! j = Some (Some (VNum n))
                 ∧ value <$> ms !! k = Some (Some (VNum (n + 1))))
           ∨ (value <$> ms !! j = Some None
              ∧ value <$> ms !! k = Some (Some (VNum 0)))
  end.

(** A member without initializer, or with a number as initializer. *)
Definition plainNumeric (e : TSEnumMember) : Prop :=
  initializer e = None ∨ ∃ n, initializer e = Some (Literal (VNum n)).




(** The declaration a statement contributes to the extraction: that of an
    exported const enum (the test of lines 112-117). *)
Definition exportedConstEnumOf (node : Statement) : option TSEnumDeclaration :=
  match node with
  | ExportNamedDeclaration (Some (TSEnumDecl decl)) =>
      if isConst decl then Some decl else None
  | _ => None
  end.

Definition exportedConstEnums (body : list Statement) : list TSEnumDeclaration :=
  omap exportedConstEnumOf body.

(** An extracted declaration has the name of the declaration it comes from,
    and its members their keys, in order. *)
Definition extractedFrom (d : EnumDeclaration) (decl : TSEnumDeclaration) : Prop :=
  id d = enumName decl ∧ name <$> members d = memberKey <$> enumMembers decl.

(** An extracted declaration has the values of the declaration it comes
    from: its name and the keys of its members in order, the value of a
    literal initializer at a member that has one, and the value the rule of
    auto-increment gives at a member without initializer. *)
Definition extractedByRule (d : EnumDeclaration) (decl : TSEnumDeclaration)
  : Prop :=
  extractedFrom d decl
  ∧ (∀ i e v, enumMembers decl !! i = Some e →
       initializer e = Some (Literal v) →
       value <$> members d !! i = Some (Some v))
  ∧ (∀ i e, enumMembers decl !! i = Some e → initializer e = None →
       incrementedAt (members d) i).

(** The [defines] that [saveValue] builds for the members of extracted
    declarations, taken in order: [Enum.member] is mapped to
    [JSON.stringify(value)], a later member overriding an earlier one of the
    same key. *)
Definition insertAll (defs : Defines)
    (entries : list (string * option string)) : Defines :=
  foldl (λ defs (entry : string * option string), <[entry.1 := entry.2]> defs)
    defs entries.

Definition entriesOf (id : string) (ms : list EnumMember)
  : list (string * option string) :=
  (λ m, (id +:+ "." +:+ name m, jsonStringify (value m))) <$> ms.

Definition definesOf (ds : list EnumDeclaration) : Defines :=
  insertAll ∅ (ds ≫= λ d, entriesOf (id d) (members d)).

(** [later] keeps every entry of [earlier] as it is, and every file that has
    an entry in [later] only satisfies [P]. *)
Definition extendsCache (P : string → Prop) (earlier later : Cache) : Prop :=
  (∀ filePath data,
     earlier !! filePath = Some data → later !! filePath = Some data)
  ∧ (∀ filePath,
       earlier !! filePath = None → is_Some (later !! filePath) → P filePath).

End Extraction.

(** *** Whole-word search

    [new RegExp(`\\b${a}\\.${b}\\b`, 'g')] and the [while] loop over
    [pattern.exec(code)].  The names are put into the pattern as they are.
    When they are made of word characters the pattern means what it looks
    like, the text [a.b] between two word boundaries, and [matchIndices]
    gives the indices of its successive matches; a pattern with any other
    name is left to the engine ([regExpExecAll]). *)

Definition isWord (c : option ascii) : bool :=
  match c with
  | Some c => Str.isWordChar c
  | None => false
  end.

(** [\b] between two neighbours, [None] outside the string *)
Definition wordBoundary (before after : option ascii) : bool :=
  xorb (isWord before) (isWord after).

(** Does the pattern match at the start of [s], which follows [before]? *)
Definition matchesAt (text : string) (before : option ascii) (s : string)
  : bool :=
  wordBoundary before (String.get 0 s)
  && String.prefix text s
  && wordBoundary
       (match String.length text with
        | O => before
        | S n => String.get n text
        end)
       (String.get (String.length text) s).

(** The indices of the successive matches: [exec] resumes at the end of
    the previous match ([skip] characters ahead). *)
Fixpoint execAll (text : string) (before : option ascii) (s : string)
    (index skip : nat) : list nat :=
  match s with
  | EmptyString => []
  | String c s' =>
      if (skip =? 0)%nat && matchesAt text before s then
        index :: execAll text (Some c) s' (S index) (String.length text - 1)
      else execAll text (Some c) s' (S index) (skip - 1)
  end.

Definition matchIndices (text code : string) : list nat :=
  execAll text None code 0 0.

(** The character before position [k] of [s], which follows [before]. *)
Definition charBefore (before : option ascii) (s : string) (k : nat)
  : option ascii :=
  match k with
  | O => before
  | S j => String.get j s
  end.

(** The text starts and ends with a word character, as a reference between
    two identifiers does. *)
Definition wordEnds (text : string) : bool :=
  isWord (String.get 0 text)
  && isWord (String.get (String.length text - 1) text).

(** The source of the pattern made of [names] ([alias], [decl.id] and
    [member.name], or [localName] and [member.name]), and the text it
    stands for when the names are plain. *)
Definition patternSource (names : list string) : string :=
  "\b" +:+ Str.joinWith "\." names +:+ "\b".

Definition patternText (names : list string) : string :=
  Str.joinWith "." names.

(** Names made of word characters, with a text that is not empty (as it is
    for two names or more). *)
Definition plainNames (names : list string) : bool :=
  forallb Str.wordOnly names && negb (Str.isEmpty (patternText names)).

Section Transform.
Context `{FileSystem} `{JSRuntime} `{OxcParser}.

(** [resolveEnumPath(importPath, currentFile)] *)
Definition resolveEnumPath (importPath currentFile : string) : list string :=
  let currentDir := Path.dirname currentFile in
  let resolvedPath := Path.resolve cwd currentDir importPath in
  let candidates :=
    [resolvedPath +:+ ".d.ts"; resolvedPath +:+ ".ts";
     resolvedPath +:+ "/index.d.ts"; resolvedPath +:+ "/index.ts"]
    ++ (if Str.endsWith resolvedPath ".js" then
          let withoutJs :=
            Str.slice resolvedPath 0 (String.length resolvedPath - 3) in
          [withoutJs +:+ ".d.ts"; withoutJs +:+ ".ts"]
        else []) in
  filter (λ candidate, existsSync candidate = true) candidates.

(** [s] and [transformed] *)
Definition Rewriting : Type := MagicString.t * bool.

(** [(match.index, match[0])] for the successive matches of the pattern
    made of [names] *)
Definition patternMatches (names : list string) (code : string)
  : Exc (list (nat * string)) :=
  if plainNames names then
    Ok ((λ index, (index, patternText names))
          <$> matchIndices (patternText names) code)
  else regExpExecAll (patternSource names) code.

(** The text a match is replaced with,
    [`${JSON.stringify(member.value)} /* ${match[0]} */`] *)
Definition replacementFor (v : option JSValue) (matched : string) : string :=
  stringOrUndefined (jsonStringify v) +:+ " /* " +:+ matched +:+ " */".

(** [new RegExp(...)] and the [while ((match = pattern.exec(code)) !== null)]
    loop for one member *)
Definition rewriteMatches (code : string) (names : list string)
    (v : option JSValue) (acc : Rewriting) : Exc Rewriting :=
  found ← patternMatches names code;
  foldM
    (λ (acc : Rewriting) (m : nat * string),
       s ← MagicString.update acc.1 m.1 (m.1 + String.length m.2)
              (replacementFor v m.2);
       Ok (s, true))
    acc found.

(** [for (const member of ...members)], the patterns being made of the
    names of [qualifier] and of [member.name] *)
Definition rewriteMembers (code : string) (qualifier : list string)
    (ms : list EnumMember) (acc : Rewriting) : Exc Rewriting :=
  foldM
    (λ acc member,
       rewriteMatches code (qualifier ++ [name member]) (value member) acc)
    acc ms.

(** The body of [for (const specifier of node.specifiers)] *)
Definition specifierStep (code : string) (enumData : EnumData)
    (acc : Rewriting) (specifier : ImportSpecifierNode) : Exc Rewriting :=
  match specifier with
  | ImportNamespaceSpecifier alias =>
      foldM
        (λ acc decl, rewriteMembers code [alias; id decl] (members decl) acc)
        acc (declarations enumData)
  | ImportSpecifier imported localName =>
      let importedName :=
        match imported with
        | ExportIdentifier n => n
        | ExportStringLiteral v => v
        end in
      match List.find (λ d, String.eqb (id d) importedName)
              (declarations enumData) with
      | Some enumDecl => rewriteMembers code [localName] (members enumDecl) acc
      | None => Ok acc
      end
  | ImportDefaultSpecifier _ => Ok acc
  end.

(** The body of [for (const enumFile of enumFiles)]; [allDefines], which is
    written and never read, is left out. *)
Definition enumFileStep (code : string) (specifiers : list ImportSpecifierNode)
    (acc : Rewriting) (enumFile : string) : Eff Cache Rewriting :=
  enumData ← parseConstEnumsFromAST enumFile;
  lift (foldM (specifierStep code enumData) acc specifiers).

(** The body of [for (const node of ast.body)] *)
Definition nodeStep (filePath code : string) (acc : Rewriting)
    (node : Statement) : Eff Cache Rewriting :=
  match node with
  | ImportDeclaration importPath specifiers =>
      foldM (enumFileStep code specifiers) acc
        (resolveEnumPath importPath filePath)
  | _ => mret acc
  end.

Record TransformResult := {
  code : string;
  map : MagicString.SourceMap;
}.

(** Lines 287-383, the block under [try].  [generateMap] returns for every
    [filePath], the file being its base name
    ([SourceMapFacts.generateMap_returns]), so the last case is never
    taken. *)
Definition transformBody (filePath code : string)
  : Eff Cache (option TransformResult) :=
  let s := MagicString.create code in
  let lang := getLang filePath in
  body ← lift (parseSync filePath code
                 (if String.eqb lang "dts" then "ts" else lang)
                 (if isTs lang then "ts" else "js"));
  r ← foldM (nodeStep filePath code) (s, false) body;
  if negb r.2 then mret None
  else
    match MagicString.generateMap r.1 filePath (Path.basename filePath) with
    | Some map => mret (Some {| code := MagicString.toString r.1; map := map |})
    | None => mret None
    end.

Definition transformConstEnum (filePath code : string)
  : Eff Cache (option TransformResult) :=
  if negb (isSourcePath filePath) then mret None
  else if negb (Str.includes code "import ") then mret None
  else try_catch (transformBody filePath code) (λ _, mret None).

(** *** Notions the properties are stated with *)

(** The names of the patterns of one specifier. *)
Definition referencesOf (enumData : EnumData) (specifier : ImportSpecifierNode)
  : list (list string) :=
  match specifier with
  | ImportNamespaceSpecifier alias =>
      declarations enumData ≫= λ decl,
        (λ member, [alias; id decl] ++ [name member]) <$> members decl
  | ImportSpecifier imported localName =>
      let importedName :=
        match imported with
        | ExportIdentifier n => n
        | ExportStringLiteral v => v
        end in
      match List.find (λ d, String.eqb (id d) importedName)
              (declarations enumData) with
      | Some enumDecl =>
          (λ member, [localName] ++ [name member]) <$> members enumDecl
      | None => []
      end
  | ImportDefaultSpecifier _ => []
  end.

(** The qualified references to members of the const enums a program
    imports, each as the names of its pattern: for every import statement,
    every declaring file it resolves to and every specifier. *)
Definition importedReferences (filePath : string) (body : list Statement)
  : list (list string) :=
  body ≫= λ node,
    match node with
    | ImportDeclaration importPath specifiers =>
        resolveEnumPath importPath filePath ≫= λ enumFile,
          specifiers ≫= referencesOf (extractEntry enumFile)
    | _ => []
    end.

(** The replacements of the whole-word occurrences of one reference. *)
Definition editsFor (code : string) (names : list string) (v : option JSValue)
  : list MagicString.Edit :=
  (λ start, {| MagicString.editStart := start;
               MagicString.editEnd := start + String.length (patternText names);
               MagicString.editText := replacementFor v (patternText names) |})
    <$> matchIndices (patternText names) code.

Definition editsOfMembers (code : string) (qualifier : list string)
    (ms : list EnumMember) : list MagicString.Edit :=
  ms ≫= λ member, editsFor code (qualifier ++ [name member]) (value member).

Definition editsOfSpecifier (code : string) (enumData : EnumData)
    (specifier : ImportSpecifierNode) : list MagicString.Edit :=
  match specifier with
  | ImportNamespaceSpecifier alias =>
      declarations enumData ≫= λ decl,
        editsOfMembers code [alias; id decl] (members decl)
  | ImportSpecifier imported localName =>
      let importedName :=
        match imported with
        | ExportIdentifier n => n
        | ExportStringLiteral v => v
        end in
      match List.find (λ d, String.eqb (id d) importedName)
              (declarations enumData) with
      | Some enumDecl => editsOfMembers code [localName] (members enumDecl)
      | None => []
      end
  | ImportDefaultSpecifier _ => []
  end.

(** The replacements a pass makes when the names of its patterns are plain,
    in the order of its loops: for every import statement, every declaring
    file it resolves to, every specifier, every member and every match. *)
Definition editsOf (filePath code : string) (body : list Statement)
  : list MagicString.Edit :=
  body ≫= λ node,
    match node with
    | ImportDeclaration importPath specifiers =>
        resolveEnumPath importPath filePath ≫= λ enumFile,
          specifiers ≫= editsOfSpecifier code (extractEntry enumFile)
    | _ => []
    end.

(** [s] and [transformed] once the replacements [done] have been made. *)
Definition rewritten (code : string) (done : list MagicString.Edit) : Rewriting :=
  ({| MagicString.original := code;
      MagicString.chunks :=
        MagicString.chunksOf code 0 (MagicString.sortEdits done) |},
   match done with [] => false | _ => true end).

(** What every candidate of [resolveEnumPath] that is kept is: a file that
    exists, with a name that ends in [.ts]. *)
Definition declaringFile (f : string) : Prop :=
  existsSync f = true ∧ Str.endsWith f ".ts" = true.

End Transform.

End ConstEnum.


(** ** Example worlds

    Concrete file systems and libraries on which the properties are
    exercised.  [exactAliases] is a stand-in for get-tsconfig that knows
    exact-match aliases only. *)

Module Scenario.

Definition assoc {A} (key : string) (table : list (string * A)) : option A :=
  snd <$> List.find (λ e, String.eqb e.1 key) table.

(** The file system that holds the listed files, and nothing else. *)
Definition fileSystemOf (files : list (string * string)) : FileSystem :=
  {| accessSync p :=
       match assoc p files with
       | Some _ => Ok tt
       | None => Throw (HostError "ENOENT")
       end;
     existsSync p := bool_decide (is_Some (assoc p files));
     readFileSync p :=
       match assoc p files with
       | Some text => Ok text
       | None => Throw (HostError "ENOENT")
       end;
     cwd := "/ws" |}.

Record AliasConfig := {
  aliases : option (list (string * list string));
  aliasAllowJs : option bool;
}.

Definition exactAliases (configs : list (string * AliasConfig)) : GetTsconfig :=
  {| TsConfigJson := AliasConfig;
     compilerOptionsAllowJs := aliasAllowJs;
     parseTsconfig p :=
       match assoc p configs with
       | Some c => Ok c
       | None => Throw (HostError "parseTsconfig")
       end;
     createPathsMatcher _ c :=
       Ok ((λ table specifier, default [] (assoc specifier table)) <$> aliases c) |}.

(** A workspace [/ws] (package A) with a nested package [/ws/packages/b]
    (package B), each with its own aliases; an application under [/srv]
    whose only [tsconfig.json] is the one of the root directory; and a
    directory [/bad] whose [tsconfig.json] cannot be parsed. *)
Definition configA : AliasConfig :=
  {| aliases := Some [("@a/util", ["/ws/src/util"])]; aliasAllowJs := None |}.
Definition configB : AliasConfig :=
  {| aliases := Some [("@b/util", ["/ws/packages/b/src/util"])];
     aliasAllowJs := Some true |}.
Definition configRoot : AliasConfig :=
  {| aliases := Some [("@root/x", ["/x"])]; aliasAllowJs := None |}.

Definition workspaceFiles : list (string * string) :=
  [("/tsconfig.json", "{}"); ("/ws/tsconfig.json", "{}");
   ("/ws/packages/b/tsconfig.json", "{}"); ("/bad/tsconfig.json", "{");
   ("/ws/packages/b/src/main.ts", ""); ("/srv/app/main.ts", "")].

Definition workspaceFS : FileSystem := fileSystemOf workspaceFiles.

Definition workspaceConfigs : GetTsconfig :=
  exactAliases
    [("/tsconfig.json", configRoot); ("/ws/tsconfig.json", configA);
     ("/ws/packages/b/tsconfig.json", configB)].

(** The stores at start-up, without and with a global matcher (package
    A's). *)
Definition freshState : Tsconfig.State :=
  {| Tsconfig.tsconfigCache := ∅; Tsconfig.tsconfigPathsMatcher := None |}.

Definition matcherA : PathsMatcher :=
  λ specifier, default [] (assoc specifier [("@a/util", ["/ws/src/util"])]).

Definition stateWithA : Tsconfig.State :=
  {| Tsconfig.tsconfigCache := ∅;
     Tsconfig.tsconfigPathsMatcher := Some matcherA |}.

(** A resolver that knows the listed requests, and throws on any other. *)
Definition resolverOf (table : list (string * string)) : SimpleResolve :=
  λ request,
    match assoc request table with
    | Some resolved => Ok resolved
    | None => Throw (HostError "MODULE_NOT_FOUND")
    end.

Definition hostOf (table : list (string * string))
  : string → option Parent → list unit → Exc string :=
  λ request _ _, resolverOf table request.

Definition parentFile (f : string) : option Parent :=
  Some {| filename := Some f |}.

(** A file of package B, and a file of a dependency installed in the
    workspace. *)
Definition nestedParent : option Parent :=
  parentFile "/ws/packages/b/src/main.ts".
Definition dependencyParent : option Parent :=
  parentFile "/ws/node_modules/dep/index.js".

(** What the host resolves in the workspace. *)
Definition workspaceModules : list (string * string) :=
  [("/ws/src/util", "/ws/src/util.ts");
   ("/ws/packages/b/src/util", "/ws/packages/b/src/util.ts");
   ("/ws/node_modules/dep/lib.js", "/ws/node_modules/dep/lib.js");
   ("./mod", "/ws/packages/b/src/mod.js");
   ("./mod.js", "/ws/packages/b/src/mod.js");
   ("./mod.ts", "/ws/packages/b/src/mod.ts")].

(** A runtime that prints the integers a binary64 number represents
    exactly, and evaluates and parses nothing. *)
Definition exactInteger (f : float) : option Z :=
  match Prim2SF f with
  | S754_zero _ => Some 0%Z
  | S754_finite negative m e =>
      let magnitude :=
        if (0 <=? e)%Z then Some (Z.pos m * 2 ^ e)%Z
        else if (Z.pos m mod 2 ^ (- e) =? 0)%Z then Some (Z.pos m / 2 ^ (- e))%Z
        else None in
      (λ z, if negative then (- z)%Z else z) <$> magnitude
  | _ => None
  end.

Definition integerRuntime : JSRuntime :=
  {| evaluate _ := Throw (HostError "evaluate");
     numberToString f :=
       match exactInteger f with
       | Some z => DecimalString.NilEmpty.string_of_int (Z.to_int z)
       | None => "?"
       end;
     jsonParse _ := Throw (HostError "JSON.parse");
     regExpExecAll _ _ := Throw (HostError "RegExp") |}.

(** A parser that knows the listed texts. *)
Definition parserOf (table : list (string * list Statement)) : OxcParser :=
  {| parseSync _ code _ _ :=
       match assoc code table with
       | Some body => Ok body
       | None => Throw (HostError "SyntaxError")
       end |}.

Definition uninitialized (n : string) : TSEnumMember :=
  {| memberId := NameIdentifier n; initializer := None |}.
Definition initialized (n : string) (init : Expression) : TSEnumMember :=
  {| memberId := NameIdentifier n; initializer := Some init |}.
Definition exportedConstEnum (n : string) (ms : list TSEnumMember) : Statement :=
  ExportNamedDeclaration
    (Some (TSEnumDecl {| isConst := true; enumName := n; enumMembers := ms |})).

(** [export const enum Color { Red, Green = 5, Blue }] *)
Definition colorDecl : TSEnumDeclaration :=
  {| isConst := true; enumName := "Color";
     enumMembers := [uninitialized "Red"; initialized "Green" (Literal (VNum 5));
                     uninitialized "Blue"] |}.

Definition colorSource : string :=
  "export const enum Color { Red, Green = 5, Blue }".
Definition goodSource : string := "export const enum Good { A }".
Definition mixedSource : string :=
  "export const enum Good { A }; export const enum Bad { X = f() }".
Definition namesSource : string :=
  "export const enum Good { A }; export const enum Name { First = 'a', Second }".
Definition mainSource : string :=
  "import { Color } from './color'; const x = Color.Red;".
Definition mainOnce : string :=
  "import { Color } from './color'; const x = 0 /* Color.Red */;".
Definition mainTwice : string :=
  "import { Color } from './color'; const x = 0 /* 0 /* Color.Red */ */;".
Definition plainSource : string :=
  "import { Color } from './color'; const x = 1;".

(** What the extraction gives for [colorSource]. *)
Definition colorEntry : ConstEnum.EnumData :=
  {| ConstEnum.declarations :=
       [{| ConstEnum.id := "Color";
           ConstEnum.members :=
             [{| ConstEnum.name := "Red"; ConstEnum.value := Some (VNum 0) |};
              {| ConstEnum.name := "Green"; ConstEnum.value := Some (VNum 5) |};
              {| ConstEnum.name := "Blue"; ConstEnum.value := Some (VNum 6) |}] |}];
     ConstEnum.defines :=
       <["Color.Blue" := Some "6"]>
         (<["Color.Green" := Some "5"]> (<["Color.Red" := Some "0"]> ∅)) |}.

Definition importColor : Statement :=
  ImportDeclaration "./color" [ImportSpecifier (ExportIdentifier "Color") "Color"].

Definition enumFiles : list (string * string) :=
  [("/ws/src/color.ts", colorSource); ("/ws/src/good.ts", goodSource);
   ("/ws/src/mixed.ts", mixedSource); ("/ws/src/names.ts", namesSource);
   ("/ws/src/main.ts", mainSource); ("/ws/src/broken.ts", "const enum {")].

Definition enumFS : FileSystem := fileSystemOf enumFiles.

Definition enumParser : OxcParser :=
  parserOf
    [(colorSource, [ExportNamedDeclaration (Some (TSEnumDecl colorDecl))]);
     (goodSource, [exportedConstEnum "Good" [uninitialized "A"]]);
     (mixedSource,
      [exportedConstEnum "Good" [uninitialized "A"];
       exportedConstEnum "Bad" [initialized "X" (OtherExpression "CallExpression")]]);
     (namesSource,
      [exportedConstEnum "Good" [uninitialized "A"];
       exportedConstEnum "Name"
         [initialized "First" (Literal (VStr "a")); uninitialized "Second"]]);
     (mainSource, [importColor; OtherStatement]);
     (mainOnce, [importColor; OtherStatement]);
     (plainSource, [importColor; OtherStatement])].

(** A file that refers to several members of [Color]. *)
Definition paletteSource : string :=
  "import { Color } from './color'; const p = [Color.Blue, Color.Red, Color.Blue];".
Definition paletteRewritten : string :=
  "import { Color } from './color'; const p = [6 /* Color.Blue */, 0 /* Color.Red */, 6 /* Color.Blue */];".

Definition paletteFS : FileSystem :=
  fileSystemOf [("/ws/src/color.ts", colorSource);
                ("/ws/src/palette.ts", paletteSource)].

Definition paletteParser : OxcParser :=
  parserOf
    [(colorSource, [ExportNamedDeclaration (Some (TSEnumDecl colorDecl))]);
     (paletteSource, [importColor; OtherStatement])].

(** A runtime that also evaluates [void 0] and [!0], and two files whose
    enums have such initializers. *)
Definition unaryRuntime : JSRuntime :=
  {| evaluate exp :=
       if String.eqb exp "void 0" then Ok None
       else if String.eqb exp "!0" then Ok (Some (VBool true))
       else Throw (HostError "evaluate");
     numberToString := @numberToString integerRuntime;
     jsonParse _ := Throw (HostError "JSON.parse");
     regExpExecAll _ _ := Throw (HostError "RegExp") |}.

Definition voidSource : string := "export const enum V { A = void ' 0', B }".
Definition flagSource : string :=
  "export const enum Good { A }; export const enum F { A = !0, B }".

Definition voidDecl : TSEnumDeclaration :=
  {| isConst := true; enumName := "V";
     enumMembers :=
       [initialized "A" (UnaryExpression "void" (Literal (VStr " 0")));
        uninitialized "B"] |}.

Definition flagDecl : TSEnumDeclaration :=
  {| isConst := true; enumName := "F";
     enumMembers :=
       [initialized "A" (UnaryExpression "!" (Literal (VNum 0)));
        uninitialized "B"] |}.

Definition unaryFS : FileSystem :=
  fileSystemOf [("/ws/src/void.ts", voidSource); ("/ws/src/flag.ts", flagSource)].

Definition unaryParser : OxcParser :=
  parserOf
    [(voidSource, [ExportNamedDeclaration (Some (TSEnumDecl voidDecl))]);
     (flagSource,
      [exportedConstEnum "Good" [uninitialized "A"];
       ExportNamedDeclaration (Some (TSEnumDecl flagDecl))])].

(** A file system without files and a get-tsconfig without configuration
    files. *)
Definition emptyFS : FileSystem := fileSystemOf [].
Definition noConfigs : GetTsconfig := exactAliases [].

(** The rest of get-tsconfig in the workspace: from the working directory
    [/ws] the configuration of package A is found. *)
Definition workspaceLoader : @GetTsconfigLoader workspaceConfigs :=
  {| FileMatcher := string;
     getTsconfig :=
       Ok (Some ("/ws/tsconfig.json", configA : @TsConfigJson workspaceConfigs));
     createFilesMatcher path _ := Ok path |}.

(** The bindings at start-up. *)
Definition freshBindings : @TsconfigLoad.Bindings workspaceConfigs workspaceLoader :=
  {| TsconfigLoad.fileMatcher := None; TsconfigLoad.allowJs := false;
     TsconfigLoad.resolver := freshState |}.

End Scenario.


(** * Properties *)

(** ** Paths *)

Module PathFacts.
Import Path.

Lemma substring_prefix_length (s : string) (e : nat) :
  e ≤ String.length s → String.length (String.substring 0 e s) = e.
Proof.
  revert e. induction s as [|c s IH]; intros [|e] He; simpl in *; try lia.
  rewrite IH; lia.
Qed.

Lemma dirnameScan_bounds (l : list ascii) (i : nat) (ms : bool) (e : nat) :
  dirnameScan l i ms = Some e → 1 ≤ e ≤ i ∧ (ms = true → e < i).
Proof.
  revert i ms. induction l as [|c l IH]; intros [|i] ms; simpl; try discriminate.
  destruct (Str.isSlash c).
  - destruct ms.
    + intros Hs. apply IH in Hs as [? Hlt]. split; [lia|]. intros _.
      specialize (Hlt eq_refl). lia.
    + intros [= <-]. split; [lia|discriminate].
  - intros Hs. apply IH in Hs as [? _]. split; [lia|intros _; lia].
Qed.

(** [dirname] yields one of the two directories that are their own parent,
    or a shorter path. *)
Lemma dirname_shrinks (p : string) :
  dirname p = "." ∨ dirname p = "/"
  ∨ String.length (dirname p) < String.length p.
Proof.
  unfold dirname. destruct (Str.isEmpty p) eqn:Hempty; [by left|].
  destruct (dirnameScan _ _ _) as [e|] eqn:Hscan.
  - apply dirnameScan_bounds in Hscan as [He Hlt]. specialize (Hlt eq_refl).
    right; right.
    destruct (Str.startsWith p "/" && (e =? 1)%nat) eqn:Hroot.
    + simpl. lia.
    + unfold Str.slice. rewrite Nat.sub_0_r, substring_prefix_length; lia.
  - destruct (Str.startsWith p "/"); auto.
Qed.

Lemma dirname_dot : dirname "." = ".".
Proof. reflexivity. Qed.

Lemma dirname_slash : dirname "/" = "/".
Proof. reflexivity. Qed.

Example dirname_nested : dirname "/ws/pkg/src/a.ts" = "/ws/pkg/src".
Proof. reflexivity. Qed.
Example dirname_top : dirname "/a.ts" = "/".
Proof. reflexivity. Qed.
Example dirname_relative : dirname "a.ts" = ".".
Proof. reflexivity. Qed.
Example dirname_double : dirname "//x" = "//" ∧ dirname "//" = "/".
Proof. split; reflexivity. Qed.
Example join_config : join "/ws/pkg" "tsconfig.json" = "/ws/pkg/tsconfig.json".
Proof. reflexivity. Qed.
Example join_root : join "/" "tsconfig.json" = "/tsconfig.json".
Proof. reflexivity. Qed.
Example join_dots : join "/ws/pkg/.." "tsconfig.json" = "/ws/tsconfig.json".
Proof. reflexivity. Qed.
Example resolve_relative : resolve "/cwd" "/ws/src" "./color" = "/ws/src/color".
Proof. reflexivity. Qed.
Example resolve_parent : resolve "/cwd" "/ws/src" "../lib/e.js" = "/ws/lib/e.js".
Proof. reflexivity. Qed.
Example resolve_cwd : resolve "/cwd" "src" "./color" = "/cwd/src/color".
Proof. reflexivity. Qed.
Example extname_cases :
  extname "/ws/a.d.ts" = ".ts" ∧ extname "/ws/.profile" = ""
  ∧ extname "/ws/a." = "." ∧ extname "/ws.x/a" = "" ∧ extname ".." = "".
Proof. repeat split; reflexivity. Qed.
Example basename_file : basename "/ws/src/main.ts" = "main.ts".
Proof. reflexivity. Qed.

End PathFacts.


(** ** The dynamic config resolver *)

Module TsconfigFacts.
Import Tsconfig.

Section Facts.
Context `{FileSystem} `{GetTsconfig}.

(** The loop stops by its own test: beyond [length dir + 2] iterations,
    more fuel changes nothing. *)
Lemma searchUp_fuel (n m : nat) (dir : string) :
  String.length dir + 2 ≤ n → String.length dir + 2 ≤ m →
  searchUp n dir = searchUp m dir.
Proof.
  revert m dir. induction n as [|n IH]; intros [|m] dir Hn Hm; try lia.
  simpl. destruct (String.eqb dir (Path.dirname dir)); [done|].
  destruct (isOk _); [done|].
  destruct (PathFacts.dirname_shrinks dir) as [-> | [-> | Hlt]].
  - destruct n, m; try lia. reflexivity.
  - destruct n, m; try lia. reflexivity.
  - apply IH; lia.
Qed.

Lemma ancestorsFrom_fuel (n m : nat) (dir : string) :
  String.length dir + 2 ≤ n → String.length dir + 2 ≤ m →
  ancestorsFrom n dir = ancestorsFrom m dir.
Proof.
  revert m dir. induction n as [|n IH]; intros [|m] dir Hn Hm; try lia.
  simpl. destruct (String.eqb dir (Path.dirname dir)); [done|]. f_equal.
  destruct (PathFacts.dirname_shrinks dir) as [-> | [-> | Hlt]].
  - destruct n, m; try lia. reflexivity.
  - destruct n, m; try lia. reflexivity.
  - apply IH; lia.
Qed.

Lemma findTsconfig_unfold (dir : string) :
  findTsconfig dir =
    if String.eqb dir (Path.dirname dir) then None
    else if hasConfig dir then Some (Path.join dir "tsconfig.json")
    else findTsconfig (Path.dirname dir).
Proof.
  unfold findTsconfig, hasConfig.
  replace (String.length dir + 2) with (S (String.length dir + 1)) by lia.
  simpl. destruct (String.eqb dir (Path.dirname dir)); [done|].
  destruct (isOk _); [done|].
  destruct (PathFacts.dirname_shrinks dir) as [Hd | [Hd | Hlt]].
  - rewrite Hd. destruct (String.length dir + 1) eqn:E; [lia|]. reflexivity.
  - rewrite Hd. destruct (String.length dir + 1) eqn:E; [lia|]. reflexivity.
  - apply searchUp_fuel; lia.
Qed.

Lemma probedDirs_unfold (dir : string) :
  probedDirs dir =
    if String.eqb dir (Path.dirname dir) then []
    else dir :: probedDirs (Path.dirname dir).
Proof.
  unfold probedDirs.
  replace (String.length dir + 2) with (S (String.length dir + 1)) by lia.
  simpl. destruct (String.eqb dir (Path.dirname dir)); [done|]. f_equal.
  destruct (PathFacts.dirname_shrinks dir) as [Hd | [Hd | Hlt]].
  - rewrite Hd. destruct (String.length dir + 1) eqn:E; [lia|]. reflexivity.
  - rewrite Hd. destruct (String.length dir + 1) eqn:E; [lia|]. reflexivity.
  - apply ancestorsFrom_fuel; lia.
Qed.

Lemma ancestorsFrom_not_root (n : nat) (dir d : string) :
  d ∈ ancestorsFrom n dir → d ≠ Path.dirname d.
Proof.
  revert dir. induction n as [|n IH]; intros dir; simpl; [by intros ?%elem_of_nil|].
  destruct (String.eqb_spec dir (Path.dirname dir)); [by intros ?%elem_of_nil|].
  intros [->|Hin]%elem_of_cons; [done|]. by eapply IH.
Qed.

(** The loop probes the directories of [ancestorsFrom] in order and
    returns the first configuration file it can access. *)
Lemma searchUp_first (n : nat) (dir : string) :
  searchUp n dir =
    (λ d, Path.join d "tsconfig.json") <$> List.find hasConfig (ancestorsFrom n dir).
Proof.
  revert dir. induction n as [|n IH]; intros dir; simpl; [done|].
  destruct (String.eqb dir (Path.dirname dir)); [done|]. simpl.
  unfold hasConfig at 1. destruct (isOk _); [done|]. apply IH.
Qed.

Lemma findTsconfig_split (searchDir nearest : string) (below above : list string) :
  probedDirs searchDir = below ++ nearest :: above →
  (∀ d, d ∈ below → hasConfig d = false) →
  hasConfig nearest = true →
  findTsconfig searchDir = Some (Path.join nearest "tsconfig.json").
Proof.
  intros Hsplit Hbelow Hnearest. unfold findTsconfig. rewrite searchUp_first.
  fold (probedDirs searchDir). rewrite Hsplit. clear Hsplit.
  induction below as [|d below IH]; simpl.
  - by rewrite Hnearest.
  - rewrite (Hbelow d) by set_solver. apply IH. intros; apply Hbelow; set_solver.
Qed.

Lemma findTsconfig_none (searchDir : string) :
  (∀ d, d ∈ probedDirs searchDir → hasConfig d = false) →
  findTsconfig searchDir = None.
Proof.
  intros Hall. unfold findTsconfig. rewrite searchUp_first.
  fold (probedDirs searchDir). induction (probedDirs searchDir) as [|d l IH]; [done|].
  simpl. rewrite (Hall d) by set_solver. apply IH. intros; apply Hall; set_solver.
Qed.

(** The store after [tsconfigCache.set(dir, v)] *)
Lemma tsconfigCacheSet_store (dir : string) (v : option CacheEntry) (st : State) :
  tsconfigCacheSet dir v st =
    (Ok tt, {| tsconfigCache := <[dir := v]> (tsconfigCache st);
               tsconfigPathsMatcher := tsconfigPathsMatcher st |}).
Proof. reflexivity. Qed.

(** A call that misses the cache stores what the nearest configuration
    file gives and answers from it. *)
Lemma dynamicPathsMatcher_miss (specifier fromFile : string) (st : State) :
  fromFile ≠ "" →
  tsconfigCache st !! Path.dirname fromFile = None →
  dynamicPathsMatcher specifier (Some fromFile) st =
    let entry := findTsconfig (Path.dirname fromFile) ≫= entryOf in
    (Ok (match entry with Some e => paths e specifier | None => [] end),
     {| tsconfigCache := <[Path.dirname fromFile := entry]> (tsconfigCache st);
        tsconfigPathsMatcher := tsconfigPathsMatcher st |}).
Proof.
  intros Hne Hmiss. destruct fromFile as [|c f]; [done|].
  unfold dynamicPathsMatcher, mbind, eff_bind, getStore. rewrite Hmiss.
  destruct (findTsconfig _) as [tsconfigPath|]; simpl; [|done].
  unfold try_catch, entryOf, mbind, eff_bind, lift.
  destruct (parseTsconfig tsconfigPath) as [parsed|e]; simpl; [|done].
  destruct (createPathsMatcher tsconfigPath parsed) as [[matcher|]|e]; done.
Qed.

Lemma dynamicPathsMatcher_hit (specifier fromFile : string) (st : State)
    (entry : option CacheEntry) :
  fromFile ≠ "" →
  tsconfigCache st !! Path.dirname fromFile = Some entry →
  dynamicPathsMatcher specifier (Some fromFile) st =
    (Ok (match entry with Some e => paths e specifier | None => [] end), st).
Proof.
  intros Hne Hhit. destruct fromFile as [|c f]; [done|].
  unfold dynamicPathsMatcher, mbind, eff_bind, getStore. rewrite Hhit.
  by destruct entry.
Qed.

Lemma dynamicPathsMatcher_no_file (specifier : string) (fromFile : option string)
    (st : State) :
  fromFile = None ∨ fromFile = Some "" →
  dynamicPathsMatcher specifier fromFile st =
    (Ok (match tsconfigPathsMatcher st with
         | Some matcher => matcher specifier
         | None => []
         end), st).
Proof. by intros [-> | ->]. Qed.

Lemma consistent_empty (matcher : option PathsMatcher) :
  consistent {| tsconfigCache := ∅; tsconfigPathsMatcher := matcher |}.
Proof. intros dir v. simpl. by rewrite lookup_empty. Qed.

(** Every call keeps the cache consistent. *)
Lemma dynamicPathsMatcher_consistent (specifier : string)
    (fromFile : option string) (st : State) :
  consistent st → consistent (dynamicPathsMatcher specifier fromFile st).2.
Proof.
  intros Hst.
  destruct fromFile as [[|c f]|];
    [by rewrite dynamicPathsMatcher_no_file by auto| |
     by rewrite dynamicPathsMatcher_no_file by auto].
  destruct (tsconfigCache st !! Path.dirname (String c f)) as [entry|] eqn:Hc.
  - by erewrite dynamicPathsMatcher_hit.
  - rewrite dynamicPathsMatcher_miss by done. intros dir v. simpl.
    destruct (decide (Path.dirname (String c f) = dir)) as [<-|Hne].
    + rewrite lookup_insert_eq. by intros [= <-].
    + rewrite lookup_insert_ne by done. apply Hst.
Qed.

(** C3.  A request from a file inside a nested package is answered from
    the nearest [tsconfig.json] above the file only: when [nearest] is the
    first probed directory that has one, with its own paths matcher, the
    candidates are that matcher's, whatever directories lie above it
    ([above], where an enclosing package is) and whatever they configure;
    this holds from any cache that earlier calls have filled, and the cache
    stays so. *)
Theorem nearest_config_only (specifier fromFile nearest : string)
    (below above : list string) (parsed : TsConfigJson) (matcher : PathsMatcher)
    (st : State) :
  consistent st →
  fromFile ≠ "" →
  probedDirs (Path.dirname fromFile) = below ++ nearest :: above →
  Forall (λ d, hasConfig d = false) below →
  hasConfig nearest = true →
  parseTsconfig (Path.join nearest "tsconfig.json") = Ok parsed →
  createPathsMatcher (Path.join nearest "tsconfig.json") parsed
    = Ok (Some matcher) →
  (dynamicPathsMatcher specifier (Some fromFile) st).1 = Ok (matcher specifier)
  ∧ consistent (dynamicPathsMatcher specifier (Some fromFile) st).2.
Proof.
  intros Hst Hne Hsplit Hbelow Hnearest Hparse Hmatcher.
  split; [|by apply dynamicPathsMatcher_consistent].
  assert (findTsconfig (Path.dirname fromFile) ≫= entryOf
          = Some {| paths := matcher;
                    allowJs := default false (compilerOptionsAllowJs parsed) |})
    as Hentry.
  { erewrite findTsconfig_split; [|done| |done].
    - simpl. unfold entryOf. by rewrite Hparse, Hmatcher.
    - by apply Forall_forall. }
  destruct (tsconfigCache st !! Path.dirname fromFile) as [entry|] eqn:Hc.
  - erewrite dynamicPathsMatcher_hit by done.
    apply Hst in Hc. rewrite Hentry in Hc. by subst entry.
  - rewrite dynamicPathsMatcher_miss by done. simpl. by rewrite Hentry.
Qed.


End Facts.

End TsconfigFacts.


(** ** The dynamic config resolver on the example workspace *)

Module TsconfigExamples.
Import Tsconfig Scenario TsconfigFacts.

#[local] Existing Instance workspaceFS.
#[local] Existing Instance workspaceConfigs.

Example probedDirs_nested :
  probedDirs "/ws/packages/b/src" =
    ["/ws/packages/b/src"; "/ws/packages/b"; "/ws/packages"; "/ws"].
Proof. reflexivity. Qed.

Example findTsconfig_nested :
  findTsconfig "/ws/packages/b/src" = Some "/ws/packages/b/tsconfig.json".
Proof. reflexivity. Qed.

(** A request for package A's alias from inside package B gets no
    candidate from the dynamic resolver, while B's own alias resolves. *)
Lemma nearest_config_only_witness :
  hasConfig "/ws" = true
  ∧ (dynamicPathsMatcher "@a/util" (Some "/ws/packages/b/src/main.ts")
       freshState).1 = Ok []
  ∧ (dynamicPathsMatcher "@b/util" (Some "/ws/packages/b/src/main.ts")
       freshState).1 = Ok ["/ws/packages/b/src/util"].
Proof.
  split; [reflexivity|].
  split.
  - apply (@nearest_config_only workspaceFS workspaceConfigs "@a/util" "/ws/packages/b/src/main.ts"
             "/ws/packages/b" ["/ws/packages/b/src"] ["/ws/packages"; "/ws"]
             configB
             (λ specifier, default []
                (assoc specifier [("@b/util", ["/ws/packages/b/src/util"])]))
             freshState);
      [apply consistent_empty | done | reflexivity | by repeat constructor
      | reflexivity | reflexivity | reflexivity].
  - apply (@nearest_config_only workspaceFS workspaceConfigs "@b/util" "/ws/packages/b/src/main.ts"
             "/ws/packages/b" ["/ws/packages/b/src"] ["/ws/packages"; "/ws"]
             configB
             (λ specifier, default []
                (assoc specifier [("@b/util", ["/ws/packages/b/src/util"])]))
             freshState);
      [apply consistent_empty | done | reflexivity | by repeat constructor
      | reflexivity | reflexivity | reflexivity].
Defined.


End TsconfigExamples.


(** ** The resolution coordinator *)

Module ResolveFilenameFacts.
Import ResolveFilename.

Section Facts.
Context `{FileSystem} `{GetTsconfig} `{ResolverParts}.

Lemma tsconfigCacheSet_keeps_matcher (dir : string) (v : option Tsconfig.CacheEntry)
    (st : Tsconfig.State) :
  Tsconfig.tsconfigPathsMatcher (Tsconfig.tsconfigCacheSet dir v st).2
  = Tsconfig.tsconfigPathsMatcher st.
Proof. reflexivity. Qed.

(** The dynamic matcher returns a list and leaves the global matcher as it
    is. *)
Lemma dynamicPathsMatcher_total (specifier : string) (fromFile : option string)
    (st : Tsconfig.State) :
  ∃ candidates st',
    Tsconfig.dynamicPathsMatcher specifier fromFile st = (Ok candidates, st')
    ∧ Tsconfig.tsconfigPathsMatcher st' = Tsconfig.tsconfigPathsMatcher st.
Proof.
  destruct fromFile as [[|c f]|];
    [rewrite TsconfigFacts.dynamicPathsMatcher_no_file by auto; eauto| |
     rewrite TsconfigFacts.dynamicPathsMatcher_no_file by auto; eauto].
  destruct (Tsconfig.tsconfigCache st !! Path.dirname (String c f))
    as [entry|] eqn:Hc.
  - erewrite TsconfigFacts.dynamicPathsMatcher_hit by done. eauto.
  - rewrite TsconfigFacts.dynamicPathsMatcher_miss by done. simpl. eauto.
Qed.

(** [possiblePaths] when the loop starts: the dynamic matcher's
    candidates, or the global matcher's when there are none. *)
Lemma possiblePathsFor_spec (request f : string) (parent : option Parent)
    (st : Tsconfig.State) :
  parentFilename parent = Some f → f ≠ "" →
  ∃ dynamic st',
    Tsconfig.dynamicPathsMatcher request (Some f) st = (Ok dynamic, st')
    ∧ possiblePathsFor request parent st =
        (Ok (match dynamic, Tsconfig.tsconfigPathsMatcher st with
             | [], Some matcher => matcher request
             | _, _ => dynamic
             end), st').
Proof.
  intros Hf Hne. destruct f as [|c f]; [done|].
  destruct (dynamicPathsMatcher_total request (Some (String c f)) st)
    as (dynamic & st' & Hdyn & Hsame).
  exists dynamic, st'. split; [done|].
  unfold possiblePathsFor. rewrite Hf.
  unfold mbind at 1, eff_bind, try_catch. rewrite Hdyn.
  unfold mbind, eff_bind, getStore. rewrite Hsame.
  by destruct dynamic, (Tsconfig.tsconfigPathsMatcher st).
Qed.

Lemma firstResolved_first (nextResolve : SimpleResolve)
    (tried rest : list string) (c resolved : string) :
  Forall (λ p, isOk (nextResolve p) = false) tried →
  nextResolve c = Ok resolved →
  firstResolved nextResolve (tried ++ c :: rest) = Some resolved.
Proof.
  intros Htried Hc. induction Htried as [|p tried Hp _ IH]; simpl.
  - by rewrite Hc.
  - destruct (nextResolve p); [discriminate|done].
Qed.

Lemma firstResolved_none (nextResolve : SimpleResolve) (paths : list string) :
  Forall (λ p, isOk (nextResolve p) = false) paths →
  firstResolved nextResolve paths = None.
Proof.
  induction 1 as [|p paths Hp _ IH]; simpl; [done|].
  destruct (nextResolve p); [discriminate|done].
Qed.

(** When the [if] of line 28 is not entered, nothing but [nextResolve] is
    called. *)
Lemma resolveTsPaths_skip (request : string) (parent : option Parent)
    (nextResolve : SimpleResolve) (st : Tsconfig.State) :
  (∀ r, supportFileProtocol request = Ok r → aliasApplies r parent = false) →
  resolveTsPaths request parent nextResolve st =
    (supportFileProtocol request ≫= nextResolve, st).
Proof.
  intros Hskip. unfold resolveTsPaths, mbind at 1, eff_bind, lift.
  destruct (supportFileProtocol request) as [r|e]; [|done].
  by rewrite (Hskip r).
Qed.

Lemma resolveTsPaths_aliases (request f : string) (parent : option Parent)
    (nextResolve : SimpleResolve) (st : Tsconfig.State) :
  parentFilename parent = Some f → f ≠ "" →
  Str.startsWith request fileUrlPrefix = false →
  isFilePath request = false →
  Str.includes f nodeModulesPath = false →
  ∃ dynamic st',
    Tsconfig.dynamicPathsMatcher request (Some f) st = (Ok dynamic, st')
    ∧ resolveTsPaths request parent nextResolve st =
        (match firstResolved nextResolve
                 (match dynamic, Tsconfig.tsconfigPathsMatcher st with
                  | [], Some matcher => matcher request
                  | _, _ => dynamic
                  end) with
         | Some resolved => Ok resolved
         | None => nextResolve request
         end, st').
Proof.
  intros Hf Hne Hurl Hbare Hdep.
  destruct (possiblePathsFor_spec request f parent st Hf Hne)
    as (dynamic & st' & Hdyn & Hpaths).
  exists dynamic, st'. split; [done|].
  unfold resolveTsPaths, supportFileProtocol. rewrite Hurl.
  unfold mbind at 1, eff_bind, lift.
  unfold aliasApplies. rewrite Hbare, Hf, Hdep. simpl.
  unfold mbind, eff_bind. rewrite Hpaths.
  by destruct (firstResolved _ _).
Qed.

Lemma createResolveFilename_enabled {HostArg : Type}
    (nextResolve : @HostResolve HostArg) (namespace : option string)
    (request clean : string) (parent : option Parent)
    (restOfArgs : list HostArg) (params : URLSearchParams)
    (appendQuery : string → nat → string) (st : Tsconfig.State) :
  preserveQuery (interopCjsExports request) parent = (clean, params, appendQuery) →
  searchParamsGet params "namespace" = namespace →
  createResolveFilename true nextResolve namespace request parent restOfArgs st =
    let r := resolveTsPaths clean parent
               (layeredResolve nextResolve namespace parent restOfArgs) st in
    (match r.1 with
     | Ok resolved => Ok (appendQuery resolved (length restOfArgs))
     | Throw e => Throw e
     end, r.2).
Proof.
  intros Hpq Hns. unfold createResolveFilename. simpl. rewrite Hpq.
  rewrite bool_decide_eq_true_2 by done. simpl.
  unfold mbind, eff_bind.
  by destruct (resolveTsPaths _ _ _ _) as [[resolved|e] st'].
Qed.

(** C5 (amended).  For a bare-specifier request whose requesting file is
    not inside a dependency directory, the coordinator asks the dynamic
    config resolver first, with the requesting file, and the global matcher
    only when the dynamic one gives no candidate; it resolves the
    candidates through the layered chain in order, returns the first
    success with the query re-attached, failures being dropped; and when no
    candidate succeeds it resolves the request itself through the same
    chain. *)
Theorem alias_candidates_in_order {HostArg : Type}
    (nextResolve : @HostResolve HostArg) (namespace : option string)
    (request clean f : string) (parent : option Parent)
    (restOfArgs : list HostArg) (params : URLSearchParams)
    (appendQuery : string → nat → string) (st : Tsconfig.State) :
  preserveQuery (interopCjsExports request) parent = (clean, params, appendQuery) →
  searchParamsGet params "namespace" = namespace →
  parentFilename parent = Some f → f ≠ "" →
  Str.startsWith clean fileUrlPrefix = false →
  isFilePath clean = false →
  Str.includes f nodeModulesPath = false →
  let chain := layeredResolve nextResolve namespace parent restOfArgs in
  let result :=
    (createResolveFilename true nextResolve namespace request parent
       restOfArgs st).1 in
  ∃ dynamic candidates,
    (Tsconfig.dynamicPathsMatcher clean (Some f) st).1 = Ok dynamic
    ∧ candidates =
        match dynamic, Tsconfig.tsconfigPathsMatcher st with
        | [], Some matcher => matcher clean
        | _, _ => dynamic
        end
    ∧ (∀ tried c rest resolved,
         candidates = tried ++ c :: rest →
         Forall (λ p, isOk (chain p) = false) tried →
         chain c = Ok resolved →
         result = Ok (appendQuery resolved (length restOfArgs)))
    ∧ (Forall (λ p, isOk (chain p) = false) candidates →
       result = match chain clean with
                | Ok resolved => Ok (appendQuery resolved (length restOfArgs))
                | Throw e => Throw e
                end).
Proof.
  intros Hpq Hns Hf Hne Hurl Hbare Hdep chain result.
  destruct (resolveTsPaths_aliases clean f parent chain st Hf Hne Hurl Hbare Hdep)
    as (dynamic & st' & Hdyn & Hres).
  eexists dynamic, _. split; [by rewrite Hdyn|]. split; [reflexivity|].
  subst result. erewrite createResolveFilename_enabled by done.
  simpl. fold chain. rewrite Hres. simpl. split.
  - intros tried c rest resolved -> Htried Hc.
    by erewrite firstResolved_first.
  - intros Hall. by rewrite firstResolved_none.
Qed.

End Facts.

(** C9 (amended).  When the requesting file lies inside a dependency
    directory, no alias resolution takes place: the result is [nextResolve]
    of the request, a [file:] URL being first turned into a path, the store
    is left as it is, and the result is the same whatever the file system,
    the configuration files and the loaded matchers are. *)
Theorem dependency_parent_skips_aliases
    (fs : FileSystem) (configs : GetTsconfig) (parts : ResolverParts)
    (request f : string) (parent : option Parent) (nextResolve : SimpleResolve)
    (st : Tsconfig.State) :
  parentFilename parent = Some f →
  Str.includes f nodeModulesPath = true →
  resolveTsPaths request parent nextResolve st =
    (supportFileProtocol request ≫= nextResolve, st)
  ∧ (Str.startsWith request fileUrlPrefix = false →
     (resolveTsPaths request parent nextResolve st).1 = nextResolve request)
  ∧ (∀ (fs' : FileSystem) (configs' : GetTsconfig) (st' : Tsconfig.State),
       (@resolveTsPaths fs' configs' parts request parent nextResolve st').1
       = (resolveTsPaths request parent nextResolve st).1).
Proof.
  intros Hf Hdep.
  assert (∀ (fs' : FileSystem) (configs' : GetTsconfig) st',
            @resolveTsPaths fs' configs' parts request parent nextResolve st' =
              (supportFileProtocol request ≫= nextResolve, st')) as Hskip.
  { intros fs' configs' st'. apply (@resolveTsPaths_skip fs' configs').
    intros r _. unfold aliasApplies. rewrite Hf, Hdep.
    by rewrite andb_false_r. }
  split; [apply Hskip|]. split.
  - intros Hurl. rewrite Hskip. unfold supportFileProtocol. by rewrite Hurl.
  - intros fs' configs' st'. by rewrite !Hskip.
Qed.

End ResolveFilenameFacts.


(** ** The coordinator with the helpers of the specification *)

Module SpecModelFacts.
Import ResolveFilename.

Lemma createImplicitResolver_ok (nextResolve : SimpleResolve)
    (request resolved : string) :
  nextResolve request = Ok resolved →
  SpecModel.createImplicitResolver nextResolve request = Ok resolved.
Proof. intros Hok. unfold SpecModel.createImplicitResolver. by rewrite Hok. Qed.

(** C8 (amended).  With the helpers of the specification: when the host
    resolver resolves the request without its query string, no alias
    candidate applies, and the explicit-extension resolver does not put a
    [.ts]/[.tsx] sibling first (it is inactive, or the request does not end
    in [.js]/[.jsx], or the host cannot resolve the sibling), the
    coordinator returns the host's path followed by the query string as it
    was written. *)
Theorem host_result_with_query (fs : FileSystem) (configs : GetTsconfig)
    {HostArg : Type} (host : @HostResolve HostArg) (namespace : option string)
    (request clean query resolved : string) (parent : option Parent)
    (restOfArgs : list HostArg) (st : Tsconfig.State) :
  SpecModel.splitQuery request = (clean, query) →
  SpecModel.queryParam query "namespace" = namespace →
  host clean parent restOfArgs = Ok resolved →
  Str.startsWith clean "file://" = false →
  (@aliasApplies specParts clean parent = false
   ∨ (@possiblePathsFor fs configs clean parent st).1 = Ok []) →
  (@isTsParent specParts namespace parent = false
   ∨ SpecModel.tsSibling clean = None
   ∨ ∃ sibling, SpecModel.tsSibling clean = Some sibling
                ∧ isOk (host sibling parent restOfArgs) = false) →
  (@createResolveFilename fs configs specParts HostArg true host namespace
     request parent restOfArgs st).1 = Ok (resolved +:+ query).
Proof.
  intros Hsplit Hns Hhost Hurl Halias Hext.
  erewrite (@ResolveFilenameFacts.createResolveFilename_enabled fs configs specParts);
    [|simpl; unfold SpecModel.preserveQuery; by rewrite Hsplit|done].
  set (chain := layeredResolve host namespace parent restOfArgs).
  assert (chain clean = Ok resolved) as Hchain.
  { unfold chain, layeredResolve. simpl. apply createImplicitResolver_ok.
    unfold SpecModel.createTsExtensionResolver.
    destruct Hext as [-> | [-> | (sibling & -> & Hsib)]].
    - done.
    - by destruct (isTsParent _ _).
    - destruct (isTsParent _ _); [|done].
      by destruct (host sibling parent restOfArgs). }
  cbv zeta. cbn [fst].
  assert ((resolveTsPaths clean parent chain st).1 = Ok resolved) as ->; [|done].
  unfold resolveTsPaths, supportFileProtocol. simpl fileUrlPrefix.
  rewrite Hurl. unfold mbind at 1, eff_bind, lift.
  destruct Halias as [-> | Hnone]; [by rewrite <- Hchain|].
  destruct (aliasApplies clean parent); [|by rewrite <- Hchain].
  unfold mbind, eff_bind.
  destruct (possiblePathsFor clean parent st) as [[paths|e] st']; [|done].
  simpl in Hnone. injection Hnone as ->. simpl. by rewrite Hchain.
Qed.

End SpecModelFacts.


(** ** The coordinator on the example workspace *)

Module ResolveFilenameExamples.
Import ResolveFilename Scenario.

#[local] Existing Instance workspaceFS.
#[local] Existing Instance workspaceConfigs.
#[local] Existing Instance specParts.

(** C5, a request the claim does not hold for: from a file of a
    dependency, the global matcher has a candidate for [@a/util] that the
    chain resolves, and yet the coordinator resolves the request itself,
    which fails. *)
Lemma alias_candidates_dependency_parent :
  isFilePath "@a/util" = false
  ∧ matcherA "@a/util" = ["/ws/src/util"]
  ∧ layeredResolve (hostOf workspaceModules) None dependencyParent []
      "/ws/src/util" = Ok "/ws/src/util.ts"
  ∧ (createResolveFilename true (hostOf workspaceModules) None "@a/util"
       dependencyParent [] stateWithA).1
    = Throw (HostError "MODULE_NOT_FOUND").
Proof. repeat split; reflexivity. Qed.

(** From a file of package B, the alias of B is resolved through the
    chain. *)
Lemma alias_candidates_in_order_witness :
  (createResolveFilename true (hostOf workspaceModules) None "@b/util"
     nestedParent [] freshState).1
  = Ok "/ws/packages/b/src/util.ts".
Proof.
  destruct (@ResolveFilenameFacts.alias_candidates_in_order
              workspaceFS workspaceConfigs specParts unit
              (hostOf workspaceModules) None "@b/util" "@b/util"
              "/ws/packages/b/src/main.ts" nestedParent [] ""
              (λ resolved _, resolved +:+ "") freshState)
    as (dynamic & candidates & Hdyn & Hcandidates & Hfirst & _);
    [reflexivity | reflexivity | reflexivity | done | reflexivity
    | reflexivity | reflexivity |].
  vm_compute in Hdyn. injection Hdyn as <-.
  apply (Hfirst [] "/ws/packages/b/src/util" [] "/ws/packages/b/src/util.ts");
    [by rewrite Hcandidates | constructor | reflexivity].
Defined.

(** C9, a request the claim does not hold for: a [file:] URL is resolved
    as the path it names, not as it was requested. *)
Lemma dependency_parent_file_url :
  (resolveTsPaths "file:///ws/node_modules/dep/lib.js" dependencyParent
     (resolverOf workspaceModules) stateWithA).1
  = Ok "/ws/node_modules/dep/lib.js"
  ∧ resolverOf workspaceModules "file:///ws/node_modules/dep/lib.js"
    = Throw (HostError "MODULE_NOT_FOUND").
Proof. split; reflexivity. Qed.

(** From a file of a dependency, the alias [@a/util] of the workspace is
    not used, though the global matcher knows it. *)
Lemma dependency_parent_skips_aliases_witness :
  matcherA "@a/util" = ["/ws/src/util"]
  ∧ (resolveTsPaths "@a/util" dependencyParent (resolverOf workspaceModules)
       stateWithA).1
    = resolverOf workspaceModules "@a/util".
Proof.
  split; [reflexivity|].
  apply (proj1 (proj2 (ResolveFilenameFacts.dependency_parent_skips_aliases
                         workspaceFS workspaceConfigs specParts
                         "@a/util" "/ws/node_modules/dep/index.js"
                         dependencyParent (resolverOf workspaceModules)
                         stateWithA eq_refl eq_refl)));
    reflexivity.
Defined.

(** C8, a request the claim does not hold for: the host resolves
    [./mod.js] to the JavaScript file, the coordinator, asked from a
    TypeScript file, to its [.ts] sibling. *)
Lemma host_result_ts_sibling :
  hostOf workspaceModules "./mod.js" nestedParent []
  = Ok "/ws/packages/b/src/mod.js"
  ∧ aliasApplies "./mod.js" nestedParent = false
  ∧ (createResolveFilename true (hostOf workspaceModules) None "./mod.js"
       nestedParent [] freshState).1
    = Ok "/ws/packages/b/src/mod.ts".
Proof. repeat split; reflexivity. Qed.

(** [./mod?raw] resolves as [./mod] does, and keeps [?raw]. *)
Lemma host_result_with_query_witness :
  (createResolveFilename true (hostOf workspaceModules) None "./mod?raw"
     nestedParent [] freshState).1
  = Ok "/ws/packages/b/src/mod.js?raw".
Proof.
  apply (SpecModelFacts.host_result_with_query workspaceFS workspaceConfigs
           (hostOf workspaceModules) None "./mod?raw" "./mod" "?raw"
           "/ws/packages/b/src/mod.js" nestedParent [] freshState);
    [reflexivity | reflexivity | reflexivity | reflexivity
    | left; reflexivity | right; left; reflexivity].
Defined.

End ResolveFilenameExamples.


(** ** Enum extraction *)

Module ConstEnumFacts.
Import ConstEnum.

(** *** Loops that may throw *)

Lemma foldM_app {A B : Type} (f : A → B → Exc A) (a : A) (l1 l2 : list B) :
  foldM f a (l1 ++ l2) = foldM f a l1 ≫= λ a', foldM f a' l2.
Proof.
  revert a. induction l1 as [|b l1 IH]; intros a; simpl; [done|].
  unfold mbind, exc_bind. destruct (f a b); [apply IH|done].
Qed.

(** A loop throws when it reaches an element on which its body throws in
    every state the loop can be in. *)
Lemma foldM_throws {A B : Type} (I : A → Prop) (f : A → B → Exc A)
    (x : B) (l : list B) (a : A) :
  I a →
  (∀ a b a', b ∈ l → I a → f a b = Ok a' → I a') →
  x ∈ l →
  (∀ a, I a → ∃ e, f a x = Throw e) →
  ∃ e, foldM f a l = Throw e.
Proof.
  intros Ha Hstep Hx Hthrow. revert a Ha.
  induction l as [|b l IH]; intros a Ha; [by apply elem_of_nil in Hx|].
  simpl. unfold mbind, exc_bind.
  destruct (f a b) as [a'|e] eqn:Hf; [|eauto].
  apply elem_of_cons in Hx as [<-|Hx].
  - destruct (Hthrow a Ha) as [e He]. congruence.
  - apply IH; [|done|].
    + intros a0 b0 a0' Hb0. apply Hstep. apply elem_of_cons. by right.
    + eapply Hstep; [apply elem_of_cons; by left|done..].
Qed.

Lemma foldM_invariant {A B : Type} (I : A → Prop) (f : A → B → Exc A)
    (l : list B) (a a' : A) :
  I a →
  (∀ a b a', b ∈ l → I a → f a b = Ok a' → I a') →
  foldM f a l = Ok a' → I a'.
Proof.
  intros Ha Hstep. revert a Ha.
  induction l as [|b l IH]; intros a Ha; simpl; [by intros [= <-]|].
  unfold mbind, exc_bind. destruct (f a b) as [a1|e] eqn:Hf; [|done].
  apply IH.
  - intros a0 b0 a0' Hb0. apply Hstep. apply elem_of_cons. by right.
  - eapply Hstep; [apply elem_of_cons; by left|done..].
Qed.

(** A loop over a store whose body leaves the accumulator as it is. *)
Lemma foldM_unchanged {S A B : Type} (I : S → Prop) (f : A → B → Eff S A)
    (a : A) (l : list B) (s : S) :
  I s →
  (∀ b s, b ∈ l → I s → ∃ s', f a b s = (Ok a, s') ∧ I s') →
  ∃ s', foldM f a l s = (Ok a, s') ∧ I s'.
Proof.
  intros Hs Hstep. revert s Hs.
  induction l as [|b l IH]; intros s Hs; simpl; [by eauto|].
  destruct (Hstep b s) as (s1 & Hf & Hs1); [apply elem_of_cons; by left|done|].
  unfold mbind, eff_bind. rewrite Hf. apply IH; [|done].
  intros b' s' Hb'. apply Hstep. apply elem_of_cons. by right.
Qed.

Lemma foldM_unchanged_exc {A B : Type} (f : A → B → Exc A) (a : A) (l : list B) :
  Forall (λ b, f a b = Ok a) l → foldM f a l = Ok a.
Proof.
  induction 1 as [|b l Hb _ IH]; simpl; [done|].
  unfold mbind, exc_bind. by rewrite Hb.
Qed.

(** *** Whole-word search *)

Lemma append_cons (x : ascii) (a b : string) :
  String x a +:+ b = String x (a +:+ b).
Proof. reflexivity. Qed.

Lemma append_nil (b : string) : "" +:+ b = b.
Proof. reflexivity. Qed.

Lemma append_assoc (a b c : string) : (a +:+ b) +:+ c = a +:+ b +:+ c.
Proof.
  induction a as [|x a IH]; [done|]. rewrite !append_cons. by f_equal.
Qed.

Lemma append_length (a b : string) :
  String.length (a +:+ b) = String.length a + String.length b.
Proof.
  induction a as [|x a IH]; [done|]. rewrite append_cons. simpl. by rewrite IH.
Qed.

Lemma prefix_append (a b : string) : String.prefix a (a +:+ b) = true.
Proof.
  induction a as [|x a IH]; [by destruct b|].
  rewrite append_cons. simpl. by destruct (ascii_dec x x).
Qed.

Lemma get_append_l (a b : string) (n : nat) :
  n < String.length a → String.get n (a +:+ b) = String.get n a.
Proof.
  revert n. induction a as [|x a IH]; intros n Hn; simpl in Hn; [lia|].
  rewrite append_cons. simpl. destruct n; [done|]. apply IH. lia.
Qed.

Lemma get_append_r (a b : string) :
  String.get (String.length a) (a +:+ b) = String.get 0 b.
Proof.
  induction a as [|x a IH]; [done|]. rewrite append_cons. simpl. apply IH.
Qed.

Lemma drop_append (a b : string) : Str.drop (String.length a) (a +:+ b) = b.
Proof.
  induction a as [|x a IH]; [done|]. rewrite append_cons. simpl. apply IH.
Qed.

(** A position at which the pattern matches, and that the search has not
    passed, makes the search find something. *)
Lemma execAll_finds (text : string) (s : string) (before : option ascii)
    (index skip k : nat) :
  text ≠ "" → skip ≤ k →
  matchesAt text (charBefore before s k) (Str.drop k s) = true →
  execAll text before s index skip ≠ [].
Proof.
  intros Htext. revert before index skip k.
  induction s as [|c s IH]; intros before index skip k Hk Hmatch.
  - exfalso. destruct k; simpl in Hmatch;
      unfold matchesAt in Hmatch; destruct text; try done;
      simpl in Hmatch; by rewrite andb_false_r in Hmatch.
  - simpl. destruct ((skip =? 0)%nat && matchesAt text before (String c s))
      eqn:Hhere; [done|].
    destruct k as [|k].
    + assert (skip = 0) as -> by lia. simpl in Hmatch, Hhere. congruence.
    + apply (IH (Some c) (S index) (skip - 1) k); [lia|].
      simpl in Hmatch. by destruct k.
Qed.

(** A text with word characters at its ends is found between two spaces. *)
Lemma matchIndices_between_spaces (text before after : string) :
  wordEnds text = true →
  matchIndices text (before +:+ " " +:+ text +:+ " " +:+ after) ≠ [].
Proof.
  intros Hends. unfold wordEnds in Hends.
  apply andb_prop in Hends as [Hfirst Hlast].
  assert (text ≠ "") as Htext by (by intros ->).
  apply (execAll_finds text _ None 0 0 (String.length (before +:+ " ")));
    [done|lia|].
  rewrite <- (append_assoc before " ").
  rewrite drop_append.
  assert (charBefore None ((before +:+ " ") +:+ text +:+ " " +:+ after)
            (String.length (before +:+ " ")) = Some " "%char) as ->.
  { assert (String.length (before +:+ " ") = S (String.length before)) as ->
      by (rewrite append_length; simpl; lia).
    simpl. rewrite append_assoc, get_append_r. done. }
  unfold matchesAt. rewrite prefix_append, get_append_r. simpl.
  destruct text as [|c0 text']; [done|]. simpl String.length.
  rewrite get_append_l by (simpl; lia).
  simpl in Hfirst. simpl in Hlast. rewrite Nat.sub_0_r in Hlast.
  unfold wordBoundary. simpl. rewrite Hfirst. simpl.
  by rewrite Hlast.
Qed.

Section Facts.
Context `{FileSystem} `{JSRuntime} `{OxcParser}.

(** *** One member *)

Lemma memberStep_ok (content id : string) (st st' : MemberLoop)
    (e : TSEnumMember) :
  memberStep content id st e = Ok st' →
  ∃ v, st' = saveValue (id +:+ "." +:+ memberKey e) (memberKey e) st v.
Proof.
  unfold memberStep. destruct (initializer e) as [init|].
  - unfold mbind, exc_bind. destruct (initializerValue _ _ _); [|done].
    intros [= <-]. eauto.
  - destruct (lastInitialized st) as [[]|]; try done; intros [= <-]; eauto.
Qed.



Lemma memberStep_unsupported (content id : string) (st : MemberLoop)
    (e : TSEnumMember) (init : Expression) :
  initializer e = Some init → unsupportedShape init →
  ∃ err, memberStep content id st e = Throw err.
Proof.
  intros Hinit Hshape. unfold memberStep. rewrite Hinit.
  destruct init; try done; simpl; eauto.
Qed.


Lemma memberStep_non_numeric (content id : string) (st : MemberLoop)
    (e : TSEnumMember) (v : JSValue) :
  initializer e = None → lastInitialized st = Some v → (∀ n, v ≠ VNum n) →
  ∃ err, memberStep content id st e = Throw err.
Proof.
  intros Hinit Hlast Hv. unfold memberStep. rewrite Hinit, Hlast.
  destruct v; eauto. by destruct (Hv n).
Qed.


(** *** The members of one declaration *)

Lemma incrementedAt_prefix (ms more : list EnumMember) (k : nat) :
  k < length ms → incrementedAt ms k → incrementedAt (ms ++ more) k.
Proof.
  intros Hk. destruct k as [|j]; simpl.
  - by rewrite lookup_app_l by done.
  - intros [(n & Hj & Hk') | [Hj Hk']]; [left; exists n|right];
      by rewrite !lookup_app_l by lia.
Qed.

Lemma memberStep_tracks (content id : string) (st st' : MemberLoop)
    (e : TSEnumMember) :
  tracksLast st →
  memberStep content id st e = Ok st' →
  tracksLast st'
  ∧ ∃ m, membersAcc st' = membersAcc st ++ [m]
         ∧ name m = memberKey e
         ∧ (∀ v, initializer e = Some (Literal v) → value m = Some v)
         ∧ (initializer e = None →
            incrementedAt (membersAcc st') (length (membersAcc st))).
Proof.
  intros Htracks Hstep.
  assert (∀ v, tracksLast
                 (saveValue (id +:+ "." +:+ memberKey e) (memberKey e) st v))
    as Hsave.
  { intros v. unfold tracksLast. simpl. by rewrite last_snoc. }
  unfold memberStep in Hstep. destruct (initializer e) as [init|].
  - unfold mbind, exc_bind in Hstep.
    destruct (initializerValue _ _ _) as [v|] eqn:Hv; [|done].
    injection Hstep as <-. split; [apply Hsave|].
    eexists. split; [reflexivity|]. split; [reflexivity|]. split; [|done].
    intros v' [= ->]. simpl in Hv. by injection Hv as <-.
  - unfold tracksLast in Htracks.
    destruct (lastInitialized st) as [[n| | |]|] eqn:Hlast; try done;
      injection Hstep as <-; (split; [apply Hsave|]);
      eexists; (split; [reflexivity|]); (split; [reflexivity|]);
      (split; [done|]); intros _; simpl.
    + destruct (last (membersAcc st)) as [m0|] eqn:Hm0; [|done].
      apply last_Some in Hm0 as [l' Hl']. rewrite Hl'.
      simpl in Htracks.
      rewrite length_app. simpl. replace (length l' + 1) with (S (length l')) by lia.
      simpl. left. exists n. split.
      * rewrite <- app_assoc. simpl.
        rewrite list_lookup_middle by done. simpl. by rewrite <- Htracks.
      * by rewrite (list_lookup_middle (l' ++ [m0]) [] _ (S (length l')))
          by (rewrite length_app; simpl; lia).
    + destruct (last (membersAcc st)) as [m0|] eqn:Hm0.
      * apply last_Some in Hm0 as [l' Hl']. rewrite Hl'.
        simpl in Htracks.
        rewrite length_app. simpl.
        replace (length l' + 1) with (S (length l')) by lia.
        simpl. right. split.
        -- rewrite <- app_assoc. simpl.
           rewrite list_lookup_middle by done. simpl. by rewrite <- Htracks.
        -- by rewrite (list_lookup_middle (l' ++ [m0]) [] _ (S (length l')))
             by (rewrite length_app; simpl; lia).
      * apply last_None in Hm0. by rewrite Hm0.
Qed.

(** The loop over the members keeps their order, gives a member with a
    literal initializer the literal's value, and applies the rule of
    auto-increment at every member without initializer. *)
Lemma members_fold (content id : string) (es : list TSEnumMember)
    (st r : MemberLoop) :
  tracksLast st →
  foldM (memberStep content id) st es = Ok r →
  tracksLast r
  ∧ ∃ new, membersAcc r = membersAcc st ++ new
           ∧ name <$> new = memberKey <$> es
           ∧ (∀ i e v, es !! i = Some e → initializer e = Some (Literal v) →
                value <$> new !! i = Some (Some v))
           ∧ ∀ i e, es !! i = Some e → initializer e = None →
               incrementedAt (membersAcc r) (length (membersAcc st) + i).
Proof.
  revert st. induction es as [|e es IH]; intros st Htracks; simpl.
  - intros [= <-]. split; [done|]. exists []. rewrite app_nil_r.
    by repeat split.
  - unfold mbind, exc_bind.
    destruct (memberStep content id st e) as [st1|] eqn:Hstep; [|done].
    intros Hfold.
    destruct (memberStep_tracks _ _ _ _ _ Htracks Hstep)
      as (Htracks1 & m & Hm & Hname & Hliteral & Hrule).
    destruct (IH st1 Htracks1 Hfold)
      as (Hr & new & Hnew & Hnames & Hliterals & Hrules).
    split; [done|]. exists (m :: new). rewrite Hnew, Hm, <- app_assoc.
    split; [done|]. split; [by rewrite !fmap_cons, Hname, Hnames|]. split.
    + intros [|i] e' v He' Hinit; simpl in He'.
      * injection He' as <-. simpl. by rewrite (Hliteral v).
      * simpl. by eapply Hliterals.
    + intros [|i] e' He' Hinit; simpl in He'.
      * injection He' as <-. rewrite Nat.add_0_r.
        change (membersAcc st ++ [m] ++ new) with (membersAcc st ++ ([m] ++ new)).
        rewrite app_assoc. apply incrementedAt_prefix.
        -- rewrite length_app. simpl. lia.
        -- rewrite <- Hm. by apply Hrule.
      * specialize (Hrules i e' He' Hinit).
        rewrite Hnew, Hm, length_app, <- app_assoc in Hrules. simpl in Hrules.
        by replace (length (membersAcc st) + S i)
          with (length (membersAcc st) + 1 + i) by lia.
Qed.

(** Members that are numbers or have no initializer are always extracted. *)
Lemma members_fold_numeric (content id : string) (es : list TSEnumMember)
    (st : MemberLoop) :
  Forall plainNumeric es →
  (lastInitialized st = None ∨ ∃ n, lastInitialized st = Some (VNum n)) →
  ∃ r, foldM (memberStep content id) st es = Ok r.
Proof.
  intros Hes. revert st. induction Hes as [|e es He _ IH]; intros st Hst; simpl.
  - eauto.
  - unfold mbind, exc_bind.
    assert (∃ v n, memberStep content id st e
                   = Ok (saveValue (id +:+ "." +:+ memberKey e) (memberKey e) st v)
                   ∧ v = Some (VNum n)) as (v & n & -> & ->).
    { unfold memberStep. destruct He as [-> | [n ->]].
      - destruct Hst as [-> | [n ->]]; eauto.
      - simpl. eauto. }
    apply IH. simpl. eauto.
Qed.

(** *** One statement *)






(** *** One file *)

Lemma parseBody_ts (filePath content : string) (cache : Cache) :
  existsSync filePath = true →
  readFileSync filePath = Ok content →
  isTs (getLang filePath) = true →
  parseBody filePath cache =
    match parseSync filePath content
            (if String.eqb (getLang filePath) "dts" then "ts"
             else getLang filePath) "ts" with
    | Throw e => (Throw e, cache)
    | Ok body =>
        match foldM (statementStep content) ([], ∅) body with
        | Throw e => (Throw e, cache)
        | Ok r =>
            let data := {| declarations := r.1; defines := r.2 |} in
            (Ok data, <[filePath := data]> cache)
        end
    end.
Proof.
  intros Hexists Hread Hts. unfold parseBody. rewrite Hexists. simpl.
  unfold mbind at 1, eff_bind, lift. rewrite Hread, Hts. simpl.
  unfold mbind at 1, eff_bind. destruct (parseSync _ _ _ _) as [body|e]; [|done].
  unfold mbind at 1, eff_bind. by destruct (foldM _ _ body).
Qed.

Lemma parseBody_throw_store (filePath : string) (cache cache' : Cache)
    (e : JSError) :
  parseBody filePath cache = (Throw e, cache') → cache' = cache.
Proof.
  unfold parseBody. destruct (existsSync filePath); simpl; [|done].
  unfold mbind at 1, eff_bind, lift.
  destruct (readFileSync filePath) as [content|]; [|by intros [= _ <-]].
  destruct (isTs (getLang filePath)); simpl; [|done].
  unfold mbind at 1, eff_bind. destruct (parseSync _ _ _ _) as [body|];
    [|by intros [= _ <-]].
  unfold mbind at 1, eff_bind. destruct (foldM _ _ body);
    [done|by intros [= _ <-]].
Qed.

Lemma parseConstEnumsFromAST_hit (filePath : string) (cache : Cache)
    (data : EnumData) :
  cache !! filePath = Some data →
  parseConstEnumsFromAST filePath cache = (Ok data, cache).
Proof.
  intros Hhit. unfold parseConstEnumsFromAST, mbind, eff_bind, getStore.
  by rewrite Hhit.
Qed.

Lemma parseConstEnumsFromAST_caught (filePath : string) (cache cache' : Cache)
    (e : JSError) :
  cache !! filePath = None →
  parseBody filePath cache = (Throw e, cache') →
  parseConstEnumsFromAST filePath cache =
    (Ok emptyEnumData, <[filePath := emptyEnumData]> cache).
Proof.
  intros Hmiss Hthrow.
  pose proof (parseBody_throw_store _ _ _ _ Hthrow) as ->.
  unfold parseConstEnumsFromAST, mbind, eff_bind, getStore. rewrite Hmiss.
  unfold try_catch. by rewrite Hthrow.
Qed.

Lemma parseConstEnumsFromAST_total (filePath : string) (cache : Cache) :
  ∃ data cache', parseConstEnumsFromAST filePath cache = (Ok data, cache').
Proof.
  unfold parseConstEnumsFromAST, mbind, eff_bind, getStore.
  destruct (cache !! filePath); [by eauto|].
  unfold try_catch. destruct (parseBody filePath cache) as [[data|e] cache'];
    by eauto.
Qed.


(** The members of a declaration are not extracted when the loop gets to a
    member at which it stops. *)
Lemma enumMembersOf_aborts (content : string) (defs : Defines)
    (decl : TSEnumDeclaration) :
  AbortsExtraction content (enumName decl) defs (enumMembers decl) →
  ∃ err, enumMembersOf content defs decl = Throw err.
Proof.
  unfold enumMembersOf. fold (membersStart defs).
  intros [before e after init -> Hinit Hshape
         | before e after -> Hinit Hprevious].
  - apply (foldM_throws (λ _, True) _ e); [done|done|set_solver|].
    intros st _. by eapply memberStep_unsupported.
  - rewrite foldM_app. unfold mbind, exc_bind.
    destruct (foldM _ (membersStart defs) before) as [st1|err] eqn:Hbefore;
      [|eauto].
    destruct (Hprevious st1 eq_refl) as (v & Hlast & Hv).
    apply members_fold in Hbefore as (Htracks & _); [|done].
    unfold tracksLast in Htracks.
    destruct (last (membersAcc st1)) as [m|]; [|done].
    simpl in Hlast, Htracks. injection Hlast as Hm. rewrite Hm in Htracks.
    simpl.
    destruct (memberStep_non_numeric content (enumName decl) st1 e v)
      as [err ->]; eauto.
Qed.

(** C2 (amended).  An exported const enum with a member of unsupported
    initializer shape, or with a member without initializer that comes
    after a member whose value is neither a number nor [undefined], aborts
    the extraction for the whole file: the entry returned and cached for the
    file is empty, whatever exported const enums the file declares before
    and after it. *)
Theorem stopping_member_discards_file (filePath content : string)
    (cache : Cache) (before after : list Statement)
    (decl : TSEnumDeclaration) :
  cache !! filePath = None →
  existsSync filePath = true →
  isTs (getLang filePath) = true →
  readFileSync filePath = Ok content →
  parseSync filePath content
    (if String.eqb (getLang filePath) "dts" then "ts" else getLang filePath)
    "ts" = Ok (before ++ ExportNamedDeclaration (Some (TSEnumDecl decl)) :: after) →
  isConst decl = true →
  (∀ acc, foldM (statementStep content) ([], ∅) before = Ok acc →
     AbortsExtraction content (enumName decl) acc.2 (enumMembers decl)) →
  parseConstEnumsFromAST filePath cache =
    (Ok emptyEnumData, <[filePath := emptyEnumData]> cache).
Proof.
  intros Hmiss Hexists Hts Hread Hparse Hconst Hstop.
  assert (∃ e, parseBody filePath cache = (Throw e, cache)) as [e He];
    [|by eapply parseConstEnumsFromAST_caught].
  rewrite (parseBody_ts _ content) by done. rewrite Hparse, foldM_app.
  unfold mbind, exc_bind.
  destruct (foldM (statementStep content) ([], ∅) before) as [acc|err] eqn:Hacc;
    [|eauto].
  simpl. rewrite Hconst. unfold mbind, exc_bind.
  destruct (enumMembersOf_aborts content acc.2 decl (Hstop acc eq_refl))
    as [err ->].
  eauto.
Qed.

(** *** The cache *)

Lemma parseBody_store (filePath : string) (cache : Cache) :
  parseBody filePath cache =
    ((parseBody filePath ∅).1,
     match (parseBody filePath ∅).1 with
     | Ok data => <[filePath := data]> cache
     | Throw _ => cache
     end).
Proof.
  unfold parseBody, mbind, eff_bind, mret, eff_ret, lift, constEnumCacheSet,
    modifyStore.
  destruct (existsSync filePath); simpl; [|done].
  destruct (readFileSync filePath) as [content|]; [|done].
  destruct (isTs (getLang filePath)); simpl; [|done].
  destruct (parseSync _ _ _ _) as [body|]; [|done].
  by destruct (foldM _ _ body).
Qed.

Lemma parseConstEnumsFromAST_miss (filePath : string) (cache : Cache) :
  cache !! filePath = None →
  parseConstEnumsFromAST filePath cache =
    (Ok (extractEntry filePath), <[filePath := extractEntry filePath]> cache).
Proof.
  intros Hmiss. unfold extractEntry, parseConstEnumsFromAST.
  unfold mbind, eff_bind, getStore. rewrite Hmiss, lookup_empty.
  unfold try_catch. rewrite (parseBody_store filePath cache).
  rewrite (parseBody_store filePath ∅).
  by destruct (parseBody filePath ∅).1.
Qed.

Lemma cacheConsistent_empty : cacheConsistent ∅.
Proof. intros filePath data. by rewrite lookup_empty. Qed.

(** From a consistent cache every call returns the file's entry and keeps
    the cache consistent. *)
Lemma parseConstEnumsFromAST_consistent (filePath : string) (cache : Cache) :
  cacheConsistent cache →
  ∃ cache', parseConstEnumsFromAST filePath cache
            = (Ok (extractEntry filePath), cache')
            ∧ cacheConsistent cache'.
Proof.
  intros Hcache. destruct (cache !! filePath) as [data|] eqn:Hc.
  - rewrite (parseConstEnumsFromAST_hit _ _ data) by done.
    rewrite (Hcache _ _ Hc). eauto.
  - rewrite parseConstEnumsFromAST_miss by done. eexists. split; [done|].
    intros f d. destruct (decide (filePath = f)) as [<-|Hne].
    + rewrite lookup_insert_eq. by intros [= <-].
    + rewrite lookup_insert_ne by done. apply Hcache.
Qed.

(** *** A pass that finds no reference *)

Lemma rewriteMatches_none (code : string) (names : list string)
    (v : option JSValue) (acc : Rewriting) :
  patternMatches names code = Ok [] → rewriteMatches code names v acc = Ok acc.
Proof. intros Hnone. unfold rewriteMatches. by rewrite Hnone. Qed.

Lemma rewriteMembers_none (code : string) (qualifier : list string)
    (ms : list EnumMember) (acc : Rewriting) :
  Forall (λ names, patternMatches names code = Ok [])
    ((λ member, qualifier ++ [name member]) <$> ms) →
  rewriteMembers code qualifier ms acc = Ok acc.
Proof.
  intros Hnone. apply foldM_unchanged_exc.
  apply Forall_fmap in Hnone. eapply Forall_impl; [exact Hnone|].
  intros member Hm. by apply rewriteMatches_none.
Qed.

Lemma specifierStep_none (code : string) (enumData : EnumData)
    (acc : Rewriting) (specifier : ImportSpecifierNode) :
  Forall (λ names, patternMatches names code = Ok [])
    (referencesOf enumData specifier) →
  specifierStep code enumData acc specifier = Ok acc.
Proof.
  destruct specifier as [alias | imported localName | localName]; simpl;
    [| |done].
  - intros Hnone. apply foldM_unchanged_exc.
    apply Forall_bind in Hnone. eapply Forall_impl; [exact Hnone|].
    intros decl Hdecl. by apply (rewriteMembers_none code [alias; id decl]).
  - destruct (List.find _ _) as [enumDecl|]; [|done].
    apply (rewriteMembers_none code [localName]).
Qed.

Lemma enumFileStep_none (code : string) (specifiers : list ImportSpecifierNode)
    (acc : Rewriting) (enumFile : string) (cache : Cache) :
  cacheConsistent cache →
  Forall (λ names, patternMatches names code = Ok [])
    (specifiers ≫= referencesOf (extractEntry enumFile)) →
  ∃ cache', enumFileStep code specifiers acc enumFile cache = (Ok acc, cache')
            ∧ cacheConsistent cache'.
Proof.
  intros Hcache Hnone.
  destruct (parseConstEnumsFromAST_consistent enumFile cache Hcache)
    as (cache' & Hparse & Hcache').
  exists cache'. split; [|done].
  unfold enumFileStep, mbind, eff_bind, lift. rewrite Hparse.
  rewrite foldM_unchanged_exc; [done|].
  apply Forall_bind in Hnone. eapply Forall_impl; [exact Hnone|].
  intros specifier Hs. by apply specifierStep_none.
Qed.

Lemma nodeStep_none (filePath code : string) (acc : Rewriting)
    (node : Statement) (cache : Cache) :
  cacheConsistent cache →
  Forall (λ names, patternMatches names code = Ok [])
    (importedReferences filePath [node]) →
  ∃ cache', nodeStep filePath code acc node cache = (Ok acc, cache')
            ∧ cacheConsistent cache'.
Proof.
  intros Hcache Hnone. destruct node as [importPath specifiers| |];
    [|by eauto..].
  unfold importedReferences in Hnone. simpl in Hnone.
  rewrite app_nil_r in Hnone. apply Forall_bind in Hnone.
  simpl. apply (foldM_unchanged cacheConsistent); [done|].
  intros enumFile cache1 Hin Hcache1. apply enumFileStep_none; [done|].
  rewrite Forall_forall in Hnone. by apply Hnone.
Qed.

Lemma transformBody_none (filePath code : string) (body : list Statement)
    (cache : Cache) :
  cacheConsistent cache →
  parseSync filePath code
    (if String.eqb (getLang filePath) "dts" then "ts" else getLang filePath)
    (if isTs (getLang filePath) then "ts" else "js") = Ok body →
  Forall (λ names, patternMatches names code = Ok [])
    (importedReferences filePath body) →
  ∃ cache', transformBody filePath code cache = (Ok None, cache')
            ∧ cacheConsistent cache'.
Proof.
  intros Hcache Hparse Hnone.
  destruct (foldM_unchanged cacheConsistent (nodeStep filePath code)
              (MagicString.create code, false) body cache Hcache)
    as (cache' & Hfold & Hcache').
  { intros node cache1 Hin Hcache1. apply nodeStep_none; [done|].
    unfold importedReferences in *. apply Forall_bind in Hnone.
    apply Forall_bind. constructor; [|done].
    rewrite Forall_forall in Hnone. by apply Hnone. }
  exists cache'. split; [|done].
  unfold transformBody. unfold mbind at 1. unfold eff_bind at 1. unfold lift.
  rewrite Hparse. unfold mbind at 1. unfold eff_bind at 1.
  by rewrite Hfold.
Qed.




Lemma transformConstEnum_none (filePath code : string) (cache : Cache) :
  cacheConsistent cache →
  (∀ body,
     parseSync filePath code
       (if String.eqb (getLang filePath) "dts" then "ts" else getLang filePath)
       (if isTs (getLang filePath) then "ts" else "js") = Ok body →
     Forall (λ names, patternMatches names code = Ok [])
       (importedReferences filePath body)) →
  (transformConstEnum filePath code cache).1 = Ok None.
Proof.
  intros Hcache Hnone. unfold transformConstEnum.
  destruct (isSourcePath filePath); simpl; [|done].
  destruct (Str.includes code "import "); simpl; [|done].
  unfold try_catch.
  destruct (parseSync filePath code
              (if String.eqb (getLang filePath) "dts" then "ts"
               else getLang filePath)
              (if isTs (getLang filePath) then "ts" else "js"))
    as [body|e] eqn:Hparse.
  - destruct (transformBody_none filePath code body cache Hcache Hparse)
      as (cache' & -> & _); [by apply Hnone|done].
  - unfold transformBody. unfold mbind at 1. unfold eff_bind at 1.
    unfold lift. by rewrite Hparse.
Qed.



Lemma patternMatches_plain (names : list string) (code : string) :
  plainNames names = true →
  patternMatches names code =
    Ok ((λ index, (index, patternText names))
          <$> matchIndices (patternText names) code).
Proof. intros Hplain. unfold patternMatches. by rewrite Hplain. Qed.

(** C1 (amended).  A pass rewrites nothing and returns [None] when none of
    the patterns made of the names of the const enums it imports matches its
    input; for names made of word characters, that is when the input holds
    no whole-word occurrence of the qualified reference.  The output of a
    rewriting pass is not such an input: what replaces a reference ends with
    a comment that holds the reference, between two spaces, where the
    search finds it again. *)
Theorem no_reference_no_rewrite (filePath code : string) (cache : Cache) :
  (cacheConsistent cache →
   (∀ body,
      parseSync filePath code
        (if String.eqb (getLang filePath) "dts" then "ts" else getLang filePath)
        (if isTs (getLang filePath) then "ts" else "js") = Ok body →
      Forall (λ names, patternMatches names code = Ok [])
        (importedReferences filePath body)) →
   (transformConstEnum filePath code cache).1 = Ok None)
  ∧ (∀ names,
       plainNames names = true →
       (patternMatches names code = Ok []
        ↔ matchIndices (patternText names) code = []))
  ∧ (∀ v names before after,
       plainNames names = true →
       wordEnds (patternText names) = true →
       patternMatches names
         (before +:+ replacementFor v (patternText names) +:+ after) ≠ Ok []).
Proof.
  split; [|split].
  - apply transformConstEnum_none.
  - intros names Hplain. rewrite patternMatches_plain by done. split.
    + intros [= Hnil]. by apply fmap_nil_inv in Hnil.
    + by intros ->.
  - intros v names before after Hplain Hends.
    rewrite patternMatches_plain by done. intros [= Hnil].
    apply fmap_nil_inv in Hnil. revert Hnil. unfold replacementFor.
    replace (before +:+ (stringOrUndefined (jsonStringify v) +:+ " /* "
                         +:+ patternText names +:+ " */") +:+ after)
      with ((before +:+ stringOrUndefined (jsonStringify v) +:+ " /*")
            +:+ " " +:+ patternText names +:+ " " +:+ ("*/" +:+ after)).
    + by apply matchIndices_between_spaces.
    + rewrite !append_assoc. reflexivity.
Qed.

End Facts.


End ConstEnumFacts.


(** ** Enum extraction and inlining on example files *)

Module ConstEnumExamples.
Import ConstEnum Scenario ConstEnumFacts.

#[local] Existing Instance enumFS.
#[local] Existing Instance integerRuntime.
#[local] Existing Instance enumParser.

Example color_extracted :
  parseConstEnumsFromAST "/ws/src/color.ts" ∅ =
    (Ok colorEntry, <["/ws/src/color.ts" := colorEntry]> ∅).
Proof. vm_compute. reflexivity. Qed.

(** C2, a file the claim does not hold for: [Good] is extracted from a file
    that declares it alone, and lost when the file also declares an enum
    with an initializer of unsupported shape, or with a member that cannot
    be incremented. *)
Lemma other_enums_lost :
  (parseConstEnumsFromAST "/ws/src/good.ts" ∅).1 =
    Ok {| declarations :=
            [{| id := "Good";
                members := [{| name := "A"; value := Some (VNum 0) |}] |}];
          defines := <["Good.A" := Some "0"]> ∅ |}
  ∧ (parseConstEnumsFromAST "/ws/src/mixed.ts" ∅).1 =
      Ok {| declarations := []; defines := ∅ |}
  ∧ (parseConstEnumsFromAST "/ws/src/names.ts" ∅).1 =
      Ok {| declarations := []; defines := ∅ |}.
Proof. repeat split; vm_compute; reflexivity. Qed.

(** [B] follows [A = !0], which evaluates to [true]. *)
Lemma stopping_member_discards_file_witness :
  @parseConstEnumsFromAST unaryFS unaryRuntime unaryParser "/ws/src/flag.ts" ∅ =
    (Ok emptyEnumData, <["/ws/src/flag.ts" := emptyEnumData]> ∅).
Proof.
  apply (@stopping_member_discards_file unaryFS unaryRuntime unaryParser
           "/ws/src/flag.ts" flagSource ∅
           [exportedConstEnum "Good" [uninitialized "A"]] [] flagDecl);
    [reflexivity | reflexivity | reflexivity | reflexivity | reflexivity
    | reflexivity |].
  intros acc _.
  apply (@AbortsNonNumeric unaryRuntime _ _ _ _
           [initialized "A" (UnaryExpression "!" (Literal (VNum 0)))]
           (uninitialized "B") []); [reflexivity|reflexivity|].
  intros st Hst. exists (VBool true). split; [|discriminate].
  change (Ok (saveValue "F.A" "A" (membersStart acc.2) (Some (VBool true)))
          = Ok st) in Hst.
  by injection Hst as <-.
Defined.


(** C1, a file the claim does not hold for: the first pass rewrites
    [Color.Red], and the second pass, run on the output of the first,
    rewrites the [Color.Red] of the comment. *)
Lemma second_pass_rewrites_again :
  transformConstEnum "/ws/src/main.ts" mainSource ∅ =
    (Ok (Some {| code := mainOnce;
                 map := {| MagicString.file := Some "main.ts";
                           MagicString.sources := ["/ws/src/main.ts"];
                           MagicString.sourcesContent := [mainSource] |} |}),
     <["/ws/src/color.ts" := colorEntry]> ∅)
  ∧ (transformConstEnum "/ws/src/main.ts" mainOnce
       (<["/ws/src/color.ts" := colorEntry]> ∅)).1 =
      Ok (Some {| code := mainTwice;
                  map := {| MagicString.file := Some "main.ts";
                            MagicString.sources := ["/ws/src/main.ts"];
                            MagicString.sourcesContent := [mainOnce] |} |}).
Proof. split; vm_compute; reflexivity. Qed.

(** A file that imports [Color] and does not mention its members. *)
Lemma no_reference_no_rewrite_witness :
  (transformConstEnum "/ws/src/main.ts" plainSource ∅).1 = Ok None
  ∧ patternMatches ["Color"; "Red"] mainOnce ≠ Ok [].
Proof.
  split.
  - apply (proj1 (no_reference_no_rewrite "/ws/src/main.ts" plainSource ∅));
      [apply cacheConsistent_empty|].
    intros body Hbody. vm_compute in Hbody. injection Hbody as <-.
    repeat (apply Forall_cons; split; [vm_compute; reflexivity|]).
    apply Forall_nil_2.
  - exact (proj2 (proj2 (no_reference_no_rewrite "/ws/src/main.ts" plainSource ∅))
             (Some (VNum 0)) ["Color"; "Red"]
             "import { Color } from './color'; const x = " ";" eq_refl eq_refl).
Defined.

End ConstEnumExamples.


(** ** The dynamic config resolver: its cache and its walk *)

Module TsconfigCacheFacts.
Import Tsconfig TsconfigFacts.

Section Facts.
Context `{FileSystem} `{GetTsconfig}.

Lemma afterCalls_consistent (calls : list (string * option string)) (st : State) :
  consistent st → consistent (afterCalls calls st).
Proof.
  revert st. induction calls as [|call calls IH]; intros st Hst; [done|].
  simpl. apply IH. by apply dynamicPathsMatcher_consistent.
Qed.

Lemma afterCalls_matcher (calls : list (string * option string)) (st : State) :
  tsconfigPathsMatcher (afterCalls calls st) = tsconfigPathsMatcher st.
Proof.
  revert st. induction calls as [|call calls IH]; intros st; [done|].
  simpl. rewrite IH.
  by destruct (ResolveFilenameFacts.dynamicPathsMatcher_total call.1 call.2 st)
    as (c & st' & -> & Hm).
Qed.

(** With a consistent cache the answer is the one an empty cache gives. *)
Lemma consistent_answer (specifier : string) (fromFile : option string)
    (st : State) :
  consistent st →
  (dynamicPathsMatcher specifier fromFile st).1 =
    (dynamicPathsMatcher specifier fromFile
       {| tsconfigCache := ∅; tsconfigPathsMatcher := tsconfigPathsMatcher st |}).1.
Proof.
  intros Hst.
  destruct fromFile as [[|c f]|];
    [by rewrite !dynamicPathsMatcher_no_file by auto| |
     by rewrite !dynamicPathsMatcher_no_file by auto].
  rewrite (dynamicPathsMatcher_miss specifier (String c f)
             {| tsconfigCache := ∅; tsconfigPathsMatcher := _ |}) by done.
  destruct (tsconfigCache st !! Path.dirname (String c f)) as [entry|] eqn:Hc.
  - erewrite dynamicPathsMatcher_hit by done. simpl.
    by rewrite (Hst _ _ Hc).
  - by rewrite dynamicPathsMatcher_miss by done.
Qed.

(** The effect of a call on the store. *)
Lemma dynamicPathsMatcher_frame (specifier : string) (fromFile : option string)
    (st : State) :
  tsconfigPathsMatcher (dynamicPathsMatcher specifier fromFile st).2
  = tsconfigPathsMatcher st
  ∧ (∀ dir v, tsconfigCache st !! dir = Some v →
       tsconfigCache (dynamicPathsMatcher specifier fromFile st).2 !! dir = Some v)
  ∧ (∀ dir, tsconfigCache st !! dir = None →
       is_Some (tsconfigCache (dynamicPathsMatcher specifier fromFile st).2 !! dir) →
       ∃ f, fromFile = Some f ∧ f ≠ "" ∧ dir = Path.dirname f).
Proof.
  assert (∀ s : State,
            tsconfigPathsMatcher s = tsconfigPathsMatcher s
            ∧ (∀ dir v, tsconfigCache s !! dir = Some v →
                 tsconfigCache s !! dir = Some v)
            ∧ (∀ dir, tsconfigCache s !! dir = None →
                 is_Some (tsconfigCache s !! dir) →
                 ∃ f, fromFile = Some f ∧ f ≠ "" ∧ dir = Path.dirname f))
    as Hsame.
  { intros s. repeat split; [done|]. intros dir -> [? ?]. done. }
  destruct fromFile as [[|c f]|];
    [rewrite dynamicPathsMatcher_no_file by auto; apply Hsame| |
     rewrite dynamicPathsMatcher_no_file by auto; apply Hsame].
  destruct (tsconfigCache st !! Path.dirname (String c f)) as [entry|] eqn:Hc.
  - erewrite dynamicPathsMatcher_hit by done. apply Hsame.
  - rewrite dynamicPathsMatcher_miss by done. simpl. repeat split.
    + intros dir v Hdir. rewrite lookup_insert_ne; [done|]. congruence.
    + intros dir Hnone Hsome.
      destruct (decide (Path.dirname (String c f) = dir)) as [<-|Hne]; [by eauto|].
      rewrite lookup_insert_ne in Hsome by done. rewrite Hnone in Hsome.
      by destruct Hsome.
Qed.

Lemma probedDirs_length (n : nat) (dir : string) :
  String.length dir ≤ n → length (probedDirs dir) ≤ String.length dir + 1.
Proof.
  revert dir. induction n as [|n IH]; intros dir Hn.
  - destruct dir; [|simpl in Hn; lia]. vm_compute. lia.
  - rewrite probedDirs_unfold.
    destruct (String.eqb dir (Path.dirname dir)); [simpl; lia|].
    simpl. destruct (PathFacts.dirname_shrinks dir) as [-> | [-> | Hlt]].
    + rewrite probedDirs_unfold. simpl. lia.
    + rewrite probedDirs_unfold. simpl. lia.
    + specialize (IH (Path.dirname dir)). lia.
Qed.

Lemma probedDirs_top (n : nat) (dir : string) :
  String.length dir ≤ n →
  Path.dirname (Nat.iter (length (probedDirs dir)) Path.dirname dir)
  = Nat.iter (length (probedDirs dir)) Path.dirname dir.
Proof.
  revert dir. induction n as [|n IH]; intros dir Hn.
  - destruct dir; [|simpl in Hn; lia]. reflexivity.
  - rewrite probedDirs_unfold.
    destruct (String.eqb_spec dir (Path.dirname dir)) as [Heq|Hne];
      [simpl; by rewrite <- Heq|].
    cbn [length]. rewrite Nat.iter_succ_r.
    destruct (PathFacts.dirname_shrinks dir) as [-> | [-> | Hlt]].
    + rewrite probedDirs_unfold. reflexivity.
    + rewrite probedDirs_unfold. reflexivity.
    + apply IH. lia.
Qed.

(** X1.  Memoisation changes no answer: in a file system and with
    configuration files that stay as they are, whatever calls have been
    made before from an empty cache, a call returns the candidates that the
    same call returns from the empty cache. *)
Theorem cache_is_transparent (calls : list (string * option string))
    (matcher : option PathsMatcher) (specifier : string)
    (fromFile : option string) :
  (dynamicPathsMatcher specifier fromFile
     (afterCalls calls {| tsconfigCache := ∅; tsconfigPathsMatcher := matcher |})).1
  = (dynamicPathsMatcher specifier fromFile
       {| tsconfigCache := ∅; tsconfigPathsMatcher := matcher |}).1.
Proof.
  rewrite consistent_answer.
  - by rewrite afterCalls_matcher.
  - apply afterCalls_consistent, consistent_empty.
Qed.

(** X3.  The cache is written once per directory: a call leaves the global
    matcher and every existing cache entry as they are, and the only
    directory that can get an entry is the directory of the requesting
    file. *)
Theorem cache_entries_are_write_once (specifier : string)
    (fromFile : option string) (st : State) :
  tsconfigPathsMatcher (dynamicPathsMatcher specifier fromFile st).2
  = tsconfigPathsMatcher st
  ∧ (∀ dir v, tsconfigCache st !! dir = Some v →
       tsconfigCache (dynamicPathsMatcher specifier fromFile st).2 !! dir = Some v)
  ∧ (∀ dir, tsconfigCache st !! dir = None →
       is_Some (tsconfigCache (dynamicPathsMatcher specifier fromFile st).2 !! dir) →
       ∃ f, fromFile = Some f ∧ f ≠ "" ∧ dir = Path.dirname f).
Proof. apply dynamicPathsMatcher_frame. Qed.

(** X4.  The upward walk ends, whatever the starting directory: beyond
    [length dir + 2] iterations more iterations change nothing, at most
    [length dir + 1] directories are probed, and the directory reached
    after the last probe is its own parent. *)
Theorem upward_walk_terminates (dir : string) :
  (∀ fuel, String.length dir + 2 ≤ fuel → searchUp fuel dir = findTsconfig dir)
  ∧ length (probedDirs dir) ≤ String.length dir + 1
  ∧ Path.dirname (Nat.iter (length (probedDirs dir)) Path.dirname dir)
    = Nat.iter (length (probedDirs dir)) Path.dirname dir.
Proof.
  split; [|split].
  - intros fuel Hfuel. apply searchUp_fuel; lia.
  - by eapply probedDirs_length.
  - by eapply probedDirs_top.
Qed.

End Facts.

(** X2.  A directory is walked once: after a request from a file, every
    later request from a file of the same directory is answered from the
    entry stored for the directory and leaves the store as it is, whatever
    the file system and the configuration files then are (a [tsconfig.json]
    added, changed or removed meanwhile is not seen). *)
Theorem cached_directory_never_rewalked (fs fs' : FileSystem)
    (configs configs' : GetTsconfig)
    (specifier specifier' fromFile fromFile' : string) (st : State) :
  fromFile ≠ "" → fromFile' ≠ "" →
  Path.dirname fromFile' = Path.dirname fromFile →
  ∃ entry,
    tsconfigCache (@dynamicPathsMatcher fs configs specifier (Some fromFile) st).2
      !! Path.dirname fromFile = Some entry
    ∧ @dynamicPathsMatcher fs' configs' specifier' (Some fromFile')
        (@dynamicPathsMatcher fs configs specifier (Some fromFile) st).2 =
        (Ok (match entry with Some e => paths e specifier' | None => [] end),
         (@dynamicPathsMatcher fs configs specifier (Some fromFile) st).2).
Proof.
  intros Hne Hne' Hdir.
  set (st1 := (@dynamicPathsMatcher fs configs specifier (Some fromFile) st).2).
  assert (∃ entry, tsconfigCache st1 !! Path.dirname fromFile = Some entry)
    as [entry Hentry].
  { subst st1.
    destruct (tsconfigCache st !! Path.dirname fromFile) as [entry|] eqn:Hc.
    - erewrite (@dynamicPathsMatcher_hit fs configs) by done. eauto.
    - rewrite (@dynamicPathsMatcher_miss fs configs) by done. simpl.
      rewrite lookup_insert_eq. eauto. }
  exists entry. split; [done|].
  apply (@dynamicPathsMatcher_hit fs' configs'); [done|]. by rewrite Hdir.
Qed.

(** *** Files at the top *)

Lemma dirnameScan_no_slash (l : list ascii) (i : nat) (ms : bool) :
  (∀ k c, k < i → l !! k = Some c → Str.isSlash c = false) →
  Path.dirnameScan l i ms = None.
Proof.
  revert i ms. induction l as [|c l IH]; intros [|i] ms Hl; simpl; try done.
  rewrite (Hl 0 c); [|lia|done].
  apply IH. intros k c' Hk Hc'. apply (Hl (S k) c'); [lia|done].
Qed.

Lemma slashFree_chars (s : string) (k : nat) (c : ascii) :
  Str.slashFree s = true → rev (Path.chars s) !! k = Some c →
  Str.isSlash c = false.
Proof.
  intros Hfree Hk. apply list_elem_of_lookup_2, list_elem_of_In, in_rev in Hk.
  induction s as [|x s IH]; [done|].
  simpl in Hfree. apply andb_prop in Hfree as [Hx Hs].
  destruct Hk as [<- | Hk]; [by apply negb_true_iff|by apply IH].
Qed.

Lemma chars_length (s : string) : length (Path.chars s) = String.length s.
Proof. induction s; simpl; [done|by f_equal]. Qed.

Lemma dirname_bare_name (name : string) :
  Str.slashFree name = true → Path.dirname name = ".".
Proof.
  intros Hfree. unfold Path.dirname. destruct name as [|c name]; [done|].
  simpl Str.isEmpty. cbv iota.
  rewrite dirnameScan_no_slash.
  - simpl in Hfree. apply andb_prop in Hfree as [Hc _].
    apply negb_true_iff in Hc. unfold Str.isSlash in Hc.
    apply Ascii.eqb_neq in Hc.
    unfold Str.startsWith. cbn [String.prefix].
    destruct (ascii_dec "/" c) as [<-|]; [done|done].
  - intros k x Hk Hx. by eapply slashFree_chars.
Qed.

Lemma dirname_top_level (name : string) :
  Str.slashFree name = true → Path.dirname ("/" +:+ name) = "/".
Proof.
  intros Hfree. unfold Path.dirname.
  change ("/" +:+ name) with (String "/" name).
  simpl Str.isEmpty. cbv iota.
  rewrite dirnameScan_no_slash; [by destruct name|].
  intros k x Hk Hx. simpl in Hk. rewrite Nat.sub_0_r in Hk.
  change (Path.chars (String "/" name)) with ("/"%char :: Path.chars name) in Hx.
  simpl in Hx. rewrite lookup_app_l in Hx
    by (rewrite length_rev, chars_length; lia).
  by eapply slashFree_chars.
Qed.

(** X5.  For a requesting file named by a bare name (relative to the
    working directory) or that lies in the root directory, no directory is
    probed: the first call stores the "no config" sentinel under [.] or [/]
    and returns no candidate, whatever the file system holds, a
    [tsconfig.json] in the working directory or in the root directory
    included. *)
Theorem top_level_file_probes_nothing (fs : FileSystem) (configs : GetTsconfig)
    (specifier name fromFile : string) (st : State) :
  name ≠ "" → Str.slashFree name = true →
  fromFile = name ∨ fromFile = "/" +:+ name →
  tsconfigCache st !! Path.dirname fromFile = None →
  (Path.dirname fromFile = "." ∨ Path.dirname fromFile = "/")
  ∧ probedDirs (Path.dirname fromFile) = []
  ∧ dynamicPathsMatcher specifier (Some fromFile) st =
      (Ok [],
       {| tsconfigCache := <[Path.dirname fromFile := None]> (tsconfigCache st);
          tsconfigPathsMatcher := tsconfigPathsMatcher st |}).
Proof.
  intros Hname Hfree Hfile Hmiss.
  assert (Path.dirname fromFile = "." ∨ Path.dirname fromFile = "/") as Hdir.
  { destruct Hfile as [-> | ->];
      [left; by apply dirname_bare_name|right; by apply dirname_top_level]. }
  assert (fromFile ≠ "") as Hne.
  { destruct Hfile as [-> | ->]; [done|]. by destruct name. }
  assert (probedDirs (Path.dirname fromFile) = []) as Hprobed.
  { rewrite probedDirs_unfold. by destruct Hdir as [-> | ->]. }
  split; [done|]. split; [done|].
  rewrite dynamicPathsMatcher_miss by done.
  rewrite findTsconfig_none; [done|]. rewrite Hprobed. by intros d ?%elem_of_nil.
Qed.

End TsconfigCacheFacts.


(** ** [loadTsconfig] *)

Module TsconfigLoadFacts.
Import TsconfigLoad.

Section Facts.
Context `{FileSystem} `{GetTsconfigLoader}.

(** The function by cases. *)
Lemma loadTsconfig_unfold (configPath : option string) (b : Bindings) :
  loadTsconfig configPath b =
    match configFor configPath with
    | Throw e => (Throw e, b)
    | Ok None => (Ok tt, b)
    | Ok (Some (path, config)) =>
        match createFilesMatcher path config with
        | Throw e => (Throw e, b)
        | Ok files =>
            match createPathsMatcher path config with
            | Throw e =>
                (Throw e,
                 {| fileMatcher := Some files; allowJs := allowJs b;
                    resolver := resolver b |})
            | Ok pathsMatcher =>
                (Ok tt,
                 {| fileMatcher := Some files;
                    allowJs := default false (compilerOptionsAllowJs config);
                    resolver :=
                      {| Tsconfig.tsconfigCache :=
                           Tsconfig.tsconfigCache (resolver b);
                         Tsconfig.tsconfigPathsMatcher := pathsMatcher |} |})
            end
        end
    end.
Proof.
  unfold loadTsconfig, configFor.
  destruct configPath as [[|c p]|];
    unfold mbind, eff_bind, exc_bind, try_catch, lift; simpl;
    [destruct getTsconfig as [[[path config]|]|e]; try done
    |destruct (parseTsconfig _) as [config|e]; try done;
     set (path := Path.resolve _ _ _)
    |destruct getTsconfig as [[[path config]|]|e]; try done];
    (destruct (createFilesMatcher path config); [|done]); simpl;
    by destruct (createPathsMatcher path config).
Qed.

(** X6.  The failures of [loadTsconfig]: with a configuration path, a file
    that cannot be parsed makes the call throw and leaves every binding as
    it is; without one, a failing search, or a search that finds nothing,
    makes the call return with every binding as it is; when the paths
    matcher cannot be made the call throws after [fileMatcher] has been
    assigned, [tsconfigPathsMatcher] and [allowJs] keeping their previous
    values; and the cache of the dynamic resolver is never touched. *)
Theorem loadTsconfig_failures (configPath : option string) (b : Bindings) :
  (∀ p e, configPath = Some p → p ≠ "" →
     parseTsconfig (Path.resolve cwd "" p) = Throw e →
     loadTsconfig configPath b = (Throw e, b))
  ∧ (configPath = None ∨ configPath = Some "" →
     getTsconfig = Ok None ∨ (∃ e, getTsconfig = Throw e) →
     loadTsconfig configPath b = (Ok tt, b))
  ∧ (∀ path config files e,
       configFor configPath = Ok (Some (path, config)) →
       createFilesMatcher path config = Ok files →
       createPathsMatcher path config = Throw e →
       loadTsconfig configPath b =
         (Throw e,
          {| fileMatcher := Some files; allowJs := allowJs b;
             resolver := resolver b |}))
  ∧ Tsconfig.tsconfigCache (resolver (loadTsconfig configPath b).2)
    = Tsconfig.tsconfigCache (resolver b).
Proof.
  rewrite loadTsconfig_unfold. split; [|split; [|split]].
  - intros p e -> Hp Hparse. destruct p as [|c p]; [done|].
    unfold configFor, mbind, exc_bind. by rewrite Hparse.
  - intros Hpath Hfound.
    assert (configFor configPath = Ok None) as ->; [|done].
    unfold configFor.
    destruct Hpath as [-> | ->]; by destruct Hfound as [-> | [e ->]].
  - intros path config files e -> Hfiles Hpaths. by rewrite Hfiles, Hpaths.
  - destruct (configFor configPath) as [[[path config]|]|e]; try done.
    destruct (createFilesMatcher path config); [|done].
    by destruct (createPathsMatcher path config).
Qed.

(** X7.  After a successful [loadTsconfig] the matcher of the loaded
    configuration is the global one: [fileMatcher] and [allowJs] ([false]
    when the configuration does not set it) are those of the configuration,
    the cache of the dynamic resolver is as before, and the dynamic
    resolver called without a requesting file, like the coordinator's
    candidate search for a request without parent file, answers with the
    loaded matcher's candidates (none when the configuration has no
    paths, also when a matcher was loaded before). *)
Theorem loaded_matcher_is_the_fallback (configPath : option string)
    (b : Bindings) (path : string) (config : TsConfigJson)
    (files : FileMatcher) (pathsMatcher : option PathsMatcher) :
  configFor configPath = Ok (Some (path, config)) →
  createFilesMatcher path config = Ok files →
  createPathsMatcher path config = Ok pathsMatcher →
  let b' := (loadTsconfig configPath b).2 in
  let fallback (specifier : string) :=
    match pathsMatcher with Some matcher => matcher specifier | None => [] end in
  (loadTsconfig configPath b).1 = Ok tt
  ∧ fileMatcher b' = Some files
  ∧ allowJs b' = default false (compilerOptionsAllowJs config)
  ∧ Tsconfig.tsconfigCache (resolver b') = Tsconfig.tsconfigCache (resolver b)
  ∧ (∀ specifier fromFile,
       fromFile = None ∨ fromFile = Some "" →
       Tsconfig.dynamicPathsMatcher specifier fromFile (resolver b')
       = (Ok (fallback specifier), resolver b'))
  ∧ (∀ request parent,
       ResolveFilename.parentFilename parent = None
       ∨ ResolveFilename.parentFilename parent = Some "" →
       ResolveFilename.possiblePathsFor request parent (resolver b')
       = (Ok (fallback request), resolver b')).
Proof.
  intros Hconfig Hfiles Hpaths b' fallback. subst b'.
  rewrite loadTsconfig_unfold, Hconfig, Hfiles, Hpaths. simpl.
  repeat split.
  - intros specifier fromFile HfromFile.
    by rewrite TsconfigFacts.dynamicPathsMatcher_no_file.
  - intros request parent Hparent. unfold ResolveFilename.possiblePathsFor.
    destruct Hparent as [-> | ->]; unfold mbind, eff_bind; simpl;
      unfold fallback; by destruct pathsMatcher.
Qed.

End Facts.

End TsconfigLoadFacts.


(** ** The coordinator: requests that skip aliases, and failures *)

Module ResolveEdgeFacts.
Import ResolveFilename.

Section Facts.
Context `{FileSystem} `{GetTsconfig} `{ResolverParts}.

Lemma possiblePathsFor_no_parent (request : string) (parent : option Parent)
    (st : Tsconfig.State) :
  parentFilename parent = None ∨ parentFilename parent = Some "" →
  possiblePathsFor request parent st =
    (Ok (match Tsconfig.tsconfigPathsMatcher st with
         | Some matcher => matcher request
         | None => []
         end), st).
Proof.
  intros Hparent. unfold possiblePathsFor.
  destruct Hparent as [-> | ->]; unfold mbind, eff_bind; simpl;
    by destruct (Tsconfig.tsconfigPathsMatcher st).
Qed.

Lemma possiblePathsFor_total (request : string) (parent : option Parent)
    (st : Tsconfig.State) :
  ∃ paths st', possiblePathsFor request parent st = (Ok paths, st').
Proof.
  destruct (parentFilename parent) as [[|c f]|] eqn:Hf.
  - rewrite possiblePathsFor_no_parent by auto. eauto.
  - destruct (ResolveFilenameFacts.possiblePathsFor_spec request (String c f)
                parent st Hf) as (dynamic & st' & _ & ->); [done|]. eauto.
  - rewrite possiblePathsFor_no_parent by auto. eauto.
Qed.

Lemma firstResolved_some (nextResolve : SimpleResolve) (paths : list string)
    (resolved : string) :
  firstResolved nextResolve paths = Some resolved →
  ∃ p, p ∈ paths ∧ nextResolve p = Ok resolved.
Proof.
  induction paths as [|p paths IH]; simpl; [done|].
  destruct (nextResolve p) as [r|e] eqn:Hp.
  - intros [= <-]. exists p. split; [apply list_elem_of_here|done].
  - intros (q & Hq & Hr)%IH. exists q.
    split; [by apply list_elem_of_further|done].
Qed.

(** [resolveTsPaths] by cases. *)
Lemma resolveTsPaths_cases (request : string) (parent : option Parent)
    (nextResolve : SimpleResolve) (st : Tsconfig.State) :
  match supportFileProtocol request with
  | Throw e => resolveTsPaths request parent nextResolve st = (Throw e, st)
  | Ok r =>
      if aliasApplies r parent then
        ∃ paths st',
          possiblePathsFor r parent st = (Ok paths, st')
          ∧ resolveTsPaths request parent nextResolve st =
              (match firstResolved nextResolve paths with
               | Some resolved => Ok resolved
               | None => nextResolve r
               end, st')
      else resolveTsPaths request parent nextResolve st = (nextResolve r, st)
  end.
Proof.
  destruct (supportFileProtocol request) as [r|e] eqn:Hr.
  - destruct (aliasApplies r parent) eqn:Halias.
    + destruct (possiblePathsFor_total r parent st) as (paths & st' & Hpaths).
      exists paths, st'. split; [done|].
      unfold resolveTsPaths, mbind, eff_bind, lift. rewrite Hr, Halias.
      unfold mbind, eff_bind in Hpaths. rewrite Hpaths.
      by destruct (firstResolved nextResolve paths).
    + unfold resolveTsPaths, mbind, eff_bind, lift. by rewrite Hr, Halias.
  - unfold resolveTsPaths, mbind, eff_bind, lift. by rewrite Hr.
Qed.

(** X10.  The failure of a candidate never surfaces: when [resolveTsPaths]
    throws, what it throws is what [fileURLToPath] throws on the request or
    what [nextResolve] throws on the request itself; a request that
    [nextResolve] resolves is always resolved; and a result is what
    [nextResolve] gives for the request or, when aliases apply, for some
    path. *)
Theorem candidate_failures_never_surface (request : string)
    (parent : option Parent) (nextResolve : SimpleResolve) (st : Tsconfig.State) :
  (∀ e, (resolveTsPaths request parent nextResolve st).1 = Throw e →
     supportFileProtocol request = Throw e
     ∨ ∃ r, supportFileProtocol request = Ok r ∧ nextResolve r = Throw e)
  ∧ (∀ r, supportFileProtocol request = Ok r →
       isOk (nextResolve r) = true →
       isOk (resolveTsPaths request parent nextResolve st).1 = true)
  ∧ (∀ resolved,
       (resolveTsPaths request parent nextResolve st).1 = Ok resolved →
       ∃ r p, supportFileProtocol request = Ok r
              ∧ nextResolve p = Ok resolved
              ∧ (p = r ∨ aliasApplies r parent = true)).
Proof.
  pose proof (resolveTsPaths_cases request parent nextResolve st) as Hcases.
  destruct (supportFileProtocol request) as [r|e0].
  - destruct (aliasApplies r parent) eqn:Halias.
    + destruct Hcases as (paths & st' & _ & ->). simpl.
      destruct (firstResolved nextResolve paths) as [resolved|] eqn:Hfirst.
      * split; [done|]. split; [done|]. intros ? [= <-].
        apply firstResolved_some in Hfirst as (p & _ & Hp). eauto 10.
      * split; [by eauto|]. split; [by intros ? [= <-]|].
        intros resolved Hr. exists r, r. eauto.
    + rewrite Hcases. simpl.
      split; [by eauto|]. split; [by intros ? [= <-]|].
      intros resolved Hr. exists r, r. eauto.
  - rewrite Hcases. simpl. split; [intros e [= <-]; by left|done].
Qed.

End Facts.

(** X8.  A request that is a file path (as it is, or once a [file:] URL has
    been turned into a path) is never resolved through aliases: the result
    is [nextResolve] of the path, the store is left as it is, and the result
    is the same whatever the file system, the configuration files and the
    loaded matchers are. *)
Theorem file_path_request_skips_aliases
    (fs : FileSystem) (configs : GetTsconfig) (parts : ResolverParts)
    (request r : string) (parent : option Parent) (nextResolve : SimpleResolve)
    (st : Tsconfig.State) :
  supportFileProtocol request = Ok r →
  isFilePath r = true →
  resolveTsPaths request parent nextResolve st = (nextResolve r, st)
  ∧ (∀ (fs' : FileSystem) (configs' : GetTsconfig) (st' : Tsconfig.State),
       (@resolveTsPaths fs' configs' parts request parent nextResolve st').1
       = nextResolve r).
Proof.
  intros Hr Hfile.
  assert (∀ (fs' : FileSystem) (configs' : GetTsconfig) st',
            @resolveTsPaths fs' configs' parts request parent nextResolve st' =
              (nextResolve r, st')) as Hskip.
  { intros fs' configs' st'.
    rewrite (@ResolveFilenameFacts.resolveTsPaths_skip fs' configs').
    - by rewrite Hr.
    - intros r' Hr'. rewrite Hr in Hr'. injection Hr' as <-.
      unfold aliasApplies. by rewrite Hfile. }
  split; [apply Hskip|]. intros fs' configs' st'. by rewrite Hskip.
Qed.

(** X9.  Without a parent file name (no parent, or a parent whose
    [filename] is undefined) the dynamic config resolver is not asked: for
    a bare specifier the candidates are those of the global matcher, none
    when no matcher is loaded; the first candidate that [nextResolve]
    resolves is the result, the request itself being resolved otherwise;
    and the store is left as it is. *)
Theorem no_parent_uses_global_matcher_only
    (fs : FileSystem) (configs : GetTsconfig) (parts : ResolverParts)
    (request r : string) (parent : option Parent) (nextResolve : SimpleResolve)
    (st : Tsconfig.State) :
  parentFilename parent = None →
  supportFileProtocol request = Ok r →
  isFilePath r = false →
  resolveTsPaths request parent nextResolve st =
    (match firstResolved nextResolve
             (match Tsconfig.tsconfigPathsMatcher st with
              | Some matcher => matcher r
              | None => []
              end) with
     | Some resolved => Ok resolved
     | None => nextResolve r
     end, st).
Proof.
  intros Hparent Hr Hbare.
  unfold resolveTsPaths, mbind at 1, eff_bind, lift. rewrite Hr.
  assert (aliasApplies r parent = true) as ->.
  { unfold aliasApplies. by rewrite Hbare, Hparent. }
  unfold mbind, eff_bind. rewrite possiblePathsFor_no_parent by auto.
  by destruct (firstResolved nextResolve _).
Qed.

End ResolveEdgeFacts.


(** ** Enum extraction: what an entry holds *)

Module ExtractionFacts.
Import ConstEnum ConstEnumFacts.

Section Facts.
Context `{FileSystem} `{JSRuntime} `{OxcParser}.

Lemma foldM_cons {A B : Type} (f : A → B → Exc A) (a : A) (b : B) (l : list B) :
  foldM f a (b :: l) = f a b ≫= λ a', foldM f a' l.
Proof. reflexivity. Qed.

Lemma exportedConstEnums_cons (node : Statement) (body : list Statement) :
  exportedConstEnums (node :: body) =
    match exportedConstEnumOf node with
    | Some decl => decl :: exportedConstEnums body
    | None => exportedConstEnums body
    end.
Proof. reflexivity. Qed.

Lemma statementStep_other (content : string)
    (acc : list EnumDeclaration * Defines) (node : Statement) :
  exportedConstEnumOf node = None → statementStep content acc node = Ok acc.
Proof.
  destruct node as [| [[decl|]|] |]; simpl; try done.
  by destruct (isConst decl).
Qed.

Lemma statementStep_enum (content : string)
    (acc : list EnumDeclaration * Defines) (node : Statement)
    (decl : TSEnumDeclaration) :
  exportedConstEnumOf node = Some decl →
  statementStep content acc node =
    statementStep content acc (ExportNamedDeclaration (Some (TSEnumDecl decl)))
  ∧ isConst decl = true.
Proof.
  destruct node as [| [[decl'|]|] |]; simpl; try done.
  destruct (isConst decl') eqn:Hconst; [|done]. intros [= <-]. simpl.
  by rewrite Hconst.
Qed.

(** The loop over [ast.body] sees the exported const enums only. *)
Lemma body_fold_filter (content : string) (body : list Statement)
    (acc : list EnumDeclaration * Defines) :
  foldM (statementStep content) acc body =
    foldM (statementStep content) acc
      ((λ decl, ExportNamedDeclaration (Some (TSEnumDecl decl)))
         <$> exportedConstEnums body).
Proof.
  revert acc. induction body as [|node body IH]; intros acc; [done|].
  rewrite exportedConstEnums_cons, foldM_cons.
  destruct (exportedConstEnumOf node) as [decl|] eqn:Hnode.
  - rewrite fmap_cons, foldM_cons.
    destruct (statementStep_enum content acc node decl Hnode) as [-> _].
    unfold mbind, exc_bind. destruct (statementStep _ _ _); [apply IH|done].
  - rewrite statementStep_other by done. apply IH.
Qed.

Lemma body_fold_declarations (content : string) (body : list Statement)
    (acc r : list EnumDeclaration * Defines) :
  foldM (statementStep content) acc body = Ok r →
  ∃ new, r.1 = acc.1 ++ new
         ∧ Forall2 extractedFrom new (exportedConstEnums body).
Proof.
  revert acc. induction body as [|node body IH]; intros acc.
  - intros [= <-]. exists []. by rewrite app_nil_r.
  - rewrite foldM_cons. unfold mbind, exc_bind.
    destruct (statementStep content acc node) as [acc1|] eqn:Hstep; [|done].
    intros (new & Hnew & Hall)%IH.
    rewrite exportedConstEnums_cons.
    destruct (exportedConstEnumOf node) as [decl|] eqn:Hnode.
    + destruct (statementStep_enum content acc node decl Hnode) as [Heq Hconst].
      rewrite Heq in Hstep. simpl in Hstep. rewrite Hconst in Hstep.
      unfold mbind, exc_bind in Hstep.
      destruct (enumMembersOf content acc.2 decl) as [m|] eqn:Hm; [|done].
      injection Hstep as <-. simpl in Hnew.
      exists ({| id := enumName decl; members := membersAcc m |} :: new).
      split; [by rewrite Hnew, <- app_assoc|].
      constructor; [|done]. split; [done|]. simpl.
      unfold enumMembersOf in Hm.
      apply members_fold in Hm as (_ & new' & Hnew' & Hnames & _); [|done].
      simpl in Hnew'. by subst new'.
    + rewrite statementStep_other in Hstep by done. injection Hstep as <-.
      eauto.
Qed.

(** *** [defines] *)

Lemma members_fold_defines (content id : string) (es : list TSEnumMember)
    (st r : MemberLoop) :
  foldM (memberStep content id) st es = Ok r →
  ∃ new, membersAcc r = membersAcc st ++ new
         ∧ definesAcc r = insertAll (definesAcc st) (entriesOf id new).
Proof.
  revert st. induction es as [|e es IH]; intros st; simpl.
  - intros [= <-]. exists []. by rewrite app_nil_r.
  - unfold mbind, exc_bind.
    destruct (memberStep content id st e) as [st1|] eqn:Hstep; [|done].
    apply memberStep_ok in Hstep as [v ->].
    intros (new & Hnew & Hdefs)%IH. simpl in Hnew, Hdefs.
    exists ({| name := memberKey e; value := v |} :: new).
    split; [by rewrite Hnew, <- app_assoc|]. by rewrite Hdefs.
Qed.

Lemma definesOf_snoc (ds : list EnumDeclaration) (d : EnumDeclaration) :
  definesOf (ds ++ [d]) = insertAll (definesOf ds) (entriesOf (id d) (members d)).
Proof.
  unfold definesOf, insertAll.
  rewrite bind_app, foldl_app. simpl. by rewrite app_nil_r.
Qed.

Lemma body_fold_defines (content : string) (body : list Statement)
    (acc r : list EnumDeclaration * Defines) :
  acc.2 = definesOf acc.1 →
  foldM (statementStep content) acc body = Ok r →
  r.2 = definesOf r.1.
Proof.
  intros Hacc. apply (foldM_invariant (λ acc, acc.2 = definesOf acc.1)); [done|].
  clear. intros acc node acc' _ Hacc.
  destruct node as [| [[decl|]|] |]; simpl; try by intros [= <-].
  destruct (isConst decl); [|by intros [= <-]].
  unfold mbind, exc_bind.
  destruct (enumMembersOf content acc.2 decl) as [m|] eqn:Hm; [|done].
  intros [= <-]. simpl. rewrite definesOf_snoc. simpl.
  unfold enumMembersOf in Hm.
  apply members_fold_defines in Hm as (new & Hnew & Hdefs).
  simpl in Hnew, Hdefs. subst new. by rewrite Hdefs, Hacc.
Qed.

Lemma parseBody_defines (filePath : string) (cache cache' : Cache)
    (data : EnumData) :
  parseBody filePath cache = (Ok data, cache') →
  defines data = definesOf (declarations data).
Proof.
  unfold parseBody, mbind, eff_bind, mret, eff_ret, lift, constEnumCacheSet,
    modifyStore.
  destruct (existsSync filePath); simpl; [|intros [= <- _]; reflexivity].
  destruct (readFileSync filePath) as [content|]; [|done].
  destruct (isTs (getLang filePath)); simpl; [|intros [= <- _]; reflexivity].
  destruct (parseSync _ _ _ _) as [body|]; [|done].
  destruct (foldM _ _ body) as [r|] eqn:Hfold; [|done].
  intros [= <- _]. simpl.
  by apply (body_fold_defines content body ([], ∅)).
Qed.

Lemma extractEntry_defines (filePath : string) :
  defines (extractEntry filePath)
  = definesOf (declarations (extractEntry filePath)).
Proof.
  unfold extractEntry, parseConstEnumsFromAST, mbind, eff_bind, getStore.
  rewrite lookup_empty. unfold try_catch.
  destruct (parseBody filePath ∅) as [[data|e] cache'] eqn:Hbody; [|done].
  simpl. by eapply parseBody_defines.
Qed.

Lemma insertAll_is_Some (defs : Defines)
    (entries : list (string * option string)) (k : string) :
  is_Some (defs !! k) ∨ k ∈ entries.*1 → is_Some (insertAll defs entries !! k).
Proof.
  revert defs. induction entries as [|[k' v'] entries IH]; intros defs; simpl.
  - intros [?|?%elem_of_nil]; done.
  - intros Hk. apply IH.
    destruct (decide (k' = k)) as [->|Hne].
    + left. rewrite lookup_insert_eq. eauto.
    + rewrite lookup_insert_ne by done.
      destruct Hk as [?|[?|?]%elem_of_cons]; [by left|done|by right].
Qed.

Lemma insertAll_unique (defs : Defines)
    (entries : list (string * option string)) (k : string) (v : option string) :
  (k, v) ∈ entries → NoDup entries.*1 → insertAll defs entries !! k = Some v.
Proof.
  revert defs. induction entries as [|[k' v'] entries IH]; intros defs;
    [by intros ?%elem_of_nil|].
  simpl. intros [[= <- <-]|Hin]%elem_of_cons [Hnot Hnodup]%NoDup_cons.
  - clear IH. revert defs Hnot Hnodup.
    induction entries as [|[k1 v1] entries IH]; intros defs Hnot Hnodup; simpl.
    + by rewrite lookup_insert_eq.
    + apply not_elem_of_cons in Hnot as [Hne Hnot].
      apply NoDup_cons in Hnodup as [_ Hnodup].
      rewrite insert_insert_ne by done. by apply IH.
  - by apply IH.
Qed.

Lemma entries_keys (ds : list EnumDeclaration) :
  (ds ≫= λ d, entriesOf (id d) (members d)).*1
  = ds ≫= λ d, (λ m, id d +:+ "." +:+ name m) <$> members d.
Proof.
  induction ds as [|d ds IH]; [done|].
  rewrite !bind_cons, fmap_app, IH. f_equal.
  unfold entriesOf. by rewrite <- list_fmap_compose.
Qed.

(** X13.  In the entry of a file, [defines] is determined by the extracted
    declarations: it is what inserting [JSON.stringify(value)] under
    [Enum.member] for every extracted member, in order, makes of the empty
    object; so every extracted member has a define, and when no key occurs
    twice the define of a member is [JSON.stringify] of its value. *)
Theorem defines_follow_the_members (filePath : string) (cache : Cache) :
  cacheConsistent cache →
  ∃ data,
    (parseConstEnumsFromAST filePath cache).1 = Ok data
    ∧ defines data = definesOf (declarations data)
    ∧ (∀ d m, d ∈ declarations data → m ∈ members d →
         is_Some (defines data !! (id d +:+ "." +:+ name m)))
    ∧ (NoDup (declarations data ≫= λ d,
                (λ m, id d +:+ "." +:+ name m) <$> members d) →
       ∀ d m, d ∈ declarations data → m ∈ members d →
         defines data !! (id d +:+ "." +:+ name m)
         = Some (jsonStringify (value m))).
Proof.
  intros Hcache.
  destruct (parseConstEnumsFromAST_consistent filePath cache Hcache)
    as (cache' & -> & _).
  exists (extractEntry filePath). split; [done|].
  pose proof (extractEntry_defines filePath) as Hdefs.
  split; [done|]. rewrite Hdefs. unfold definesOf. split.
  - intros d m Hd Hm. apply insertAll_is_Some. right.
    rewrite entries_keys. apply list_elem_of_bind. exists d. split; [|done].
    apply list_elem_of_fmap. eauto.
  - intros Hnodup d m Hd Hm. apply insertAll_unique.
    + apply list_elem_of_bind. exists d. split; [|done].
      apply list_elem_of_fmap. eauto.
    + by rewrite entries_keys.
Qed.

End Facts.

(** X11.  The entry of a TypeScript file is all or nothing: it is empty, or
    its declarations are the exported const enums of the program, one for
    one and in order, each with the keys of its members in order; statements
    that are not exported const enum declarations (a const enum that is not
    exported, an exported enum that is not const, anything else) have no
    part in it: a program with the same exported const enums gives the same
    entry. *)
Theorem extraction_is_all_or_nothing (fs : FileSystem) (runtime : JSRuntime)
    (parser : OxcParser) (filePath content : string) (body : list Statement)
    (cache : Cache) :
  cache !! filePath = None →
  existsSync filePath = true →
  isTs (getLang filePath) = true →
  readFileSync filePath = Ok content →
  parseSync filePath content
    (if String.eqb (getLang filePath) "dts" then "ts" else getLang filePath)
    "ts" = Ok body →
  ∃ data,
    (parseConstEnumsFromAST filePath cache).1 = Ok data
    ∧ (data = emptyEnumData
       ∨ Forall2 extractedFrom (declarations data) (exportedConstEnums body))
    ∧ (∀ (parser' : OxcParser) (body' : list Statement),
         @parseSync parser' filePath content
           (if String.eqb (getLang filePath) "dts" then "ts"
            else getLang filePath) "ts" = Ok body' →
         exportedConstEnums body' = exportedConstEnums body →
         (@parseConstEnumsFromAST fs runtime parser' filePath cache).1 = Ok data).
Proof.
  intros Hmiss Hexists Hts Hread Hparse.
  assert (∀ (parser' : OxcParser) (body' : list Statement),
            @parseSync parser' filePath content
              (if String.eqb (getLang filePath) "dts" then "ts"
               else getLang filePath) "ts" = Ok body' →
            (@parseConstEnumsFromAST fs runtime parser' filePath cache).1 =
              Ok (match foldM (statementStep content) ([], ∅) body' with
                  | Ok r => {| declarations := r.1; defines := r.2 |}
                  | Throw _ => emptyEnumData
                  end)) as Hany.
  { intros parser' body' Hparse'.
    unfold parseConstEnumsFromAST, mbind, eff_bind, getStore. rewrite Hmiss.
    unfold try_catch. rewrite (@parseBody_ts fs runtime parser' _ content) by done.
    rewrite Hparse'. by destruct (foldM (statementStep content) ([], ∅) body'). }
  eexists. split; [by apply Hany|]. split.
  - destruct (foldM (statementStep content) ([], ∅) body) as [r|e] eqn:Hfold;
      [|by left].
    right. simpl.
    by apply body_fold_declarations in Hfold as (new & -> & Hall).
  - intros parser' body' Hparse' Hsame. rewrite (Hany parser' body') by done.
    by rewrite (body_fold_filter content body'), Hsame,
      <- (body_fold_filter content body).
Qed.

(** X12.  A file that does not exist, or that is not a TypeScript file by
    its name, gets the empty entry, which is cached; the parser and the
    evaluator are not used for it (the entry is the same whatever they
    are), and a file that exists but cannot be read is no exception. *)
Theorem non_typescript_file_is_never_parsed (fs : FileSystem)
    (runtime : JSRuntime) (parser : OxcParser) (filePath : string)
    (cache : Cache) :
  cache !! filePath = None →
  existsSync filePath = false ∨ isTs (getLang filePath) = false →
  parseConstEnumsFromAST filePath cache =
    (Ok emptyEnumData, <[filePath := emptyEnumData]> cache)
  ∧ ∀ (runtime' : JSRuntime) (parser' : OxcParser),
      @parseConstEnumsFromAST fs runtime' parser' filePath cache =
        parseConstEnumsFromAST filePath cache.
Proof.
  intros Hmiss Hskip.
  assert (∀ (runtime' : JSRuntime) (parser' : OxcParser),
            @parseConstEnumsFromAST fs runtime' parser' filePath cache =
              (Ok emptyEnumData, <[filePath := emptyEnumData]> cache)) as Hany.
  { intros runtime' parser'.
    unfold parseConstEnumsFromAST, mbind, eff_bind, getStore. rewrite Hmiss.
    unfold try_catch, parseBody.
    destruct (existsSync filePath) eqn:Hexists; simpl; [|done].
    destruct Hskip as [|Hts]; [done|].
    unfold mbind at 1, eff_bind, lift.
    destruct (readFileSync filePath); [|done]. by rewrite Hts. }
  split; [apply Hany|]. intros runtime' parser'. by rewrite !Hany.
Qed.

End ExtractionFacts.


(** ** The cache of enum entries *)

Module EnumCacheFacts.
Import ConstEnum ConstEnumFacts.

Lemma extendsCache_refl (P : string → Prop) (cache : Cache) :
  extendsCache P cache cache.
Proof. split; [done|]. intros f -> [? ?]. done. Qed.

Lemma extendsCache_trans (P : string → Prop) (c1 c2 c3 : Cache) :
  extendsCache P c1 c2 → extendsCache P c2 c3 → extendsCache P c1 c3.
Proof.
  intros [Hk12 Hn12] [Hk23 Hn23]. split.
  - intros f d Hf. by apply Hk23, Hk12.
  - intros f Hnone Hsome. destruct (c2 !! f) as [d|] eqn:Hc2.
    + apply Hn12; [done|]. rewrite Hc2. eauto.
    + by apply Hn23.
Qed.

Lemma extendsCache_insert (P : string → Prop) (cache : Cache) (f : string)
    (data : EnumData) :
  cache !! f = None → P f → extendsCache P cache (<[f := data]> cache).
Proof.
  intros Hmiss HP. split.
  - intros g d Hg. rewrite lookup_insert_ne; [done|]. congruence.
  - intros g Hnone Hsome. destruct (decide (f = g)) as [<-|Hne]; [done|].
    rewrite lookup_insert_ne in Hsome by done. rewrite Hnone in Hsome.
    by destruct Hsome.
Qed.

Lemma extendsCache_weaken (P Q : string → Prop) (c1 c2 : Cache) :
  (∀ f, P f → Q f) → extendsCache P c1 c2 → extendsCache Q c1 c2.
Proof. intros HPQ [Hk Hn]. split; [done|]. intros f ? ?. by apply HPQ, Hn. Qed.

(** A loop over a store: a relation that every step keeps, whether it
    returns or throws, holds between the stores before and after the loop. *)
Lemma foldM_store {S A B : Type} (R : S → S → Prop) (f : A → B → Eff S A)
    (l : list B) (a : A) (s : S) :
  (∀ s, R s s) →
  (∀ s1 s2 s3, R s1 s2 → R s2 s3 → R s1 s3) →
  (∀ a b s, b ∈ l → R s (f a b s).2) →
  R s (foldM f a l s).2.
Proof.
  intros Hrefl Htrans Hstep. revert a s.
  induction l as [|b l IH]; intros a s; simpl; [done|].
  unfold mbind, eff_bind.
  pose proof (Hstep a b s (list_elem_of_here _ _)) as Hb.
  destruct (f a b s) as [[a'|e] s']; simpl in *; [|done].
  eapply Htrans; [exact Hb|]. apply IH.
  intros a0 b0 s0 Hb0. apply Hstep. by apply list_elem_of_further.
Qed.

Lemma endsWith_append (a p : string) : Str.endsWith (a +:+ p) p = true.
Proof.
  unfold Str.endsWith. rewrite append_length.
  replace (String.length a + String.length p - String.length p)
    with (String.length a) by lia.
  rewrite drop_append, String.eqb_refl, andb_true_r.
  apply Nat.leb_le. lia.
Qed.

Section Facts.
Context `{FileSystem} `{JSRuntime} `{OxcParser}.

Lemma parseConstEnumsFromAST_store (filePath : string) (cache : Cache) :
  extendsCache (λ f, f = filePath) cache (parseConstEnumsFromAST filePath cache).2
  ∧ is_Some ((parseConstEnumsFromAST filePath cache).2 !! filePath).
Proof.
  destruct (cache !! filePath) as [data|] eqn:Hc.
  - rewrite (parseConstEnumsFromAST_hit _ _ data) by done. simpl.
    split; [apply extendsCache_refl|]. rewrite Hc. eauto.
  - rewrite parseConstEnumsFromAST_miss by done. simpl.
    split; [by apply extendsCache_insert|]. rewrite lookup_insert_eq. eauto.
Qed.

Lemma resolveEnumPath_candidates (importPath currentFile enumFile : string) :
  enumFile ∈ resolveEnumPath importPath currentFile → declaringFile enumFile.
Proof.
  unfold resolveEnumPath. intros [Hexists Hin]%list_elem_of_filter.
  split; [done|]. set (resolved := Path.resolve _ _ _) in Hin.
  assert (∀ a, Str.endsWith (a +:+ ".d.ts") ".ts" = true) as Hdts.
  { intros a. change ".d.ts" with (".d" +:+ ".ts").
    rewrite <- append_assoc. apply endsWith_append. }
  apply elem_of_app in Hin as [Hin|Hin].
  - repeat (apply elem_of_cons in Hin as [-> | Hin]);
      [apply Hdts|apply endsWith_append|
       change "/index.d.ts" with ("/index" +:+ ".d.ts");
       rewrite <- append_assoc; apply Hdts|
       change "/index.ts" with ("/index" +:+ ".ts");
       rewrite <- append_assoc; apply endsWith_append|].
    by apply elem_of_nil in Hin.
  - destruct (Str.endsWith resolved ".js"); [|by apply elem_of_nil in Hin].
    repeat (apply elem_of_cons in Hin as [-> | Hin]);
      [apply Hdts|apply endsWith_append|].
    by apply elem_of_nil in Hin.
Qed.

Lemma enumFileStep_store (code : string) (specifiers : list ImportSpecifierNode)
    (acc : Rewriting) (enumFile : string) (cache : Cache) :
  declaringFile enumFile →
  extendsCache declaringFile cache
    (enumFileStep code specifiers acc enumFile cache).2.
Proof.
  intros Hfile. unfold enumFileStep, mbind, eff_bind, lift.
  destruct (parseConstEnumsFromAST_store enumFile cache) as [Hstore _].
  destruct (parseConstEnumsFromAST enumFile cache) as [[data|e] cache'];
    simpl in *.
  - destruct (foldM (specifierStep code data) acc specifiers); simpl;
      (eapply extendsCache_weaken; [|exact Hstore]); by intros f ->.
  - eapply extendsCache_weaken; [|exact Hstore]. by intros f ->.
Qed.

Lemma nodeStep_store (filePath code : string) (acc : Rewriting)
    (node : Statement) (cache : Cache) :
  extendsCache declaringFile cache (nodeStep filePath code acc node cache).2.
Proof.
  destruct node as [importPath specifiers| |]; [|apply extendsCache_refl..].
  simpl. apply foldM_store;
    [apply extendsCache_refl|apply extendsCache_trans|].
  intros acc' enumFile s' Hin. apply enumFileStep_store.
  by eapply resolveEnumPath_candidates.
Qed.

Lemma transformBody_store (filePath code : string) (cache : Cache) :
  extendsCache declaringFile cache (transformBody filePath code cache).2.
Proof.
  unfold transformBody. unfold mbind at 1. unfold eff_bind at 1. unfold lift.
  destruct (parseSync _ _ _ _) as [body|e]; [|apply extendsCache_refl].
  unfold mbind at 1. unfold eff_bind at 1.
  pose proof (foldM_store (extendsCache declaringFile) (nodeStep filePath code)
                body (MagicString.create code, false) cache
                (extendsCache_refl _) (extendsCache_trans _)) as Hfold.
  destruct (foldM (nodeStep filePath code) _ body cache) as [[r|e] cache'];
    simpl in *.
  - destruct (negb r.2); [|destruct (MagicString.generateMap _ _ _)];
      simpl; apply Hfold; intros acc node st _; apply nodeStep_store.
  - apply Hfold; intros acc node s _; apply nodeStep_store.
Qed.

(** X14.  The cache of enum entries is written once per file: a call of
    [parseConstEnumsFromAST] keeps every entry as it is and adds the entry
    of its file when the file has none; a call of [transformConstEnum],
    whether it rewrites, returns [None] or meets an exception, keeps every
    entry as it is, and the files it adds entries for exist and have names
    that end in [.ts]. *)
Theorem enum_cache_is_write_once (filePath code : string) (cache : Cache) :
  extendsCache (λ f, f = filePath) cache (parseConstEnumsFromAST filePath cache).2
  ∧ is_Some ((parseConstEnumsFromAST filePath cache).2 !! filePath)
  ∧ extendsCache declaringFile cache (transformConstEnum filePath code cache).2.
Proof.
  destruct (parseConstEnumsFromAST_store filePath cache) as [Hstore Hsome].
  split; [done|]. split; [done|].
  unfold transformConstEnum.
  destruct (isSourcePath filePath); simpl; [|apply extendsCache_refl].
  destruct (Str.includes code "import "); simpl; [|apply extendsCache_refl].
  unfold try_catch. pose proof (transformBody_store filePath code cache) as Hbody.
  by destruct (transformBody filePath code cache) as [[r|e] cache'].
Qed.

End Facts.

End EnumCacheFacts.


(** ** The cache, the walk and [loadTsconfig] on the example workspace *)

Module TsconfigCacheExamples.
Import Tsconfig Scenario TsconfigCacheFacts.

(** A second file of package B's [src], asked for after the workspace has
    lost all its files. *)
Lemma cached_directory_never_rewalked_witness :
  ∃ entry,
    tsconfigCache
      (@dynamicPathsMatcher workspaceFS workspaceConfigs "@b/util"
         (Some "/ws/packages/b/src/main.ts") freshState).2
      !! Path.dirname "/ws/packages/b/src/main.ts" = Some entry
    ∧ @dynamicPathsMatcher emptyFS noConfigs "@b/util"
        (Some "/ws/packages/b/src/other.ts")
        (@dynamicPathsMatcher workspaceFS workspaceConfigs "@b/util"
           (Some "/ws/packages/b/src/main.ts") freshState).2 =
        (Ok (match entry with Some e => paths e "@b/util" | None => [] end),
         (@dynamicPathsMatcher workspaceFS workspaceConfigs "@b/util"
            (Some "/ws/packages/b/src/main.ts") freshState).2).
Proof.
  apply (cached_directory_never_rewalked workspaceFS emptyFS workspaceConfigs
           noConfigs "@b/util" "@b/util" "/ws/packages/b/src/main.ts"
           "/ws/packages/b/src/other.ts" freshState);
    [discriminate | discriminate | reflexivity].
Defined.

(** The sentinel stored for [/bad] is still there after a request from
    [/srv/app]. *)
Lemma cache_entries_are_write_once_witness :
  tsconfigCache
    (@dynamicPathsMatcher workspaceFS workspaceConfigs "@root/x"
       (Some "/srv/app/main.ts")
       {| tsconfigCache := <["/bad" := None]> ∅;
          tsconfigPathsMatcher := None |}).2 !! "/bad" = Some None.
Proof.
  apply (proj1 (proj2 (@cache_entries_are_write_once workspaceFS workspaceConfigs
                         "@root/x" (Some "/srv/app/main.ts")
                         {| tsconfigCache := <["/bad" := None]> ∅;
                            tsconfigPathsMatcher := None |})) "/bad" None).
  reflexivity.
Defined.

Lemma upward_walk_terminates_witness :
  @searchUp workspaceFS 100 "/ws/packages/b/src"
  = @findTsconfig workspaceFS "/ws/packages/b/src".
Proof.
  apply (proj1 (@upward_walk_terminates workspaceFS "/ws/packages/b/src") 100).
  simpl. lia.
Defined.

(** A file of the root directory, which has a [tsconfig.json] in the
    workspace. *)
Lemma top_level_file_probes_nothing_witness :
  (Path.dirname "/main.ts" = "." ∨ Path.dirname "/main.ts" = "/")
  ∧ @probedDirs (Path.dirname "/main.ts") = []
  ∧ @dynamicPathsMatcher workspaceFS workspaceConfigs "@root/x"
      (Some "/main.ts") freshState =
      (Ok [],
       {| tsconfigCache :=
            <[Path.dirname "/main.ts" := None]> (tsconfigCache freshState);
          tsconfigPathsMatcher := tsconfigPathsMatcher freshState |}).
Proof.
  apply (top_level_file_probes_nothing workspaceFS workspaceConfigs "@root/x"
           "main.ts" "/main.ts" freshState);
    [discriminate | reflexivity | right; reflexivity | reflexivity].
Defined.

(** [/bad/tsconfig.json] cannot be parsed. *)
Lemma loadTsconfig_failures_witness :
  @TsconfigLoad.loadTsconfig workspaceFS workspaceConfigs workspaceLoader
    (Some "/bad/tsconfig.json") freshBindings
  = (Throw (HostError "parseTsconfig"), freshBindings).
Proof.
  apply (proj1 (@TsconfigLoadFacts.loadTsconfig_failures workspaceFS
                  workspaceConfigs workspaceLoader (Some "/bad/tsconfig.json")
                  freshBindings) "/bad/tsconfig.json" (HostError "parseTsconfig"));
    [reflexivity | discriminate | reflexivity].
Defined.

(** The configuration of package A, found from the working directory. *)
Lemma loaded_matcher_is_the_fallback_witness :
  (@dynamicPathsMatcher workspaceFS workspaceConfigs "@a/util" None
     (TsconfigLoad.resolver
        (@TsconfigLoad.loadTsconfig workspaceFS workspaceConfigs workspaceLoader
           None freshBindings).2)).1
  = Ok ["/ws/src/util"].
Proof.
  destruct (@TsconfigLoadFacts.loaded_matcher_is_the_fallback workspaceFS
              workspaceConfigs workspaceLoader None freshBindings
              "/ws/tsconfig.json" configA "/ws/tsconfig.json" (Some matcherA)
              eq_refl eq_refl eq_refl)
    as (_ & _ & _ & _ & Hdynamic & _).
  rewrite (Hdynamic "@a/util" None (or_introl eq_refl)). reflexivity.
Defined.

End TsconfigCacheExamples.


(** ** Requests that skip aliases, on the example workspace *)

Module ResolveEdgeExamples.
Import ResolveFilename Scenario ResolveEdgeFacts.

Lemma file_path_request_skips_aliases_witness :
  @resolveTsPaths workspaceFS workspaceConfigs specParts "./mod" nestedParent
    (resolverOf workspaceModules) stateWithA
  = (resolverOf workspaceModules "./mod", stateWithA)
  ∧ (∀ (fs' : FileSystem) (configs' : GetTsconfig) (st' : Tsconfig.State),
       (@resolveTsPaths fs' configs' specParts "./mod" nestedParent
          (resolverOf workspaceModules) st').1
       = resolverOf workspaceModules "./mod").
Proof.
  apply (file_path_request_skips_aliases workspaceFS workspaceConfigs specParts
           "./mod" "./mod" nestedParent (resolverOf workspaceModules) stateWithA);
    reflexivity.
Defined.

(** A request without parent, with package A's matcher loaded. *)
Lemma no_parent_uses_global_matcher_only_witness :
  @resolveTsPaths workspaceFS workspaceConfigs specParts "@a/util" None
    (resolverOf workspaceModules) stateWithA
  = (Ok "/ws/src/util.ts", stateWithA).
Proof.
  exact (no_parent_uses_global_matcher_only workspaceFS workspaceConfigs specParts
           "@a/util" "@a/util" None (resolverOf workspaceModules) stateWithA
           eq_refl eq_refl eq_refl).
Defined.

(** A request that nothing resolves: the failure is that of the request. *)
Lemma candidate_failures_never_surface_witness :
  @supportFileProtocol specParts "@b/none" = Throw (HostError "MODULE_NOT_FOUND")
  ∨ ∃ r, @supportFileProtocol specParts "@b/none" = Ok r
         ∧ resolverOf workspaceModules r = Throw (HostError "MODULE_NOT_FOUND").
Proof.
  apply (proj1 (@candidate_failures_never_surface workspaceFS workspaceConfigs
                  specParts "@b/none" nestedParent (resolverOf workspaceModules)
                  freshState) (HostError "MODULE_NOT_FOUND")).
  reflexivity.
Defined.

End ResolveEdgeExamples.


(** ** Entries and the cache on example files *)

Module ExtractionExamples.
Import ConstEnum Scenario ExtractionFacts EnumCacheFacts.

#[local] Existing Instance enumFS.
#[local] Existing Instance integerRuntime.
#[local] Existing Instance enumParser.

Lemma extraction_is_all_or_nothing_witness :
  ∃ data,
    (@parseConstEnumsFromAST enumFS integerRuntime enumParser
       "/ws/src/color.ts" ∅).1 = Ok data
    ∧ (data = emptyEnumData
       ∨ Forall2 extractedFrom (declarations data)
           (exportedConstEnums
              [ExportNamedDeclaration (Some (TSEnumDecl colorDecl))]))
    ∧ (∀ (parser' : OxcParser) (body' : list Statement),
         @parseSync parser' "/ws/src/color.ts" colorSource
           (if String.eqb (getLang "/ws/src/color.ts") "dts" then "ts"
            else getLang "/ws/src/color.ts") "ts" = Ok body' →
         exportedConstEnums body'
         = exportedConstEnums
             [ExportNamedDeclaration (Some (TSEnumDecl colorDecl))] →
         (@parseConstEnumsFromAST enumFS integerRuntime parser'
            "/ws/src/color.ts" ∅).1 = Ok data).
Proof.
  apply (extraction_is_all_or_nothing enumFS integerRuntime enumParser
           "/ws/src/color.ts" colorSource
           [ExportNamedDeclaration (Some (TSEnumDecl colorDecl))] ∅);
    reflexivity.
Defined.

(** A file that does not exist. *)
Lemma non_typescript_file_is_never_parsed_witness :
  @parseConstEnumsFromAST enumFS integerRuntime enumParser "/ws/src/none.ts" ∅ =
    (Ok emptyEnumData, <["/ws/src/none.ts" := emptyEnumData]> ∅)
  ∧ ∀ (runtime' : JSRuntime) (parser' : OxcParser),
      @parseConstEnumsFromAST enumFS runtime' parser' "/ws/src/none.ts" ∅ =
        @parseConstEnumsFromAST enumFS integerRuntime enumParser
          "/ws/src/none.ts" ∅.
Proof.
  apply (non_typescript_file_is_never_parsed enumFS integerRuntime enumParser
           "/ws/src/none.ts" ∅); [reflexivity | left; reflexivity].
Defined.

Lemma defines_follow_the_members_witness :
  ∃ data,
    (@parseConstEnumsFromAST enumFS integerRuntime enumParser
       "/ws/src/color.ts" ∅).1 = Ok data
    ∧ defines data = definesOf (declarations data)
    ∧ (∀ d m, d ∈ declarations data → m ∈ members d →
         is_Some (defines data !! (id d +:+ "." +:+ name m)))
    ∧ (NoDup (declarations data ≫= λ d,
                (λ m, id d +:+ "." +:+ name m) <$> members d) →
       ∀ d m, d ∈ declarations data → m ∈ members d →
         defines data !! (id d +:+ "." +:+ name m)
         = Some (jsonStringify (value m))).
Proof.
  apply (@defines_follow_the_members enumFS integerRuntime enumParser
           "/ws/src/color.ts" ∅).
  apply ConstEnumFacts.cacheConsistent_empty.
Defined.

(** An entry is still there after a pass over [main.ts]. *)
Lemma enum_cache_is_write_once_witness :
  (@transformConstEnum enumFS integerRuntime enumParser "/ws/src/main.ts"
     mainSource (<["/ws/src/good.ts" := emptyEnumData]> ∅)).2
    !! "/ws/src/good.ts" = Some emptyEnumData.
Proof.
  apply (proj1 (proj2 (proj2 (@enum_cache_is_write_once enumFS integerRuntime
                                enumParser "/ws/src/main.ts" mainSource
                                (<["/ws/src/good.ts" := emptyEnumData]> ∅))))
           "/ws/src/good.ts" emptyEnumData).
  reflexivity.
Defined.

End ExtractionExamples.


(** ** [magic-string]: replacements in any order *)

Module MagicStringFacts.
Import MagicString ConstEnumFacts.
Import ConstEnum (rewritten).

Lemma substring_zero_length (s : string) (a : nat) : String.substring a 0 s = "".
Proof. revert a. induction s as [|c s IH]; intros [|a]; simpl; auto. Qed.

Lemma slice_beyond (s : string) (a b : nat) : b ≤ a → Str.slice s a b = "".
Proof.
  intros Hba. unfold Str.slice. replace (b - a) with 0 by lia.
  apply substring_zero_length.
Qed.

Lemma substring_all (s : string) : String.substring 0 (String.length s) s = s.
Proof. induction s as [|c s IH]; simpl; [done|by rewrite IH]. Qed.

Lemma slice_full (s : string) : Str.slice s 0 (String.length s) = s.
Proof. unfold Str.slice. rewrite Nat.sub_0_r. apply substring_all. Qed.

Lemma slice_to_end (s : string) (a : nat) :
  Str.slice s a (String.length s) = Str.drop a s.
Proof.
  unfold Str.slice. revert a.
  induction s as [|c s IH]; intros [|a]; simpl; try done.
  by rewrite substring_all.
Qed.

Lemma piece_content (orig : string) (a b : nat) :
  foldr (λ c acc, content c +:+ acc) "" (piece orig a b) = Str.slice orig a b.
Proof.
  unfold piece. destruct (Nat.ltb_spec a b); simpl.
  - induction (Str.slice orig a b) as [|x s IH]; [done|].
    rewrite append_cons. by f_equal.
  - by rewrite slice_beyond by lia.
Qed.

Lemma append_empty_r (s : string) : s +:+ "" = s.
Proof. induction s as [|x s IH]; [done|]. rewrite append_cons. by f_equal. Qed.

Lemma foldr_content_app (cs1 cs2 : list Chunk) :
  foldr (λ c acc, content c +:+ acc) "" (cs1 ++ cs2) =
    foldr (λ c acc, content c +:+ acc) "" cs1
    +:+ foldr (λ c acc, content c +:+ acc) "" cs2.
Proof.
  induction cs1 as [|c cs1 IH]; simpl; [done|].
  by rewrite IH, append_assoc.
Qed.

Lemma chunksOf_rendered (orig : string) (from : nat) (edits : list Edit) :
  foldr (λ c acc, content c +:+ acc) "" (chunksOf orig from edits)
  = rendered orig from edits.
Proof.
  revert from. induction edits as [|e rest IH]; intros from; simpl.
  - rewrite piece_content. apply slice_to_end.
  - rewrite foldr_content_app, piece_content. simpl. by rewrite IH.
Qed.

(** *** [_split] and the edition of a range *)

Lemma split_before (orig : string) (k : nat) (c : Chunk) (rest : list Chunk) :
  chunkEnd c ≤ k →
  split orig k (c :: rest) = rest' ← split orig k rest; Ok (c :: rest').
Proof.
  intros Hc. simpl.
  replace (k <? chunkEnd c)%nat with false
    by (symmetry; apply Nat.ltb_ge; lia).
  by rewrite andb_false_r.
Qed.

Lemma split_after_all (orig : string) (k : nat) (cs : list Chunk) :
  Forall (λ c, k ≤ chunkStart c) cs → split orig k cs = Ok cs.
Proof.
  induction 1 as [|c cs Hc _ IH]; simpl; [done|].
  replace (chunkStart c <? k)%nat with false
    by (symmetry; apply Nat.ltb_ge; lia).
  simpl. by rewrite IH.
Qed.

Lemma split_prefix (orig : string) (k : nat) (pre cs : list Chunk) :
  Forall (λ c, chunkEnd c ≤ k) pre →
  split orig k (pre ++ cs) = cs' ← split orig k cs; Ok (pre ++ cs').
Proof.
  induction 1 as [|c pre Hc _ IH]; simpl app.
  - by destruct (split orig k cs).
  - rewrite split_before by done. rewrite IH.
    by destruct (split orig k cs).
Qed.

Lemma editRange_before (st en : nat) (new : string) (c : Chunk)
    (rest : list Chunk) :
  chunkStart c < st →
  editRange st en new (c :: rest) = c :: editRange st en new rest.
Proof.
  intros Hc. simpl.
  replace (chunkStart c =? st)%nat with false
    by (symmetry; apply Nat.eqb_neq; lia).
  replace (st <? chunkStart c)%nat with false
    by (symmetry; apply Nat.ltb_ge; lia).
  done.
Qed.

Lemma editRange_prefix (st en : nat) (new : string) (pre cs : list Chunk) :
  Forall (λ c, chunkStart c < st) pre →
  editRange st en new (pre ++ cs) = pre ++ editRange st en new cs.
Proof.
  induction 1 as [|c pre Hc _ IH]; simpl app; [done|].
  rewrite editRange_before by done. by rewrite IH.
Qed.

Lemma editRange_after_all (st en : nat) (new : string) (cs : list Chunk) :
  st < en →
  Forall (λ c, en ≤ chunkStart c ∧ chunkStart c < chunkEnd c) cs →
  editRange st en new cs = cs.
Proof.
  intros Hlt. induction 1 as [|c cs [Hc1 Hc2] _ IH]; simpl; [done|].
  replace (chunkStart c =? st)%nat with false
    by (symmetry; apply Nat.eqb_neq; lia).
  replace (chunkEnd c <=? en)%nat with false
    by (symmetry; apply Nat.leb_gt; lia).
  rewrite andb_false_r, IH. by destruct c.
Qed.

Lemma applyEdit_prefix (orig : string) (e : Edit) (pre cs : list Chunk) :
  editStart e < editEnd e →
  Forall (λ c, chunkStart c < chunkEnd c ∧ chunkEnd c ≤ editStart e) pre →
  applyEdit orig e (pre ++ cs) = cs' ← applyEdit orig e cs; Ok (pre ++ cs').
Proof.
  intros Hlt Hpre. unfold applyEdit.
  rewrite split_prefix by (eapply Forall_impl; [exact Hpre|]; simpl; lia).
  destruct (split orig (editStart e) cs) as [cs1|]; simpl; [|done].
  rewrite split_prefix by (eapply Forall_impl; [exact Hpre|]; simpl; lia).
  destruct (split orig (editEnd e) cs1) as [cs2|]; simpl; [|done].
  rewrite editRange_prefix; [done|].
  eapply Forall_impl; [exact Hpre|]. simpl. lia.
Qed.

Lemma applyEdit_gap (orig : string) (e : Edit) (from b : nat)
    (tail : list Chunk) :
  from ≤ editStart e → editStart e < editEnd e → editEnd e ≤ b →
  Forall (λ c, b ≤ chunkStart c ∧ chunkStart c < chunkEnd c) tail →
  applyEdit orig e (piece orig from b ++ tail) =
    Ok (piece orig from (editStart e) ++ editedChunk e
        :: piece orig (editEnd e) b ++ tail).
Proof.
  intros Hfrom Hlt Hb Htail. destruct e as [st en new]. simpl in *.
  unfold applyEdit. simpl editStart. simpl editEnd. simpl editText.
  assert (split orig st (piece orig from b ++ tail) =
            Ok (piece orig from st
                ++ {| chunkStart := st; chunkEnd := b;
                      content := Str.slice orig st b; edited := false |}
                :: tail)) as ->.
  { unfold piece. replace (from <? b)%nat with true
      by (symmetry; apply Nat.ltb_lt; lia).
    destruct (Nat.ltb_spec from st) as [Hlt'|Hge].
    - simpl. replace (from <? st)%nat with true
        by (symmetry; apply Nat.ltb_lt; lia).
      replace (st <? b)%nat with true by (symmetry; apply Nat.ltb_lt; lia).
      done.
    - assert (from = st) as -> by lia. simpl.
      rewrite Nat.ltb_irrefl. simpl.
      rewrite split_after_all; [done|].
      eapply Forall_impl; [exact Htail|]. simpl. lia. }
  simpl.
  assert (split orig en
            (piece orig from st
             ++ {| chunkStart := st; chunkEnd := b;
                   content := Str.slice orig st b; edited := false |}
             :: tail) =
          Ok (piece orig from st
              ++ {| chunkStart := st; chunkEnd := en;
                    content := Str.slice orig st en; edited := false |}
              :: piece orig en b ++ tail)) as ->.
  { rewrite split_prefix.
    2:{ unfold piece. destruct (from <? st)%nat; repeat constructor.
        simpl. lia. }
    assert (split orig en
              ({| chunkStart := st; chunkEnd := b;
                  content := Str.slice orig st b; edited := false |} :: tail) =
            Ok ({| chunkStart := st; chunkEnd := en;
                   content := Str.slice orig st en; edited := false |}
                :: piece orig en b ++ tail)) as ->; [|done].
    unfold piece. simpl.
    replace (st <? en)%nat with true by (symmetry; apply Nat.ltb_lt; lia).
    destruct (Nat.ltb_spec en b) as [Hlt'|Hge]; simpl.
    - done.
    - assert (en = b) as -> by lia.
      rewrite split_after_all; [done|].
      eapply Forall_impl; [exact Htail|]. simpl. lia. }
  simpl. f_equal.
  rewrite editRange_prefix.
  2:{ unfold piece. destruct (Nat.ltb_spec from st); repeat constructor.
      simpl. lia. }
  f_equal. simpl. rewrite Nat.eqb_refl. f_equal.
  unfold piece. destruct (Nat.ltb_spec en b) as [Hlt'|Hge]; simpl.
  - replace (en =? st)%nat with false by (symmetry; apply Nat.eqb_neq; lia).
    replace (b <=? en)%nat with false by (symmetry; apply Nat.leb_gt; lia).
    rewrite andb_false_r. f_equal.
    apply editRange_after_all; [done|].
    eapply Forall_impl; [exact Htail|]. simpl. lia.
  - apply editRange_after_all; [done|].
    eapply Forall_impl; [exact Htail|]. simpl. lia.
Qed.


Lemma ordered_end (from len : nat) (edits : list Edit) :
  ordered from len edits → from ≤ len.
Proof.
  revert from. induction edits as [|e rest IH]; intros from; simpl; [done|].
  intros (? & ? & Hrest). apply IH in Hrest. lia.
Qed.

Lemma piece_bounds (orig : string) (a b from : nat) :
  from ≤ a →
  Forall (λ c, from ≤ chunkStart c ∧ chunkStart c < chunkEnd c) (piece orig a b).
Proof.
  intros Ha. unfold piece. destruct (Nat.ltb_spec a b); repeat constructor; simpl; lia.
Qed.

Lemma chunksOf_bounds (orig : string) (from : nat) (edits : list Edit) :
  ordered from (String.length orig) edits →
  Forall (λ c, from ≤ chunkStart c ∧ chunkStart c < chunkEnd c)
    (chunksOf orig from edits).
Proof.
  revert from. induction edits as [|e rest IH]; intros from; simpl.
  - intros _. by apply piece_bounds.
  - intros (Hfrom & Hlt & Hrest). apply Forall_app. split; [by apply piece_bounds|].
    constructor; [simpl; lia|].
    eapply Forall_impl; [apply IH, Hrest|]. simpl. lia.
Qed.

Lemma applyEdit_chunksOf (orig : string) (e : Edit) (from : nat)
    (edits : list Edit) :
  ordered from (String.length orig) edits →
  from ≤ editStart e → editStart e < editEnd e →
  editEnd e ≤ String.length orig →
  forallb (apart e) edits = true →
  applyEdit orig e (chunksOf orig from edits)
  = Ok (chunksOf orig from (insertEdit e edits))
  ∧ ordered from (String.length orig) (insertEdit e edits).
Proof.
  revert from. induction edits as [|e1 rest IH]; intros from Hord Hfrom Hlt Hlen Hapart.
  - simpl. split; [|simpl; lia].
    rewrite <- (app_nil_r (piece orig from _)).
    rewrite applyEdit_gap; [|done..|constructor].
    by rewrite app_nil_r.
  - simpl in Hord. destruct Hord as (Hfrom1 & Hlt1 & Hrest).
    simpl in Hapart. apply andb_prop in Hapart as [He1 Hapart].
    simpl insertEdit.
    destruct (Nat.leb_spec (editEnd e) (editStart e1)) as [Hbefore|Hafter].
    + split; [|simpl; repeat split; try lia; done].
      simpl chunksOf. rewrite applyEdit_gap; [done|done..|].
      constructor; [simpl; lia|].
      eapply Forall_impl; [by apply chunksOf_bounds|]. simpl. lia.
    + unfold apart in He1. apply orb_prop in He1 as [He1|He1];
        [apply Nat.leb_le in He1; lia|]. apply Nat.leb_le in He1.
      destruct (IH (editEnd e1) Hrest He1 Hlt Hlen Hapart) as [Happly Hord'].
      split; [|simpl; by repeat split].
      simpl chunksOf.
      change (piece orig from (editStart e1)
              ++ editedChunk e1 :: chunksOf orig (editEnd e1) rest)
        with (piece orig from (editStart e1)
              ++ [editedChunk e1] ++ chunksOf orig (editEnd e1) rest).
      rewrite app_assoc, applyEdit_prefix, Happly; [simpl|done|].
      * by rewrite <- app_assoc.
      * apply Forall_app. split.
        -- unfold piece. destruct (Nat.ltb_spec from (editStart e1));
             repeat constructor; simpl; lia.
        -- repeat constructor; simpl; lia.
Qed.

Lemma update_chunksOf (orig : string) (e : Edit) (edits : list Edit) :
  ordered 0 (String.length orig) edits →
  editStart e < editEnd e → editEnd e ≤ String.length orig →
  forallb (apart e) edits = true →
  update {| original := orig; chunks := chunksOf orig 0 edits |}
    (editStart e) (editEnd e) (editText e)
  = Ok {| original := orig; chunks := chunksOf orig 0 (insertEdit e edits) |}.
Proof.
  intros Hord Hlt Hlen Hapart. unfold update. simpl.
  replace (String.length orig <? editEnd e)%nat with false
    by (symmetry; apply Nat.ltb_ge; lia).
  replace (editStart e =? editEnd e)%nat with false
    by (symmetry; apply Nat.eqb_neq; lia).
  destruct (applyEdit_chunksOf orig e 0 edits Hord) as [Happly _];
    [lia|done..|].
  unfold applyEdit in Happly.
  destruct (split orig (editStart e) _) as [cs1|]; simpl in *; [|done].
  destruct (split orig (editEnd e) cs1) as [cs2|]; simpl in *; [|done].
  by injection Happly as ->.
Qed.


(** *** Replacements in any order *)

Lemma sortEdits_snoc (done : list Edit) (e : Edit) :
  sortEdits (done ++ [e]) = insertEdit e (sortEdits done).
Proof. unfold sortEdits. by rewrite foldl_app. Qed.

Lemma apart_sym (e1 e2 : Edit) : apart e1 e2 = apart e2 e1.
Proof. unfold apart. apply orb_comm. Qed.

Lemma forallb_apart_insert (x e : Edit) (edits : list Edit) :
  forallb (apart x) (insertEdit e edits) = apart x e && forallb (apart x) edits.
Proof.
  induction edits as [|e1 rest IH]; simpl; [done|].
  destruct (editEnd e <=? editStart e1)%nat; simpl; [done|].
  rewrite IH. destruct (apart x e), (apart x e1); done.
Qed.

Lemma disjointRanges_app (es1 es2 : list Edit) :
  disjointRanges (es1 ++ es2) = true →
  disjointRanges es1 = true
  ∧ disjointRanges es2 = true
  ∧ Forall (λ e1, forallb (apart e1) es2 = true) es1.
Proof.
  induction es1 as [|e es1 IH]; simpl; [by repeat split|].
  intros [Hall Hrest]%andb_prop. rewrite forallb_app in Hall.
  apply andb_prop in Hall as [Hall1 Hall2].
  destruct (IH Hrest) as (H1 & H2 & H3).
  repeat split; [by rewrite Hall1, H1|done|by constructor].
Qed.

Lemma applicable_prefix (code : string) (es1 es2 : list Edit) :
  applicable code (es1 ++ es2) → applicable code es1.
Proof.
  intros [Hdisjoint Hbounds]. split.
  - by apply disjointRanges_app in Hdisjoint as (? & _).
  - by apply Forall_app in Hbounds as [? _].
Qed.

Lemma sortEdits_ordered (code : string) (done : list Edit) :
  applicable code done →
  ordered 0 (String.length code) (sortEdits done)
  ∧ ∀ x, forallb (apart x) done = true →
         forallb (apart x) (sortEdits done) = true.
Proof.
  induction done as [|e done IH] using rev_ind; intros Hdone.
  - split; [simpl; lia|done].
  - destruct (IH (applicable_prefix _ _ _ Hdone)) as [Hord Hkeep].
    destruct Hdone as [Hdisjoint Hbounds].
    apply disjointRanges_app in Hdisjoint as (_ & _ & Hapart).
    apply Forall_app in Hbounds as [_ Hbounds].
    apply Forall_singleton in Hbounds as [Hlt Hlen].
    rewrite sortEdits_snoc. split.
    + apply (applyEdit_chunksOf code e 0); [done|lia|done..|].
      apply Hkeep. apply forallb_forall. intros d Hd.
      rewrite Forall_forall in Hapart.
      specialize (Hapart d (proj2 (list_elem_of_In _ _) Hd)).
      simpl in Hapart. rewrite andb_true_r in Hapart. by rewrite apart_sym.
    + intros x Hx. rewrite forallb_app in Hx.
      apply andb_prop in Hx as [Hx1 Hx2]. simpl in Hx2.
      rewrite andb_true_r in Hx2.
      by rewrite forallb_apart_insert, Hx2, Hkeep.
Qed.

Lemma rewritten_update (code : string) (done : list Edit) (e : Edit) :
  applicable code (done ++ [e]) →
  update (rewritten code done).1 (editStart e) (editEnd e) (editText e)
  = Ok (rewritten code (done ++ [e])).1.
Proof.
  intros Hall.
  destruct (sortEdits_ordered code done (applicable_prefix _ _ _ Hall))
    as [Hord Hkeep].
  destruct Hall as [Hdisjoint Hbounds].
  apply disjointRanges_app in Hdisjoint as (_ & _ & Hapart).
  apply Forall_app in Hbounds as [_ Hbounds].
  apply Forall_singleton in Hbounds as [Hlt Hlen].
  simpl. rewrite sortEdits_snoc. apply update_chunksOf; [done..|].
  apply Hkeep. apply forallb_forall. intros d Hd.
  rewrite Forall_forall in Hapart.
  specialize (Hapart d (proj2 (list_elem_of_In _ _) Hd)).
  simpl in Hapart. rewrite andb_true_r in Hapart. by rewrite apart_sym.
Qed.

Lemma rewritten_flag (code : string) (done : list Edit) (e : Edit) :
  (rewritten code (done ++ [e])).2 = true.
Proof. by destruct done. Qed.

(** A loop whose body makes the replacements [edits b] makes those of all
    its elements. *)
Lemma foldM_rewritten {B : Type} (code : string)
    (f : ConstEnum.Rewriting → B → Exc ConstEnum.Rewriting)
    (edits : B → list Edit) (l : list B) (done : list Edit) :
  (∀ done b, b ∈ l → applicable code (done ++ edits b) →
     f (rewritten code done) b = Ok (rewritten code (done ++ edits b))) →
  applicable code (done ++ (l ≫= edits)) →
  foldM f (rewritten code done) l = Ok (rewritten code (done ++ (l ≫= edits))).
Proof.
  revert done. induction l as [|b l IH]; intros done Hf Hall.
  - simpl. by rewrite app_nil_r.
  - rewrite bind_cons, app_assoc in Hall. rewrite bind_cons, app_assoc.
    cbn [foldM]. rewrite Hf;
      [|apply list_elem_of_here|by apply applicable_prefix in Hall].
    unfold mbind, exc_bind. apply IH; [|done].
    intros done' b' Hb'. apply Hf. by apply list_elem_of_further.
Qed.

End MagicStringFacts.


(** ** The source map *)

Module SourceMapFacts.
Import MagicString ConstEnumFacts.

Lemma splitPath_not_nil (s : string) : splitPath s ≠ [].
Proof.
  induction s as [|c s IH]; simpl; [done|].
  destruct (isSeparator c); [done|]. by destruct (splitPath s).
Qed.

Lemma splitPath_length (c : ascii) (s : string) :
  length (splitPath (String c s))
  = (if isSeparator c then 1 else 0) + length (splitPath s).
Proof.
  simpl. destruct (isSeparator c); [done|].
  pose proof (splitPath_not_nil s). by destruct (splitPath s).
Qed.

(** A part of a path has no more separators than the path. *)
Lemma splitPath_substring (s : string) (a n : nat) :
  length (splitPath (String.substring a n s)) ≤ length (splitPath s).
Proof.
  revert a n. induction s as [|c s IH]; intros a n.
  - by destruct a, n.
  - rewrite splitPath_length. destruct a as [|a].
    + destruct n as [|n]; simpl String.substring.
      * simpl. pose proof (splitPath_not_nil s).
        destruct (splitPath s); [done|]. simpl. lia.
      * rewrite splitPath_length. specialize (IH 0 n). lia.
    + simpl String.substring. specialize (IH a n). lia.
Qed.

Lemma dropCommon_shorter (fromParts toParts : list string) :
  length fromParts < length toParts → is_Some (dropCommon fromParts toParts).
Proof.
  revert toParts. induction fromParts as [|f fromParts IH];
    intros [|t toParts] Hlen; simpl in *; try lia; [by eauto|].
  destruct (String.eqb f t); [apply IH; lia|by eauto].
Qed.

Lemma removelast_length {A : Type} (l : list A) :
  l ≠ [] → length (removelast l) < length l.
Proof.
  induction l as [|x l IH]; [done|]. intros _. destruct l as [|y l]; [simpl; lia|].
  change (removelast (x :: y :: l)) with (x :: removelast (y :: l)).
  simpl length at 1. specialize (IH ltac:(done)). simpl in *. lia.
Qed.

Lemma basename_parts (p : string) :
  length (splitPath (Path.basename p)) ≤ length (splitPath p).
Proof.
  unfold Path.basename. destruct (Path.basenameScan _ _ _) as [start [e|]].
  - apply splitPath_substring.
  - simpl. pose proof (splitPath_not_nil p). destruct (splitPath p); [done|].
    simpl. lia.
Qed.

(** [generateMap] returns when the file is the base name of the source:
    the loop of [getRelativePath] ends, the source having more parts than
    what is left of the file's. *)
Lemma generateMap_returns (s : t) (filePath : string) :
  is_Some (generateMap s filePath (Path.basename filePath)).
Proof.
  unfold generateMap. destruct (Str.isEmpty filePath); [by eauto|].
  unfold getRelativePath.
  destruct (dropCommon_shorter (removelast (splitPath (Path.basename filePath)))
              (splitPath filePath)) as [[fromParts toParts] ->]; [|by eauto].
  pose proof (removelast_length (splitPath (Path.basename filePath))
                (splitPath_not_nil _)).
  pose proof (basename_parts filePath). lia.
Qed.

(** *** Paths without backslash *)

Lemma splitPath_plain (s : string) :
  Str.slashFree s = true → Str.backslashFree s = true → splitPath s = [s].
Proof.
  induction s as [|c s IH]; [done|]. simpl.
  intros [Hc Hs]%andb_prop [Hb Hbs]%andb_prop.
  apply negb_true_iff in Hc, Hb. unfold Str.isSlash in Hc.
  unfold isSeparator. rewrite Hc, Hb. simpl. by rewrite IH.
Qed.

Lemma joinWith_cons (x : string) (l : list string) :
  l ≠ [] → Str.joinWith "/" (x :: l) = x +:+ "/" +:+ Str.joinWith "/" l.
Proof. by destruct l. Qed.

Lemma joinWith_splitPath (s : string) :
  Str.backslashFree s = true → Str.joinWith "/" (splitPath s) = s.
Proof.
  induction s as [|c s IH]; [done|]. simpl.
  intros [Hb Hbs]%andb_prop. apply negb_true_iff in Hb.
  specialize (IH Hbs). unfold isSeparator. rewrite Hb, orb_false_r.
  pose proof (splitPath_not_nil s) as Hne.
  destruct (Ascii.eqb c "/") eqn:Hc.
  - apply Ascii.eqb_eq in Hc as ->. rewrite joinWith_cons by done.
    by rewrite IH.
  - destruct (splitPath s) as [|part parts]; [done|].
    destruct parts as [|part' parts].
    + simpl in *. by rewrite IH.
    + rewrite joinWith_cons in IH by done. rewrite joinWith_cons by done.
      rewrite <- IH. reflexivity.
Qed.

Lemma substring_backslashFree (s : string) (a n : nat) :
  Str.backslashFree s = true → Str.backslashFree (String.substring a n s) = true.
Proof.
  revert a n. induction s as [|c s IH]; intros a n; [by destruct a, n|].
  simpl. intros [Hb Hbs]%andb_prop. destruct a as [|a].
  - destruct n as [|n]; [done|]. simpl. by rewrite Hb, IH.
  - by apply IH.
Qed.

(** The scan of [basename], once the end of the name is known, stops after
    the first slash and meets no other. *)
Lemma basenameScan_name (rest : list ascii) (e : nat) :
  ∃ start,
    Path.basenameScan rest false (Some e) = (start, Some e)
    ∧ start ≤ length rest
    ∧ ∀ k c, start ≤ k → rev rest !! k = Some c → Str.isSlash c = false.
Proof.
  induction rest as [|c rest (start & IH & Hstart & Hname)]; simpl.
  - exists 0. split; [done|]. split; [done|]. by intros k c _ ?.
  - destruct (Str.isSlash c) eqn:Hc.
    + exists (length rest + 1). split; [done|]. split; [lia|].
      intros k c' Hk Hget. apply lookup_lt_Some in Hget.
      rewrite length_app, length_rev in Hget. simpl in Hget. lia.
    + exists start. split; [done|]. split; [lia|].
      intros k c' Hk Hget.
      destruct (decide (k < length rest)) as [Hlt|Hge].
      * rewrite lookup_app_l in Hget by (rewrite length_rev; lia).
        by eapply Hname.
      * rewrite lookup_app_r in Hget by (rewrite length_rev; lia).
        rewrite length_rev in Hget.
        destruct (k - length rest) as [|j] eqn:Hj; simpl in Hget; [|done].
        by injection Hget as <-.
Qed.

Lemma substring_slashFree (s : string) (a n : nat) :
  (∀ k c, a ≤ k → Path.chars s !! k = Some c → Str.isSlash c = false) →
  Str.slashFree (String.substring a n s) = true.
Proof.
  revert a n. induction s as [|c s IH]; intros a n Hname; [by destruct a, n|].
  destruct a as [|a].
  - destruct n as [|n]; [done|]. simpl.
    rewrite (Hname 0 c) by (done || lia). simpl. apply IH.
    intros k c' _ Hget. apply (Hname (S k) c'); [lia|done].
  - simpl. apply IH. intros k c' Hk Hget. apply (Hname (S k) c'); [lia|done].
Qed.

Lemma substring_length (s : string) (a n : nat) :
  a + n ≤ String.length s → String.length (String.substring a n s) = n.
Proof.
  revert a n. induction s as [|c s IH]; intros a n Hlen; simpl in Hlen.
  - destruct a, n; simpl; lia.
  - destruct a as [|a].
    + destruct n as [|n]; [done|]. simpl. rewrite (IH 0 n); lia.
    + simpl. apply IH. lia.
Qed.

Lemma chars_snoc (q : string) (c : ascii) :
  rev (Path.chars (q +:+ String c "")) = c :: rev (Path.chars q).
Proof.
  induction q as [|x q IH]; [done|]. rewrite append_cons. simpl.
  by rewrite IH.
Qed.

(** The base name of a path that does not end with a slash: it is not
    empty and holds no slash. *)
Lemma basename_name (q : string) (c : ascii) :
  Str.isSlash c = false →
  Path.basename (q +:+ String c "") ≠ ""
  ∧ Str.slashFree (Path.basename (q +:+ String c "")) = true.
Proof.
  intros Hc. unfold Path.basename. rewrite chars_snoc. simpl. rewrite Hc.
  destruct (basenameScan_name (rev (Path.chars q))
              (length (rev (Path.chars q)) + 1)) as (start & -> & Hstart & Hname).
  rewrite length_rev in *.
  assert (length (Path.chars q) = String.length q) as Hq
    by (clear; induction q; simpl; [done|by f_equal]).
  rewrite Hq in *. unfold Str.slice. split.
  - intros Hempty. apply (f_equal String.length) in Hempty.
    rewrite substring_length in Hempty; [simpl in Hempty; lia|].
    rewrite append_length. simpl. lia.
  - apply substring_slashFree. intros k c' Hk Hget.
    assert (Path.chars (q +:+ String c "") = Path.chars q ++ [c]) as Hchars.
    { clear. induction q as [|x q IH]; [done|]. rewrite append_cons. simpl.
      by rewrite IH. }
    rewrite Hchars in Hget.
    destruct (decide (k < String.length q)) as [Hlt|Hge].
    + rewrite lookup_app_l in Hget by lia.
      apply (Hname k c'); [done|]. by rewrite rev_involutive.
    + rewrite lookup_app_r in Hget by lia.
      destruct (k - length (Path.chars q)) as [|j]; simpl in Hget; [|done].
      by injection Hget as <-.
Qed.

Lemma endsWith_split (p suffix : string) :
  Str.endsWith p suffix = true → ∃ a, p = a +:+ suffix.
Proof.
  unfold Str.endsWith. intros [Hlen Heq]%andb_prop.
  apply Nat.leb_le in Hlen. apply String.eqb_eq in Heq.
  assert (∀ n s, n ≤ String.length s →
            s = String.substring 0 n s +:+ Str.drop n s) as Hsplit.
  { clear. intros n s. revert n. induction s as [|x s IH]; intros [|n] Hn;
      simpl in *; try done; try lia. rewrite append_cons. f_equal.
    apply IH. lia. }
  exists (String.substring 0 (String.length p - String.length suffix) p).
  assert (String.length p - String.length suffix ≤ String.length p) as Hn by lia.
  revert Heq Hn. generalize (String.length p - String.length suffix) as n.
  intros n <- Hn. by apply Hsplit.
Qed.

(** A path the transformer takes ends with a letter. *)
Lemma isSourcePath_name (filePath : string) :
  ConstEnum.isSourcePath filePath = true →
  ∃ q c, filePath = q +:+ String c "" ∧ Str.isSlash c = false.
Proof.
  unfold ConstEnum.isSourcePath. intros (suffix & Hin & Hends)%existsb_exists.
  apply endsWith_split in Hends as [a ->].
  assert (∃ pre c, suffix = pre +:+ String c "" ∧ Str.isSlash c = false)
    as (pre & c & -> & Hc).
  { simpl in Hin.
    repeat (destruct Hin as [<- | Hin];
            [match goal with
             | |- ∃ pre c, ?x = _ ∧ _ =>
                 exists (String.substring 0 (String.length x - 1) x),
                   (default " "%char (String.get (String.length x - 1) x))
             end; split; reflexivity|]).
    done. }
  exists (a +:+ pre), c. by rewrite append_assoc.
Qed.

(** The map of a file whose path holds no backslash. *)
Lemma generateMap_plain (s : t) (filePath : string) :
  ConstEnum.isSourcePath filePath = true →
  Str.backslashFree filePath = true →
  generateMap s filePath (Path.basename filePath)
  = Some {| file := Some (Path.basename filePath);
            sources := [filePath];
            sourcesContent := [original s] |}.
Proof.
  intros (q & c & -> & Hc)%isSourcePath_name Hplain.
  destruct (basename_name q c Hc) as [Hne Hfree].
  set (p := q +:+ String c "") in *.
  assert (Str.backslashFree (Path.basename p) = true) as Hbase.
  { unfold Path.basename. destruct (Path.basenameScan _ _ _) as [start [e|]];
      [|done]. by apply substring_backslashFree. }
  unfold generateMap, getRelativePath.
  assert (Str.isEmpty p = false) as -> by (subst p; by destruct q).
  rewrite (splitPath_plain (Path.basename p)) by done.
  change (removelast [Path.basename p]) with (@nil string).
  assert (dropCommon [] (splitPath p) = Some ([], splitPath p)) as ->.
  { pose proof (splitPath_not_nil p). by destruct (splitPath p). }
  cbn -[Str.joinWith splitPath]. rewrite joinWith_splitPath by done.
  by destruct (Path.basename p).
Qed.

End SourceMapFacts.


(** ** What a pass makes of the text *)

Module RewriteFacts.
Import ConstEnum ConstEnumFacts MagicString MagicStringFacts SourceMapFacts.

Lemma prefix_length (a b : string) :
  String.prefix a b = true → String.length a ≤ String.length b.
Proof.
  revert b. induction a as [|x a IH]; intros [|y b]; simpl; try done; try lia.
  destruct (ascii_dec x y); [|done]. intros Hp%IH. lia.
Qed.

Lemma execAll_bounds (text : string) (before : option ascii) (s : string)
    (index skip i : nat) :
  i ∈ execAll text before s index skip →
  index ≤ i ∧ i + String.length text ≤ index + String.length s.
Proof.
  revert before index skip. induction s as [|c s IH]; intros before index skip;
    simpl; [by intros ?%elem_of_nil|].
  destruct ((skip =? 0)%nat && matchesAt text before (String c s)) eqn:Hhere.
  - intros [->|Hin]%elem_of_cons.
    + apply andb_prop in Hhere as [_ Hmatch]. unfold matchesAt in Hmatch.
      apply andb_prop in Hmatch as [Hmatch _].
      apply andb_prop in Hmatch as [_ Hprefix].
      apply prefix_length in Hprefix. simpl in Hprefix. lia.
    + apply IH in Hin. lia.
  - intros Hin. apply IH in Hin. lia.
Qed.

(** The text of a pattern made of two names or more is not empty. *)
Lemma patternText_not_empty (qualifier : list string) (n : string) :
  qualifier ≠ [] → patternText (qualifier ++ [n]) ≠ "".
Proof.
  destruct qualifier as [|q rest]; [done|]. intros _ Heq.
  unfold patternText in Heq.
  assert (Str.joinWith "." ((q :: rest) ++ [n])
          = q +:+ "." +:+ Str.joinWith "." (rest ++ [n])) as Hjoin
    by (simpl; by destruct (rest ++ [n]) eqn:E; [destruct rest|]).
  rewrite Hjoin in Heq. apply (f_equal String.length) in Heq.
  rewrite !append_length in Heq. simpl in Heq. lia.
Qed.

Section Facts.
Context `{FileSystem} `{JSRuntime} `{OxcParser}.

Lemma editsFor_bounds (code : string) (names : list string)
    (v : option JSValue) :
  patternText names ≠ "" →
  Forall (λ e, editStart e < editEnd e ∧ editEnd e ≤ String.length code)
    (editsFor code names v).
Proof.
  intros Htext. unfold editsFor. apply Forall_fmap, Forall_forall.
  intros i Hi. apply execAll_bounds in Hi. simpl.
  destruct (patternText names); [done|]. simpl in *. lia.
Qed.

Lemma editsOfMembers_bounds (code : string) (qualifier : list string)
    (ms : list EnumMember) :
  qualifier ≠ [] →
  Forall (λ e, editStart e < editEnd e ∧ editEnd e ≤ String.length code)
    (editsOfMembers code qualifier ms).
Proof.
  intros Hq. unfold editsOfMembers. apply Forall_bind, Forall_forall.
  intros m _. by apply editsFor_bounds, patternText_not_empty.
Qed.

Lemma editsOfSpecifier_bounds (code : string) (enumData : EnumData)
    (specifier : ImportSpecifierNode) :
  Forall (λ e, editStart e < editEnd e ∧ editEnd e ≤ String.length code)
    (editsOfSpecifier code enumData specifier).
Proof.
  destruct specifier as [alias | imported localName | localName]; simpl;
    [| |constructor].
  - apply Forall_bind, Forall_forall. intros d _.
    by apply editsOfMembers_bounds.
  - destruct (List.find _ _); [by apply editsOfMembers_bounds|constructor].
Qed.

Lemma editsOf_bounds (filePath code : string) (body : list Statement) :
  Forall (λ e, editStart e < editEnd e ∧ editEnd e ≤ String.length code)
    (editsOf filePath code body).
Proof.
  unfold editsOf. apply Forall_bind, Forall_forall. intros node _.
  unfold compose. destruct node as [importPath specifiers| |]; [|constructor..].
  apply Forall_bind, Forall_forall. intros enumFile _. unfold compose.
  apply Forall_bind, Forall_forall. intros specifier _.
  apply editsOfSpecifier_bounds.
Qed.

(** *** The loops, for plain names *)

Lemma rewriteMatches_rewritten (code : string) (names : list string)
    (v : option JSValue) (done : list Edit) :
  plainNames names = true →
  applicable code (done ++ editsFor code names v) →
  rewriteMatches code names v (rewritten code done)
  = Ok (rewritten code (done ++ editsFor code names v)).
Proof.
  intros Hplain Hall. unfold rewriteMatches.
  rewrite patternMatches_plain by done.
  change (Ok ?found ≫= ?f) with (f found). cbv beta.
  set (found := (λ index, (index, patternText names))
                  <$> matchIndices (patternText names) code).
  set (edits := λ m : nat * string,
         [{| editStart := m.1; editEnd := m.1 + String.length m.2;
             editText := replacementFor v m.2 |}]).
  assert (editsFor code names v = found ≫= edits) as Hbind.
  { unfold editsFor, found.
    induction (matchIndices (patternText names) code) as [|i l IH]; [done|].
    rewrite !fmap_cons, bind_cons. simpl. by f_equal. }
  rewrite Hbind in *.
  apply (foldM_rewritten code _ edits); [|done].
  intros done' m _ Hone.
  assert (update (rewritten code done').1 m.1 (m.1 + String.length m.2)
            (replacementFor v m.2)
          = Ok (rewritten code
                  (done' ++ [{| editStart := m.1;
                                editEnd := m.1 + String.length m.2;
                                editText := replacementFor v m.2 |}])).1)
    as Hupdate by exact (rewritten_update code done' _ Hone).
  unfold mbind, exc_bind. rewrite Hupdate. f_equal. unfold edits.
  rewrite (surjective_pairing (rewritten code (done' ++ _))).
  by rewrite rewritten_flag.
Qed.

Lemma rewriteMembers_rewritten (code : string) (qualifier : list string)
    (ms : list EnumMember) (done : list Edit) :
  Forall (λ names, plainNames names = true)
    ((λ member, qualifier ++ [name member]) <$> ms) →
  applicable code (done ++ editsOfMembers code qualifier ms) →
  rewriteMembers code qualifier ms (rewritten code done)
  = Ok (rewritten code (done ++ editsOfMembers code qualifier ms)).
Proof.
  intros Hplain Hall. unfold rewriteMembers, editsOfMembers.
  apply (foldM_rewritten code
           (λ acc member,
              rewriteMatches code (qualifier ++ [name member])
                (value member) acc)
           (λ member,
              editsFor code (qualifier ++ [name member]) (value member)));
    [|done].
  intros done' member Hmember. apply rewriteMatches_rewritten.
  rewrite Forall_fmap, Forall_forall in Hplain. by apply Hplain.
Qed.

Lemma specifierStep_rewritten (code : string) (enumData : EnumData)
    (specifier : ImportSpecifierNode) (done : list Edit) :
  Forall (λ names, plainNames names = true) (referencesOf enumData specifier) →
  applicable code (done ++ editsOfSpecifier code enumData specifier) →
  specifierStep code enumData (rewritten code done) specifier
  = Ok (rewritten code (done ++ editsOfSpecifier code enumData specifier)).
Proof.
  destruct specifier as [alias | imported localName | localName]; simpl.
  - intros Hplain Hall.
    apply (foldM_rewritten code
             (λ acc decl,
                rewriteMembers code [alias; id decl] (members decl) acc)
             (λ decl, editsOfMembers code [alias; id decl] (members decl)));
      [|done].
    intros done' decl Hdecl.
    apply (rewriteMembers_rewritten code [alias; id decl]).
    rewrite Forall_bind, Forall_forall in Hplain. by apply Hplain.
  - destruct (List.find _ _) as [enumDecl|].
    + apply (rewriteMembers_rewritten code [localName]).
    + intros _. by rewrite app_nil_r.
  - intros _. by rewrite app_nil_r.
Qed.

Lemma enumFileStep_rewritten (code : string)
    (specifiers : list ImportSpecifierNode) (enumFile : string)
    (done : list Edit) (cache : Cache) :
  cacheConsistent cache →
  Forall (λ names, plainNames names = true)
    (specifiers ≫= referencesOf (extractEntry enumFile)) →
  applicable code
    (done ++ (specifiers ≫= editsOfSpecifier code (extractEntry enumFile))) →
  ∃ cache',
    enumFileStep code specifiers (rewritten code done) enumFile cache
    = (Ok (rewritten code
             (done ++ (specifiers
                       ≫= editsOfSpecifier code (extractEntry enumFile)))),
       cache')
    ∧ cacheConsistent cache'.
Proof.
  intros Hcache Hplain Hall.
  destruct (parseConstEnumsFromAST_consistent enumFile cache Hcache)
    as (cache' & Hparse & Hcache').
  exists cache'. split; [|done].
  unfold enumFileStep, mbind, eff_bind, lift. rewrite Hparse.
  rewrite (foldM_rewritten code (specifierStep code (extractEntry enumFile))
             (editsOfSpecifier code (extractEntry enumFile))); [done| |done].
  intros done' specifier Hspecifier. apply specifierStep_rewritten.
  rewrite Forall_bind, Forall_forall in Hplain. by apply Hplain.
Qed.

(** The same for a loop over the store. *)
Lemma foldM_rewritten_store {B : Type} (code : string)
    (f : Rewriting → B → Eff Cache Rewriting)
    (edits : B → list Edit) (l : list B) (done : list Edit) (cache : Cache) :
  (∀ done b cache, b ∈ l → cacheConsistent cache →
     applicable code (done ++ edits b) →
     ∃ cache', f (rewritten code done) b cache
               = (Ok (rewritten code (done ++ edits b)), cache')
               ∧ cacheConsistent cache') →
  cacheConsistent cache →
  applicable code (done ++ (l ≫= edits)) →
  ∃ cache', foldM f (rewritten code done) l cache
            = (Ok (rewritten code (done ++ (l ≫= edits))), cache')
            ∧ cacheConsistent cache'.
Proof.
  revert done cache. induction l as [|b l IH]; intros done cache Hf Hcache Hall.
  - simpl. rewrite app_nil_r. by eauto.
  - rewrite bind_cons, app_assoc in Hall. rewrite bind_cons, app_assoc.
    cbn [foldM].
    destruct (Hf done b cache) as (cache1 & Hstep & Hcache1);
      [apply list_elem_of_here|done|by apply applicable_prefix in Hall|].
    unfold mbind, eff_bind. rewrite Hstep. apply IH; [|done..].
    intros done' b' cache' Hb'. apply Hf. by apply list_elem_of_further.
Qed.

Lemma editsOf_cons (filePath code : string) (node : Statement)
    (body : list Statement) :
  editsOf filePath code (node :: body)
  = editsOf filePath code [node] ++ editsOf filePath code body.
Proof. unfold editsOf. rewrite !bind_cons. simpl. by rewrite app_nil_r. Qed.

Lemma editsOf_nodes (filePath code : string) (body : list Statement) :
  body ≫= (λ node, editsOf filePath code [node]) = editsOf filePath code body.
Proof.
  induction body as [|node body IH]; [done|].
  by rewrite bind_cons, IH, <- editsOf_cons.
Qed.

Lemma nodeStep_rewritten (filePath code : string) (node : Statement)
    (done : list Edit) (cache : Cache) :
  cacheConsistent cache →
  Forall (λ names, plainNames names = true)
    (importedReferences filePath [node]) →
  applicable code (done ++ editsOf filePath code [node]) →
  ∃ cache',
    nodeStep filePath code (rewritten code done) node cache
    = (Ok (rewritten code (done ++ editsOf filePath code [node])), cache')
    ∧ cacheConsistent cache'.
Proof.
  intros Hcache. unfold editsOf, importedReferences.
  rewrite !bind_cons. simpl (mbind _ []). rewrite !app_nil_r.
  destruct node as [importPath specifiers| |];
    [|intros _; rewrite app_nil_r; by eauto..].
  intros Hplain Hall. simpl.
  apply (foldM_rewritten_store code (enumFileStep code specifiers)
           (λ enumFile,
              specifiers ≫= editsOfSpecifier code (extractEntry enumFile)));
    [|done..].
  intros done' enumFile cache' HenumFile Hcache'.
  apply enumFileStep_rewritten; [done|].
  rewrite Forall_bind, Forall_forall in Hplain. by apply Hplain.
Qed.

Lemma includes_not_empty (code p : string) :
  p ≠ "" → Str.includes code p = true → code ≠ "".
Proof. intros Hp Hin ->. simpl in Hin. by destruct p. Qed.

Lemma create_rewritten (code : string) :
  code ≠ "" → (MagicString.create code, false) = rewritten code [].
Proof.
  intros Hcode. unfold create, rewritten. simpl. unfold piece.
  destruct code as [|c code]; [done|]. simpl Nat.ltb.
  replace (0 <? S (String.length code))%nat with true by done.
  by rewrite (slice_full (String c code)).
Qed.

(** X15.  What a pass makes of a file whose patterns are made of names of
    word characters: when no two of the whole-word occurrences of the
    references overlap, the pass returns [None] if there is none, and
    otherwise the code in which every occurrence is replaced by the literal
    followed by the comment that holds the reference, every other character
    being as it was, whatever the order in which the loops meet the
    occurrences; when the path of the file holds no backslash, the source
    map names the file by its base name and its source by the path, and
    holds the code as it was. *)
Theorem rewrite_replaces_the_matches (filePath code : string)
    (body : list Statement) (cache : Cache) :
  cacheConsistent cache →
  isSourcePath filePath = true →
  Str.backslashFree filePath = true →
  Str.includes code "import " = true →
  parseSync filePath code
    (if String.eqb (getLang filePath) "dts" then "ts" else getLang filePath)
    (if isTs (getLang filePath) then "ts" else "js") = Ok body →
  Forall (λ names, plainNames names = true) (importedReferences filePath body) →
  disjointRanges (editsOf filePath code body) = true →
  (transformConstEnum filePath code cache).1 =
    Ok (match editsOf filePath code body with
        | [] => None
        | edits =>
            Some {| code := rendered code 0 (sortEdits edits);
                    map := {| file := Some (Path.basename filePath);
                              sources := [filePath];
                              sourcesContent := [code] |} |}
        end).
Proof.
  intros Hcache Hsource Hpath Himport Hparse Hplain Hdisjoint.
  unfold transformConstEnum. rewrite Hsource, Himport. simpl.
  unfold try_catch, transformBody.
  unfold mbind at 1. unfold eff_bind at 1. unfold lift. rewrite Hparse.
  unfold mbind at 1. unfold eff_bind at 1.
  rewrite create_rewritten
    by (by apply (includes_not_empty code "import ")).
  destruct (foldM_rewritten_store code (nodeStep filePath code)
              (λ node, editsOf filePath code [node]) body [] cache)
    as (cache' & Hfold & _); [|done|..].
  - intros done node cache1 Hnode Hcache1. apply nodeStep_rewritten; [done|].
    unfold importedReferences in *. rewrite Forall_bind, Forall_forall in Hplain.
    rewrite bind_cons. simpl (mbind _ []). rewrite app_nil_r. by apply Hplain.
  - rewrite editsOf_nodes. simpl. split; [done|apply editsOf_bounds].
  - rewrite Hfold, editsOf_nodes. simpl app.
    destruct (editsOf filePath code body) as [|e edits] eqn:Hedits; [done|].
    simpl negb. cbv iota. rewrite generateMap_plain by done.
    simpl. unfold toString. simpl. by rewrite chunksOf_rendered.
Qed.

End Facts.
End RewriteFacts.


(** ** A pass over several references *)

Module RewriteExamples.
Import ConstEnum Scenario RewriteFacts.

#[local] Existing Instance paletteFS.
#[local] Existing Instance integerRuntime.
#[local] Existing Instance paletteParser.

Example palette_edits :
  editsOf "/ws/src/palette.ts" paletteSource [importColor; OtherStatement] =
    [{| MagicString.editStart := 56; MagicString.editEnd := 65;
        MagicString.editText := "0 /* Color.Red */" |};
     {| MagicString.editStart := 44; MagicString.editEnd := 54;
        MagicString.editText := "6 /* Color.Blue */" |};
     {| MagicString.editStart := 67; MagicString.editEnd := 77;
        MagicString.editText := "6 /* Color.Blue */" |}].
Proof. vm_compute. reflexivity. Qed.

(** [Color.Red] is met first and stands between the two [Color.Blue]. *)
Lemma rewrite_replaces_the_matches_witness :
  (transformConstEnum "/ws/src/palette.ts" paletteSource ∅).1 =
    Ok (Some {| code := paletteRewritten;
                map := {| MagicString.file := Some "palette.ts";
                          MagicString.sources := ["/ws/src/palette.ts"];
                          MagicString.sourcesContent := [paletteSource] |} |}).
Proof.
  assert (Forall (λ names, plainNames names = true)
            (importedReferences "/ws/src/palette.ts"
               [importColor; OtherStatement])) as Hplain.
  { repeat (apply Forall_cons; split; [reflexivity|]). apply Forall_nil_2. }
  exact (rewrite_replaces_the_matches "/ws/src/palette.ts" paletteSource
           [importColor; OtherStatement] ∅
           ConstEnumFacts.cacheConsistent_empty eq_refl eq_refl eq_refl eq_refl
           Hplain eq_refl).
Defined.

End RewriteExamples.


(** ** Paths made of clean segments *)

Module CleanPathFacts.
Import ConstEnumFacts TsconfigCacheFacts.

Lemma splitOn_not_nil (sep : ascii) (s : string) : Str.splitOn sep s ≠ [].
Proof.
  induction s as [|c s IH]; simpl; [done|].
  destruct (Ascii.eqb c sep); [done|]. by destruct (Str.splitOn sep s).
Qed.

Lemma splitOn_append (sep : ascii) (a b : string) :
  Str.splitOn sep (a +:+ String sep b) = Str.splitOn sep a ++ Str.splitOn sep b.
Proof.
  induction a as [|c a IH].
  - rewrite append_nil. simpl. by rewrite Ascii.eqb_refl.
  - rewrite append_cons. simpl. destruct (Ascii.eqb c sep); [by rewrite IH|].
    rewrite IH. pose proof (splitOn_not_nil sep a).
    by destruct (Str.splitOn sep a).
Qed.

Lemma normalizeString_dot (x rest : string) (allowAboveRoot : bool) :
  x = "" ∨ (∃ x', x = x' +:+ "/") →
  Path.normalizeString (x +:+ "./" +:+ rest) allowAboveRoot
  = Path.normalizeString (x +:+ rest) allowAboveRoot.
Proof.
  unfold Path.normalizeString. intros [-> | [x' ->]].
  - rewrite !append_nil. change ("./" +:+ rest) with ("." +:+ String "/" rest).
    rewrite splitOn_append. simpl Str.splitOn at 1. rewrite foldl_app. done.
  - rewrite !append_assoc.
    change ("/" +:+ "./" +:+ rest) with (String "/" ("." +:+ String "/" rest)).
    change ("/" +:+ rest) with (String "/" rest).
    rewrite !splitOn_append, !foldl_app. done.
Qed.

Lemma resolve_form (cwd a : string) :
  ∃ (x : string) (flag : bool),
    (x = "" ∨ ∃ x', x = x' +:+ "/")
    ∧ ∀ p, p ≠ "" → Str.startsWith p "/" = false →
        Path.resolve cwd a p =
          if flag then "/" +:+ Path.normalizeString (x +:+ p +:+ "/") false
          else if Str.isEmpty (Path.normalizeString (x +:+ p +:+ "/") true)
               then "." else Path.normalizeString (x +:+ p +:+ "/") true.
Proof.
  destruct (Str.isEmpty a) eqn:Ha; [|destruct (Str.startsWith a "/") eqn:Haabs];
    [destruct (Str.isEmpty cwd) eqn:Hcwd| |destruct (Str.isEmpty cwd) eqn:Hcwd].
  - exists "", false. split; [by left|]. intros p Hp Habs.
    unfold Path.resolve. simpl foldl. destruct p as [|c p]; [done|].
    simpl Str.isEmpty. rewrite Habs, Ha, Hcwd. simpl. done.
  - exists (cwd +:+ "/"), (Str.startsWith cwd "/"). split; [right; by eauto|].
    intros p Hp Habs.
    unfold Path.resolve. simpl foldl. destruct p as [|c p]; [done|].
    simpl Str.isEmpty. rewrite Habs, Ha, Hcwd. simpl.
    rewrite !append_assoc. by destruct (Str.startsWith cwd "/").
  - exists (a +:+ "/"), true. split; [right; by eauto|]. intros p Hp Habs.
    unfold Path.resolve. simpl foldl. destruct p as [|c p]; [done|].
    simpl Str.isEmpty. rewrite Habs, Ha, Haabs. simpl.
    by rewrite !append_assoc.
  - exists (a +:+ "/"), false. split; [right; by eauto|]. intros p Hp Habs.
    unfold Path.resolve. simpl foldl. destruct p as [|c p]; [done|].
    simpl Str.isEmpty. rewrite Habs, Ha, Haabs, Hcwd. simpl.
    by rewrite !append_assoc.
  - exists (cwd +:+ "/" +:+ a +:+ "/"), (Str.startsWith cwd "/").
    split; [right; exists (cwd +:+ "/" +:+ a); by rewrite !append_assoc|].
    intros p Hp Habs.
    unfold Path.resolve. simpl foldl. destruct p as [|c p]; [done|].
    simpl Str.isEmpty. rewrite Habs, Ha, Haabs, Hcwd. simpl.
    rewrite !append_assoc. by destruct (Str.startsWith cwd "/").
Qed.

Lemma resolve_dot_slash (cwd a b : string) :
  b ≠ "" → Str.startsWith b "/" = false →
  Path.resolve cwd a ("./" +:+ b) = Path.resolve cwd a b.
Proof.
  intros Hb Habs. destruct (resolve_form cwd a) as (x & flag & Hx & Hform).
  rewrite (Hform ("./" +:+ b)), (Hform b); [|done..].
  rewrite !(append_assoc "./" b).
  by rewrite !normalizeString_dot.
Qed.

Lemma splitOn_slashFree (s : string) :
  Str.slashFree s = true → Str.splitOn "/" s = [s].
Proof.
  induction s as [|c s IH]; [done|]. simpl.
  intros [Hc Hs]%andb_prop. apply negb_true_iff in Hc.
  unfold Str.isSlash in Hc. by rewrite Hc, IH.
Qed.

Lemma splitOn_joinWith (segs : list string) :
  segs ≠ [] → Forall (λ seg, Str.slashFree seg = true) segs →
  Str.splitOn "/" (Str.joinWith "/" segs) = segs.
Proof.
  intros Hne Hall. induction Hall as [|seg segs Hseg Hall IH]; [done|].
  destruct segs as [|seg' segs]; [by apply splitOn_slashFree|].
  change (Str.joinWith "/" (seg :: seg' :: segs))
    with (seg +:+ String "/" (Str.joinWith "/" (seg' :: segs))).
  rewrite splitOn_append, splitOn_slashFree, IH; done.
Qed.

Lemma joinWith_app (a b : list string) :
  a ≠ [] → b ≠ [] →
  Str.joinWith "/" (a ++ b) = Str.joinWith "/" a +:+ "/" +:+ Str.joinWith "/" b.
Proof.
  intros Ha Hb. induction a as [|x a IH]; [done|].
  destruct a as [|y a].
  - simpl. by destruct b.
  - change (Str.joinWith "/" ((x :: y :: a) ++ b))
      with (x +:+ "/" +:+ Str.joinWith "/" ((y :: a) ++ b)).
    rewrite IH by done.
    change (Str.joinWith "/" (x :: y :: a))
      with (x +:+ "/" +:+ Str.joinWith "/" (y :: a)).
    by rewrite !append_assoc.
Qed.

Lemma normalizeStep_clean (allowAboveRoot : bool) (segs stack : list string) :
  Forall (λ seg, Path.cleanSegment seg = true) segs →
  foldl (Path.normalizeStep allowAboveRoot) stack segs = rev segs ++ stack.
Proof.
  intros Hall. revert stack.
  induction Hall as [|seg segs Hseg _ IH]; intros stack; [done|].
  simpl. rewrite IH. unfold Path.normalizeStep.
  unfold Path.cleanSegment in Hseg.
  apply andb_prop in Hseg as [Hseg _]. apply andb_prop in Hseg as [Hseg Hdd].
  apply andb_prop in Hseg as [He Hd].
  apply negb_true_iff in He, Hd, Hdd. rewrite He, Hd, Hdd. simpl.
  by rewrite <- app_assoc.
Qed.

Lemma clean_slashFree (segs : list string) :
  Forall (λ seg, Path.cleanSegment seg = true) segs →
  Forall (λ seg, Str.slashFree seg = true) segs.
Proof.
  intros Hall. eapply Forall_impl; [exact Hall|].
  intros seg Hseg. unfold Path.cleanSegment in Hseg.
  by apply andb_prop in Hseg as [_ ?].
Qed.

Lemma normalizeStep_framed (allowAboveRoot : bool) (dsegs psegs : list string) :
  Forall (λ seg, Path.cleanSegment seg = true) dsegs →
  Forall (λ seg, Path.cleanSegment seg = true) psegs →
  foldl (Path.normalizeStep allowAboveRoot) []
    ([""] ++ dsegs ++ psegs ++ [""])
  = rev (dsegs ++ psegs).
Proof.
  intros Hd Hp. rewrite !foldl_app.
  change (foldl (Path.normalizeStep allowAboveRoot) [] [""]) with (@nil string).
  rewrite (normalizeStep_clean _ dsegs) by done.
  rewrite (normalizeStep_clean _ psegs) by done.
  rewrite app_nil_r, rev_app_distr. reflexivity.
Qed.

Lemma startsWith_slash (d : string) : Str.startsWith ("/" +:+ d) "/" = true.
Proof.
  unfold Str.startsWith. change ("/" +:+ d) with (String "/" d).
  cbn [String.prefix]. destruct (ascii_dec "/" "/"); [by destruct d|done].
Qed.

(** [path.resolve] of a clean relative path against a clean absolute
    directory. *)
Lemma resolve_clean (cwd : string) (dsegs psegs : list string) :
  dsegs ≠ [] → psegs ≠ [] →
  Forall (λ seg, Path.cleanSegment seg = true) dsegs →
  Forall (λ seg, Path.cleanSegment seg = true) psegs →
  Path.resolve cwd ("/" +:+ Str.joinWith "/" dsegs) (Str.joinWith "/" psegs)
  = "/" +:+ Str.joinWith "/" dsegs +:+ "/" +:+ Str.joinWith "/" psegs.
Proof.
  intros Hd Hp Hdc Hpc.
  set (d := Str.joinWith "/" dsegs). set (p := Str.joinWith "/" psegs).
  assert (p ≠ "") as Hpne.
  { subst p. destruct psegs as [|seg psegs]; [done|].
    apply Forall_cons in Hpc as [Hseg _]. unfold Path.cleanSegment in Hseg.
    destruct seg; [done|]. by destruct psegs. }
  assert (Str.startsWith p "/" = false) as Hrel.
  { subst p. destruct psegs as [|seg psegs]; [done|].
    apply Forall_cons in Hpc as [Hseg _]. unfold Path.cleanSegment in Hseg.
    apply andb_prop in Hseg as [Hseg Hfree].
    destruct seg as [|c seg]; [done|]. simpl in Hfree.
    apply andb_prop in Hfree as [Hc _]. apply negb_true_iff in Hc.
    unfold Str.isSlash in Hc. apply Ascii.eqb_neq in Hc.
    unfold Str.startsWith.
    assert (∀ rest, String.prefix "/" (String c rest) = false) as Hpre.
    { intros rest. cbn [String.prefix]. by destruct (ascii_dec "/" c). }
    destruct psegs; [apply Hpre|].
    change (Str.joinWith "/" (String c seg :: s :: psegs))
      with (String c (seg +:+ "/" +:+ Str.joinWith "/" (s :: psegs))).
    apply Hpre. }
  unfold Path.resolve. simpl foldl.
  destruct p as [|c0 p0] eqn:Hpeq; [done|]. simpl Str.isEmpty.
  rewrite Hrel. cbn [orb snd fst negb].
  change (Str.isEmpty ("/" +:+ d)) with false.
  replace (Str.startsWith ("" +:+ d) "") with true
    by (symmetry; unfold Str.startsWith; rewrite append_nil;
        by destruct (d : string)).
  cbn [orb snd fst negb].
  f_equal. unfold Path.normalizeString. rewrite <- Hpeq.
  change (("/" +:+ d) +:+ "/" +:+ p +:+ "/" +:+ "")
    with ("" +:+ String "/" (d +:+ String "/" (p +:+ String "/" ""))).
  rewrite !splitOn_append. subst d p.
  rewrite !splitOn_joinWith by (done || by apply clean_slashFree).
  change (Str.splitOn "/" "") with [""].
  rewrite normalizeStep_framed by done.
  rewrite rev_involutive. by rewrite joinWith_app.
Qed.

Lemma dirnameScan_name (name rest : list ascii) (j : nat) (ms : bool) :
  Forall (λ c, Str.isSlash c = false) name →
  name ≠ [] ∨ ms = false →
  Path.dirnameScan (name ++ "/"%char :: rest) (length name + S j) ms = Some (S j).
Proof.
  intros Hname. revert ms. induction Hname as [|c name Hc _ IH]; intros ms Hms.
  - destruct Hms as [?| ->]; [done|]. reflexivity.
  - simpl. rewrite Hc. apply IH. by right.
Qed.

Lemma chars_append (a b : string) :
  Path.chars (a +:+ b) = Path.chars a ++ Path.chars b.
Proof.
  induction a as [|x a IH]; [done|]. rewrite append_cons. simpl. by f_equal.
Qed.

Lemma slashFree_Forall (s : string) :
  Str.slashFree s = true → Forall (λ c, Str.isSlash c = false) (rev (Path.chars s)).
Proof.
  intros Hfree. apply Forall_forall. intros c Hc.
  apply list_elem_of_In, in_rev in Hc.
  induction s as [|x s IH]; [done|]. simpl in Hfree.
  apply andb_prop in Hfree as [Hx Hs].
  destruct Hc as [<- | Hc]; [by apply negb_true_iff|by apply IH].
Qed.

Lemma substring_prefix (a b : string) :
  String.substring 0 (String.length a) (a +:+ b) = a.
Proof. induction a as [|x a IH]; simpl; [by destruct b|]. by rewrite IH. Qed.

(** [path.dirname] of a file in a directory below the root. *)
Lemma dirname_file (d name : string) :
  d ≠ "" → name ≠ "" → Str.slashFree name = true →
  Path.dirname (("/" +:+ d) +:+ "/" +:+ name) = "/" +:+ d.
Proof.
  intros Hd Hname Hfree. unfold Path.dirname.
  set (p := ("/" +:+ d) +:+ "/" +:+ name).
  assert (String.length p = S (String.length d + S (String.length name)))
    as Hlen by (subst p; rewrite !append_length; simpl; lia).
  change (Str.isEmpty p) with false. cbv iota.
  assert (Path.dirnameScan (rev (Path.chars p)) (String.length p - 1) true
          = Some (String.length ("/" +:+ d))) as ->.
  { subst p. rewrite chars_append.
    change (Path.chars ("/" +:+ name)) with ("/"%char :: Path.chars name).
    rewrite rev_app_distr. simpl rev at 1. rewrite <- app_assoc. simpl app at 2.
    rewrite Hlen.
    replace (S (String.length d + S (String.length name)) - 1)
      with (length (rev (Path.chars name)) + S (String.length d)).
    2:{ rewrite length_rev.
        assert (length (Path.chars name) = String.length name) as ->
          by (clear; induction name; simpl; [done|by f_equal]).
        lia. }
    apply dirnameScan_name; [by apply slashFree_Forall|].
    left. destruct name as [|c name]; [done|]. simpl.
    intros Hnil. by apply app_eq_nil in Hnil as [_ ?]. }
  assert (Str.startsWith p "/" = true) as ->.
  { subst p. unfold Str.startsWith.
    change (("/" +:+ d) +:+ "/" +:+ name) with (String "/" (d +:+ "/" +:+ name)).
    cbn [String.prefix].
    destruct (ascii_dec "/" "/"); [by destruct (d +:+ _)|done]. }
  replace (String.length ("/" +:+ d) =? 1)%nat with false.
  2:{ symmetry. apply Nat.eqb_neq. destruct d; [done|]. simpl. lia. }
  simpl andb. cbv iota. unfold Str.slice. rewrite Nat.sub_0_r.
  subst p. apply substring_prefix.
Qed.

Lemma joinWith_clean_not_empty (segs : list string) :
  segs ≠ [] → Forall (λ seg, Path.cleanSegment seg = true) segs →
  Str.joinWith "/" segs ≠ "".
Proof.
  intros Hne Hall. destruct segs as [|seg segs]; [done|].
  apply Forall_cons in Hall as [Hseg _]. unfold Path.cleanSegment in Hseg.
  destruct seg; [done|]. by destruct segs.
Qed.

Lemma prefixes_snoc {A : Type} (l : list A) (x : A) :
  Path.prefixes (l ++ [x]) = Path.prefixes l ++ [l ++ [x]].
Proof.
  induction l as [|y l IH]; [done|]. simpl. rewrite IH, fmap_app. simpl.
  by destruct l.
Qed.

Lemma clean_tsconfig : Path.cleanSegment "tsconfig.json" = true.
Proof. reflexivity. Qed.

Lemma endsWith_slash_false (a : string) (c : ascii) :
  Str.isSlash c = false → Str.endsWith (a +:+ String c "") "/" = false.
Proof.
  intros Hc. unfold Str.endsWith. rewrite append_length. simpl.
  replace (String.length a + 1 - 1) with (String.length a) by lia.
  rewrite drop_append. simpl. unfold Str.isSlash in Hc.
  rewrite Hc. by rewrite andb_false_r.
Qed.

(** [path.join] of a clean absolute directory and a file name. *)
Lemma join_clean (segs : list string) (name : string) :
  segs ≠ [] → Forall (λ seg, Path.cleanSegment seg = true) segs →
  Path.cleanSegment name = true →
  Path.join ("/" +:+ Str.joinWith "/" segs) name
  = "/" +:+ Str.joinWith "/" segs +:+ "/" +:+ name.
Proof.
  intros Hne Hall Hname. unfold Path.join.
  change (Str.isEmpty ("/" +:+ Str.joinWith "/" segs)) with false.
  assert (Str.isEmpty name = false) as ->.
  { unfold Path.cleanSegment in Hname. by destruct name. }
  unfold Path.normalize.
  change (Str.isEmpty (("/" +:+ Str.joinWith "/" segs) +:+ "/" +:+ name))
    with false. cbv iota.
  assert (Str.startsWith (("/" +:+ Str.joinWith "/" segs) +:+ "/" +:+ name) "/"
          = true) as ->.
  { unfold Str.startsWith.
    change (("/" +:+ Str.joinWith "/" segs) +:+ "/" +:+ name)
      with (String "/" (Str.joinWith "/" segs +:+ "/" +:+ name)).
    cbn [String.prefix].
    destruct (ascii_dec "/" "/"); [by destruct (_ +:+ _)|done]. }
  assert (Path.normalizeString
            (("/" +:+ Str.joinWith "/" segs) +:+ "/" +:+ name) (negb true)
          = Str.joinWith "/" segs +:+ "/" +:+ name) as ->.
  { unfold Path.normalizeString.
    change (("/" +:+ Str.joinWith "/" segs) +:+ "/" +:+ name)
      with ("" +:+ String "/" (Str.joinWith "/" segs +:+ String "/" name)).
    rewrite !splitOn_append.
    rewrite splitOn_joinWith by (done || by apply clean_slashFree).
    rewrite (splitOn_slashFree name)
      by (unfold Path.cleanSegment in Hname; by apply andb_prop in Hname as [_ ?]).
    change (Str.splitOn "/" "") with [""].
    rewrite <- (app_nil_r [name]) at 1.
    assert (foldl (Path.normalizeStep (negb true)) []
              ([""] ++ segs ++ [name] ++ [])
            = rev (segs ++ [name])) as ->.
    { rewrite !foldl_app.
      change (foldl (Path.normalizeStep (negb true)) [] [""]) with (@nil string).
      rewrite (normalizeStep_clean _ segs) by done.
      rewrite (normalizeStep_clean _ [name]) by (by constructor).
      simpl. by rewrite app_nil_r, rev_app_distr. }
    rewrite rev_involutive. by rewrite joinWith_app. }
  assert (Str.isEmpty (Str.joinWith "/" segs +:+ "/" +:+ name) = false) as ->.
  { pose proof (joinWith_clean_not_empty segs Hne Hall).
    by destruct (Str.joinWith "/" segs). }
  assert (Str.endsWith (("/" +:+ Str.joinWith "/" segs) +:+ "/" +:+ name) "/"
          = false) as ->; [|done].
  assert (Str.isEmpty name = false ∧ Str.slashFree name = true) as [Hne' Hfree].
  { unfold Path.cleanSegment in Hname. destruct name; [done|].
    split; [done|]. by apply andb_prop in Hname as [_ ?]. }
  clear Hname.
  assert (∀ name, Str.isEmpty name = false → Str.slashFree name = true →
          ∃ a c, name = a +:+ String c "" ∧ Str.isSlash c = false) as Hlast.
  { clear. induction name as [|x name IH]; [done|]. intros _ Hfree.
    simpl in Hfree. apply andb_prop in Hfree as [Hx Hfree].
    destruct name as [|y name].
    - exists "", x. split; [done|]. by apply negb_true_iff.
    - destruct (IH eq_refl Hfree) as (a & c & -> & Hc).
      exists (String x a), c. done. }
  destruct (Hlast name Hne' Hfree) as (a & c & -> & Hc).
  rewrite <- !append_assoc. by apply endsWith_slash_false.
Qed.

Lemma prefixes_clean (segs : list string) :
  Forall (λ seg, Path.cleanSegment seg = true) segs →
  Forall (λ pre, pre ≠ [] ∧ Forall (λ seg, Path.cleanSegment seg = true) pre)
    (Path.prefixes segs).
Proof.
  induction 1 as [|seg segs Hseg Hall IH]; simpl; [done|].
  constructor; [by split; [|constructor]|].
  apply Forall_fmap. eapply Forall_impl; [exact IH|].
  intros pre [_ Hpre]. simpl. split; [done|by constructor].
Qed.

End CleanPathFacts.


(** ** Where the configuration files and the enum files are looked for *)

Module LookupFacts.
Import Tsconfig TsconfigFacts TsconfigCacheFacts ConstEnum ConstEnumFacts
  CleanPathFacts.

Section Facts.
Context `{FileSystem}.

Lemma probedDirs_clean (segs : list string) :
  Forall (λ seg, Path.cleanSegment seg = true) segs →
  segs ≠ [] →
  probedDirs ("/" +:+ Str.joinWith "/" segs)
  = (λ pre, "/" +:+ Str.joinWith "/" pre) <$> reverse (Path.prefixes segs).
Proof.
  induction segs as [|seg segs IH] using rev_ind; [done|].
  intros Hall _. apply Forall_app in Hall as [Hall Hseg].
  apply Forall_inv in Hseg.
  assert (Str.slashFree seg = true ∧ seg ≠ "") as [Hfree Hne].
  { unfold Path.cleanSegment in Hseg. destruct seg; [done|].
    split; [by apply andb_prop in Hseg as [_ ?]|done]. }
  rewrite prefixes_snoc, reverse_snoc, fmap_cons, probedDirs_unfold.
  assert (Path.dirname ("/" +:+ Str.joinWith "/" (segs ++ [seg]))
          = if decide (segs = []) then "/" else "/" +:+ Str.joinWith "/" segs)
    as Hdir.
  { destruct (decide (segs = [])) as [->|Hsegs].
    - by apply dirname_top_level.
    - rewrite joinWith_app by done. simpl Str.joinWith at 2.
      rewrite <- (append_assoc "/" (Str.joinWith "/" segs)).
      apply dirname_file; [|done..].
      by apply joinWith_clean_not_empty. }
  rewrite Hdir.
  assert (String.eqb ("/" +:+ Str.joinWith "/" (segs ++ [seg]))
            (if decide (segs = []) then "/" else "/" +:+ Str.joinWith "/" segs)
          = false) as ->.
  { apply String.eqb_neq. intros Heq. apply (f_equal String.length) in Heq.
    destruct (decide (segs = [])) as [->|Hsegs].
    - simpl in Heq. by destruct seg.
    - rewrite joinWith_app in Heq by done. simpl Str.joinWith in Heq.
      rewrite !append_length in Heq. simpl in Heq. lia. }
  f_equal. destruct (decide (segs = [])) as [->|Hsegs]; [|by apply IH].
  by rewrite probedDirs_unfold.
Qed.

Lemma find_configs (l : list (list string)) :
  Forall (λ pre, pre ≠ [] ∧ Forall (λ seg, Path.cleanSegment seg = true) pre) l →
  (λ d, Path.join d "tsconfig.json")
    <$> List.find hasConfig ((λ pre, "/" +:+ Str.joinWith "/" pre) <$> l)
  = List.find (λ p, isOk (accessSync p))
      ((λ pre, "/" +:+ Str.joinWith "/" pre +:+ "/tsconfig.json") <$> l).
Proof.
  induction 1 as [|pre l [Hne Hpre] Hall IH]; [done|].
  rewrite !fmap_cons. cbn [List.find]. unfold hasConfig at 1.
  rewrite join_clean by done.
  change ("/" +:+ "tsconfig.json") with "/tsconfig.json".
  destruct (isOk _); [|exact IH].
  change (Some (Path.join ("/" +:+ Str.joinWith "/" pre) "tsconfig.json")
          = Some ("/" +:+ Str.joinWith "/" pre +:+ "/tsconfig.json")).
  by rewrite join_clean.
Qed.

(** X18.  For a requesting file [/s1/.../sn/name] whose segments are clean,
    the directory searched is [/s1/.../sn] and the walk returns the first
    file that [accessSync] accepts among [/s1/.../sn/tsconfig.json],
    [/s1/.../s(n-1)/tsconfig.json], ..., [/s1/tsconfig.json], in this
    order; [/tsconfig.json] is not among them. *)
Theorem walk_probes_each_ancestor_config (segs : list string) (name : string) :
  segs ≠ [] → Forall (λ seg, Path.cleanSegment seg = true) segs →
  name ≠ "" → Str.slashFree name = true →
  let fromFile := "/" +:+ Str.joinWith "/" segs +:+ "/" +:+ name in
  Path.dirname fromFile = "/" +:+ Str.joinWith "/" segs
  ∧ findTsconfig (Path.dirname fromFile)
    = List.find (λ p, isOk (accessSync p)) (configPathsOf segs).
Proof.
  intros Hne Hall Hname Hfree fromFile.
  assert (Path.dirname fromFile = "/" +:+ Str.joinWith "/" segs) as Hdir.
  { subst fromFile. rewrite <- (append_assoc "/" (Str.joinWith "/" segs)).
    apply dirname_file; [|done..].
    by apply joinWith_clean_not_empty. }
  split; [done|]. rewrite Hdir.
  unfold findTsconfig. rewrite searchUp_first.
  fold (probedDirs ("/" +:+ Str.joinWith "/" segs)).
  rewrite probedDirs_clean by done. unfold configPathsOf.
  apply find_configs, Forall_reverse. by apply prefixes_clean.
Qed.

(** X17.  The files of an import are looked for beside the importing file:
    for a file [/d1/.../dn/name] and an import path [p1/.../pm] of clean
    segments, the candidates are [base.d.ts], [base.ts], [base/index.d.ts],
    [base/index.ts] with [base = /d1/.../dn/p1/.../pm], then, when [base]
    ends in [.js], the two files with [.js] replaced; the existing ones are
    returned in this order, whatever the working directory.  An import path
    that is not absolute gives the same files with and without a leading
    [./], so a package name is looked up like a relative path. *)
Theorem enum_files_are_looked_up_beside_the_importer :
  (∀ (dsegs psegs : list string) (name : string),
     dsegs ≠ [] → psegs ≠ [] →
     Forall (λ seg, Path.cleanSegment seg = true) dsegs →
     Forall (λ seg, Path.cleanSegment seg = true) psegs →
     name ≠ "" → Str.slashFree name = true →
     resolveEnumPath (Str.joinWith "/" psegs)
       (("/" +:+ Str.joinWith "/" dsegs) +:+ "/" +:+ name)
     = filter (λ candidate, existsSync candidate = true)
         (let base :=
            "/" +:+ Str.joinWith "/" dsegs +:+ "/" +:+ Str.joinWith "/" psegs in
          [base +:+ ".d.ts"; base +:+ ".ts";
           base +:+ "/index.d.ts"; base +:+ "/index.ts"]
          ++ (if Str.endsWith base ".js" then
                [Str.slice base 0 (String.length base - 3) +:+ ".d.ts";
                 Str.slice base 0 (String.length base - 3) +:+ ".ts"]
              else [])))
  ∧ (∀ importPath currentFile,
       importPath ≠ "" → Str.startsWith importPath "/" = false →
       resolveEnumPath ("./" +:+ importPath) currentFile
       = resolveEnumPath importPath currentFile).
Proof.
  split.
  - intros dsegs psegs name Hd Hp Hdc Hpc Hname Hfree. unfold resolveEnumPath.
    rewrite dirname_file; [|by apply joinWith_clean_not_empty|done..].
    by rewrite resolve_clean.
  - intros importPath currentFile Hne Hrel. unfold resolveEnumPath.
    by rewrite resolve_dot_slash.
Qed.

End Facts.

End LookupFacts.


(** ** What the coordinator returns *)

Module CoordinatorFacts.
Import ResolveFilename ResolveEdgeFacts.

Section Facts.
Context `{FileSystem} `{GetTsconfig} `{ResolverParts}.

(** X16.  The coordinator adds no outcome of its own.  What it throws is
    what the host resolver throws for the request (as it came, or after
    [interopCjsExports]), what [fileURLToPath] throws, or what the layered
    chain throws for the request itself; what it returns is a result of
    the host resolver for the request, or a result of the layered chain
    with the query put back. *)
Theorem coordinator_outcomes_are_the_hosts {HostArg : Type}
    (host : @HostResolve HostArg) (namespace : option string) (enabled : bool)
    (request clean : string) (parent : option Parent) (restOfArgs : list HostArg)
    (params : URLSearchParams) (appendQuery : string → nat → string)
    (st : Tsconfig.State) :
  preserveQuery (interopCjsExports request) parent = (clean, params, appendQuery) →
  let chain := layeredResolve host namespace parent restOfArgs in
  let outcome :=
    (createResolveFilename enabled host namespace request parent restOfArgs st).1 in
  (∀ e, outcome = Throw e →
     host request parent restOfArgs = Throw e
     ∨ host (interopCjsExports request) parent restOfArgs = Throw e
     ∨ supportFileProtocol clean = Throw e
     ∨ ∃ r, supportFileProtocol clean = Ok r ∧ chain r = Throw e)
  ∧ (∀ resolved, outcome = Ok resolved →
       host request parent restOfArgs = Ok resolved
       ∨ host (interopCjsExports request) parent restOfArgs = Ok resolved
       ∨ ∃ p found, chain p = Ok found
                    ∧ resolved = appendQuery found (length restOfArgs)).
Proof.
  intros Hpq chain outcome. subst outcome. unfold createResolveFilename.
  destruct enabled; simpl; [|split; intros ? ->; by left].
  rewrite Hpq.
  destruct (bool_decide (searchParamsGet params "namespace" = namespace)); simpl;
    [|split; intros ? ->; right; by left].
  fold chain. unfold mbind, eff_bind.
  pose proof (resolveTsPaths_cases clean parent chain st) as Hcases.
  destruct (supportFileProtocol clean) as [r|e0].
  - assert (∃ st', resolveTsPaths clean parent chain st = (chain r, st')
            ∨ ∃ p found, resolveTsPaths clean parent chain st = (Ok found, st')
                         ∧ chain p = Ok found) as (st' & Hres).
    { destruct (aliasApplies r parent); [|by eauto].
      destruct Hcases as (paths & st' & _ & ->). exists st'.
      destruct (firstResolved chain paths) as [found|] eqn:Hfirst; [|by left].
      apply firstResolved_some in Hfirst as (p & _ & Hp). right. eauto. }
    destruct Hres as [-> | (p & found & -> & Hp)]; simpl.
    + destruct (chain r) as [found|e] eqn:Hr; split; try done.
      * intros resolved [= <-]. right; right. eauto.
      * intros e' [= <-]. right; right; right. eauto.
    + split; [done|]. intros resolved [= <-]. right; right. eauto.
  - rewrite Hcases. simpl. split; [|done].
    intros e [= <-]. right; right. by left.
Qed.

End Facts.

End CoordinatorFacts.


(** ** The lookups and the coordinator on the example workspace *)

Module LookupExamples.
Import Tsconfig ResolveFilename ConstEnum Scenario.

(** A file of package B's [src]. *)
Lemma walk_probes_each_ancestor_config_witness :
  Path.dirname "/ws/packages/b/src/main.ts" = "/ws/packages/b/src"
  ∧ @findTsconfig workspaceFS (Path.dirname "/ws/packages/b/src/main.ts")
    = List.find (λ p, isOk (@accessSync workspaceFS p))
        ["/ws/packages/b/src/tsconfig.json"; "/ws/packages/b/tsconfig.json";
         "/ws/packages/tsconfig.json"; "/ws/tsconfig.json"].
Proof.
  apply (@LookupFacts.walk_probes_each_ancestor_config workspaceFS
           ["ws"; "packages"; "b"; "src"] "main.ts");
    [discriminate | repeat constructor | discriminate | reflexivity].
Defined.

(** [./color] imported by [/ws/src/main.ts]. *)
Lemma enum_files_are_looked_up_beside_the_importer_witness :
  @resolveEnumPath enumFS "color" "/ws/src/main.ts"
  = filter (λ candidate, @existsSync enumFS candidate = true)
      ["/ws/src/color.d.ts"; "/ws/src/color.ts";
       "/ws/src/color/index.d.ts"; "/ws/src/color/index.ts"].
Proof.
  apply (proj1 (@LookupFacts.enum_files_are_looked_up_beside_the_importer enumFS)
           ["ws"; "src"] ["color"] "main.ts");
    [discriminate | discriminate | repeat constructor | repeat constructor
    | discriminate | reflexivity].
Defined.

(** The alias of package B, asked for from a file of package B. *)
Lemma coordinator_outcomes_are_the_hosts_witness :
  hostOf workspaceModules "@b/util" nestedParent []
  = Ok "/ws/packages/b/src/util.ts"
  ∨ hostOf workspaceModules (@interopCjsExports specParts "@b/util")
      nestedParent []
    = Ok "/ws/packages/b/src/util.ts"
  ∨ ∃ p found,
      @layeredResolve specParts unit (hostOf workspaceModules) None
        nestedParent [] p = Ok found
      ∧ "/ws/packages/b/src/util.ts" = found +:+ "".
Proof.
  apply (proj2 (@CoordinatorFacts.coordinator_outcomes_are_the_hosts
                  workspaceFS workspaceConfigs specParts unit
                  (hostOf workspaceModules) None true "@b/util" "@b/util"
                  nestedParent [] "" (λ resolved _, resolved +:+ "")
                  freshState eq_refl)
           "/ws/packages/b/src/util.ts").
  reflexivity.
Defined.

End LookupExamples.


(** ** The values of the members *)

Module AutoIncrementFacts.
Import ConstEnum ConstEnumFacts ExtractionFacts.

Section Facts.
Context `{FileSystem} `{JSRuntime} `{OxcParser}.

(** The members of a declaration follow the rule when they are extracted. *)
Lemma enumMembersOf_rule (content : string) (defs : Defines)
    (decl : TSEnumDeclaration) (r : MemberLoop) :
  enumMembersOf content defs decl = Ok r →
  extractedByRule {| id := enumName decl; members := membersAcc r |} decl.
Proof.
  unfold enumMembersOf. intros Hr.
  apply members_fold in Hr as (_ & new & Hnew & Hnames & Hliterals & Hrules);
    [|done].
  simpl in Hnew. subst new. by repeat split.
Qed.

Lemma body_fold_rule (content : string) (body : list Statement)
    (acc r : list EnumDeclaration * Defines) :
  foldM (statementStep content) acc body = Ok r →
  ∃ new, r.1 = acc.1 ++ new
         ∧ Forall2 extractedByRule new (exportedConstEnums body).
Proof.
  revert acc. induction body as [|node body IH]; intros acc.
  - intros [= <-]. exists []. by rewrite app_nil_r.
  - rewrite foldM_cons. unfold mbind, exc_bind.
    destruct (statementStep content acc node) as [acc1|] eqn:Hstep; [|done].
    intros (new & Hnew & Hall)%IH.
    rewrite exportedConstEnums_cons.
    destruct (exportedConstEnumOf node) as [decl|] eqn:Hnode.
    + destruct (statementStep_enum content acc node decl Hnode) as [Heq Hconst].
      rewrite Heq in Hstep. simpl in Hstep. rewrite Hconst in Hstep.
      unfold mbind, exc_bind in Hstep.
      destruct (enumMembersOf content acc.2 decl) as [m|] eqn:Hm; [|done].
      injection Hstep as <-. simpl in Hnew.
      exists ({| id := enumName decl; members := membersAcc m |} :: new).
      split; [by rewrite Hnew, <- app_assoc|].
      constructor; [|done]. by eapply enumMembersOf_rule.
    + rewrite statementStep_other in Hstep by done. injection Hstep as <-.
      eauto.
Qed.

(** Declarations whose members have numbers or nothing as initializers are
    always extracted. *)
Lemma body_fold_numeric (content : string) (body : list Statement)
    (acc : list EnumDeclaration * Defines) :
  Forall (λ decl, Forall plainNumeric (enumMembers decl))
    (exportedConstEnums body) →
  ∃ r, foldM (statementStep content) acc body = Ok r.
Proof.
  revert acc. induction body as [|node body IH]; intros acc Hall; [by eauto|].
  rewrite foldM_cons. rewrite exportedConstEnums_cons in Hall.
  destruct (exportedConstEnumOf node) as [decl|] eqn:Hnode.
  - apply Forall_cons in Hall as [Hdecl Hall].
    destruct (statementStep_enum content acc node decl Hnode) as [-> Hconst].
    simpl. rewrite Hconst.
    destruct (members_fold_numeric content (enumName decl) (enumMembers decl)
                {| lastInitialized := None; membersAcc := [];
                   definesAcc := acc.2 |} Hdecl) as [r Hr]; [by left|].
    unfold enumMembersOf. rewrite Hr. simpl. by apply IH.
  - rewrite statementStep_other by done. simpl. by apply IH.
Qed.

(** C4.  From a file whose program is the exported declaration
    [const enum Color { Red, Green = 5, Blue }], the members are extracted
    as [Red = 0], [Green = 5], [Blue = 6].  In general the entry of a
    TypeScript file is empty (the extraction failed) or holds, for every
    exported const enum of the program, in order, a declaration with the
    members in order, in which a member with a literal initializer has the
    literal's value, a first member without initializer has [0], and a later
    member without initializer has the previous member's number plus one
    (the sum of binary64 numbers), or [0] when the previous member's value
    is [undefined]; and the extraction does not fail when the members of the
    exported const enums have numbers or nothing as initializers. *)
Theorem auto_increment_values (filePath content : string)
    (body : list Statement) (cache : Cache) :
  cache !! filePath = None →
  existsSync filePath = true →
  isTs (getLang filePath) = true →
  readFileSync filePath = Ok content →
  parseSync filePath content
    (if String.eqb (getLang filePath) "dts" then "ts" else getLang filePath)
    "ts" = Ok body →
  ∃ data,
    (parseConstEnumsFromAST filePath cache).1 = Ok data
    ∧ (data = emptyEnumData
       ∨ Forall2 extractedByRule (declarations data) (exportedConstEnums body))
    ∧ (Forall (λ decl, Forall plainNumeric (enumMembers decl))
         (exportedConstEnums body) →
       Forall2 extractedByRule (declarations data) (exportedConstEnums body))
    ∧ (body = [ExportNamedDeclaration (Some (TSEnumDecl Scenario.colorDecl))] →
       declarations data =
         [{| id := "Color";
             members := [{| name := "Red"; value := Some (VNum 0) |};
                         {| name := "Green"; value := Some (VNum 5) |};
                         {| name := "Blue"; value := Some (VNum 6) |}] |}]).
Proof.
  intros Hmiss Hexists Hts Hread Hparse.
  assert ((parseConstEnumsFromAST filePath cache).1 =
            Ok (match foldM (statementStep content) ([], ∅) body with
                | Ok r => {| declarations := r.1; defines := r.2 |}
                | Throw _ => emptyEnumData
                end)) as Hdata.
  { unfold parseConstEnumsFromAST, mbind, eff_bind, getStore. rewrite Hmiss.
    unfold try_catch. rewrite (parseBody_ts _ content) by done.
    rewrite Hparse. by destruct (foldM (statementStep content) ([], ∅) body). }
  eexists. split; [exact Hdata|]. split; [|split].
  - destruct (foldM (statementStep content) ([], ∅) body) as [r|e] eqn:Hfold;
      [|by left].
    right. simpl. by apply body_fold_rule in Hfold as (new & -> & Hall).
  - intros Hnumeric.
    destruct (body_fold_numeric content body ([], ∅) Hnumeric) as [r Hfold].
    rewrite Hfold. simpl. by apply body_fold_rule in Hfold as (new & -> & Hall).
  - intros ->. reflexivity.
Qed.

End Facts.
End AutoIncrementFacts.


(** ** The rule of auto-increment on an example file *)

Module AutoIncrementExamples.
Import ConstEnum Scenario AutoIncrementFacts.

(** [color.ts]: [Blue] follows [Green = 5]. *)
Lemma auto_increment_values_witness :
  ∃ data,
    (@parseConstEnumsFromAST enumFS integerRuntime enumParser
       "/ws/src/color.ts" ∅).1 = Ok data
    ∧ declarations data =
        [{| id := "Color";
            members := [{| name := "Red"; value := Some (VNum 0) |};
                        {| name := "Green"; value := Some (VNum 5) |};
                        {| name := "Blue"; value := Some (VNum 6) |}] |}].
Proof.
  destruct (@auto_increment_values enumFS integerRuntime enumParser
              "/ws/src/color.ts" colorSource
              [ExportNamedDeclaration (Some (TSEnumDecl colorDecl))] ∅)
    as (data & Hdata & _ & _ & Hcolor);
    [reflexivity | reflexivity | reflexivity | reflexivity | reflexivity |].
  exists data. split; [exact Hdata|]. by apply Hcolor.
Defined.

(** [B] follows [A = void ' 0'], which evaluates to [undefined]: it gets
    [0], and [V.A] is defined as [undefined]. *)
Example member_after_undefined :
  (@parseConstEnumsFromAST unaryFS unaryRuntime unaryParser "/ws/src/void.ts" ∅).1
  = Ok {| declarations :=
            [{| id := "V";
                members := [{| name := "A"; value := None |};
                            {| name := "B"; value := Some (VNum 0) |}] |}];
          defines := <["V.B" := Some "0"]> (<["V.A" := None]> ∅) |}.
Proof. vm_compute. reflexivity. Qed.

End AutoIncrementExamples.


(** ** The configuration file of the root directory *)

Module RootConfigFacts.
Import Tsconfig TsconfigFacts TsconfigCacheFacts ConstEnumFacts CleanPathFacts
  LookupFacts.

Section Facts.
Context `{FileSystem} `{GetTsconfig}.



End Facts.
End RootConfigFacts.


(** ** The root configuration file on the example workspace *)

Module RootConfigExamples.
Import Tsconfig Scenario RootConfigFacts.



End RootConfigExamples.
